(** * Aurora Ontology: the note parser, the Insight sync service and the
      query orchestration of the Obsidian plugin, embedded in Rocq.

    Source files embedded here:
    - [services/note-classifier.ts]: [classifyNote], [isInsightNote],
      [isQuestionNote], [parseFrontmatter];
    - [services/insight-sync.ts]: class [InsightSyncService];
    - [services/api-client.ts]: the requests of [ApiClient] and the
      encoding of a path in the URL of a delete;
    - [ui/insight-panel.ts]: the result state of [InsightPanelView];
    - [main.ts]: [AuroraOntologyPlugin.onload] and [doQuery].

    JavaScript strings are sequences of UTF-16 code units; they are modelled
    as lists of code units (numbers). *)

From Stdlib Require Import List NArith ZArith Bool Ascii Lia.
From Stdlib Require String QArith.
Import ListNotations.
Import String.StringSyntax.
Delimit Scope string_scope with string.


(* ================================================================= *)
(** ** JavaScript strings *)

Definition code_unit := N.
Definition jsstring := list code_unit.

(** A literal of ASCII characters as a JavaScript string. *)
Definition lit (s : String.string) : jsstring :=
  map N_of_ascii (String.list_ascii_of_string s).

Arguments lit s%_string.

Definition LF : code_unit := 10%N.
Definition dquote : code_unit := 34%N.
Definition squote : code_unit := 39%N.
Definition colon : code_unit := 58%N.

Fixpoint jseqb (a b : jsstring) : bool :=
  match a, b with
  | [], [] => true
  | x :: a', y :: b' => N.eqb x y && jseqb a' b'
  | _, _ => false
  end.

(** [s.startsWith(p)] *)
Fixpoint startsWith (s p : jsstring) {struct p} : bool :=
  match p with
  | [] => true
  | c :: p' =>
      match s with
      | [] => false
      | d :: s' => N.eqb d c && startsWith s' p'
      end
  end.

(** [s.endsWith(p)] *)
Definition endsWith (s p : jsstring) : bool :=
  startsWith (rev s) (rev p).

(** [s.indexOf(pat)]: the first position at which [pat] occurs, [-1] when
    there is none. *)
Fixpoint indexOf_from (s pat : jsstring) (i : Z) : Z :=
  if startsWith s pat then i
  else match s with
       | [] => (-1)%Z
       | _ :: s' => indexOf_from s' pat (i + 1)%Z
       end.

Definition indexOf (s pat : jsstring) : Z := indexOf_from s pat 0%Z.

(** Relative index of [slice]: a negative index counts from the end, and
    the result is clamped to [0 .. len]. *)
Definition clamp_index (len i : Z) : Z :=
  if (i <? 0)%Z then Z.max (len + i) 0 else Z.min i len.

(** [s.slice(from, to)] *)
Definition slice (s : jsstring) (from to : Z) : jsstring :=
  let len := Z.of_nat (length s) in
  let f := clamp_index len from in
  let t := clamp_index len to in
  firstn (Z.to_nat (t - f)) (skipn (Z.to_nat f) s).

(** [s.slice(from)] *)
Definition slice_from (s : jsstring) (from : Z) : jsstring :=
  slice s from (Z.of_nat (length s)).

(** White space and line terminators of ECMAScript, the code units that
    [trim] removes. *)
Definition isWhiteSpace (c : code_unit) : bool :=
  ((9 <=? c) && (c <=? 13) || (c =? 32) || (c =? 160) || (c =? 5760)
   || (8192 <=? c) && (c <=? 8202) || (c =? 8232) || (c =? 8233)
   || (c =? 8239) || (c =? 8287) || (c =? 12288) || (c =? 65279))%N.

Fixpoint trimStart (s : jsstring) : jsstring :=
  match s with
  | [] => []
  | c :: s' => if isWhiteSpace c then trimStart s' else s
  end.

Definition trimEnd (s : jsstring) : jsstring := rev (trimStart (rev s)).

(** [s.trim()] *)
Definition trim (s : jsstring) : jsstring := trimEnd (trimStart s).

(** [s.split(sep)] for a separator of one code unit. *)
Fixpoint split (sep : code_unit) (s : jsstring) : list jsstring :=
  match s with
  | [] => [[]]
  | c :: s' =>
      if N.eqb c sep then [] :: split sep s'
      else match split sep s' with
           | l :: ls => (c :: l) :: ls
           | [] => [[c]]
           end
  end.

(* ================================================================= *)
(** ** Entities and the note classifier *)

Inductive NoteType := thought | question | insight.

Record NoteFrontmatter := {
  type : option jsstring;
  created : option jsstring;
  status : option jsstring;
  triggered_by : option jsstring;
  related_insights : option (list jsstring);
  related_questions : option (list jsstring);
  source_questions : option (list jsstring);
  confidence : option jsstring;
  evolved_from : option jsstring;
  tags : option (list jsstring)
}.

(** The object literal [{}]. *)
Definition empty_frontmatter : NoteFrontmatter :=
  {| type := None; created := None; status := None; triggered_by := None;
     related_insights := None; related_questions := None;
     source_questions := None; confidence := None; evolved_from := None;
     tags := None |}.

Definition path := jsstring.

(** [TAbstractFile] of the host: a file ([TFile]) or a folder. *)
Inductive FileKind := KFile | KFolder.

Record TAbstractFile := { file_path : path; file_kind : FileKind }.

Definition TFile (p : path) : TAbstractFile :=
  {| file_path := p; file_kind := KFile |}.
Definition TFolder (p : path) : TAbstractFile :=
  {| file_path := p; file_kind := KFolder |}.

(** [file instanceof TFile] *)
Definition instanceof_TFile (f : TAbstractFile) : bool :=
  match file_kind f with KFile => true | KFolder => false end.

Definition classifyNote (f : TAbstractFile) : option NoteType :=
  let p := file_path f in
  if startsWith p (lit "Thoughts/") then Some thought
  else if startsWith p (lit "Questions/") then Some question
  else if startsWith p (lit "Insights/") then Some insight
  else None.

Definition isQuestionNote (f : TAbstractFile) : bool :=
  match classifyNote f with Some question => true | _ => false end.

Definition isInsightNote (f : TAbstractFile) : bool :=
  match classifyNote f with Some insight => true | _ => false end.

Definition isThoughtNote (f : TAbstractFile) : bool :=
  match classifyNote f with Some thought => true | _ => false end.

(* ================================================================= *)
(** ** The frontmatter parser *)

(** The opening [---\n] and the closing [\n---] of the regular expression
    of the parser, which reads, with spaces added between its parts,
    [^ ---\n ( [\s\S]*? ) \n--- \n? ( [\s\S]* ) $]. *)
Definition fm_open : jsstring := lit "---" ++ [LF].
Definition fm_close : jsstring := LF :: lit "---".

(** The lazy group [( [\s\S]*? )] followed by a literal [k]: the group takes the shortest prefix after which the
    literal [k] matches; the result is the group and what follows [k]. *)
Fixpoint lazy_any_then (k s : jsstring) : option (jsstring * jsstring) :=
  if startsWith s k then Some ([], skipn (length k) s)
  else match s with
       | [] => None
       | c :: s' =>
           match lazy_any_then k s' with
           | Some (g, r) => Some (c :: g, r)
           | None => None
           end
       end.

(** [content.match(frontmatterRegex)]: the two groups, when the expression
    matches. The greedy [\n?] takes a line feed when there is one, and the
    last group takes the rest, so nothing backtracks after the first
    closing [\n---] is found. *)
Definition frontmatterRegex (content : jsstring)
  : option (jsstring * jsstring) :=
  if startsWith content fm_open then
    match lazy_any_then fm_close (skipn (length fm_open) content) with
    | Some (frontmatterRaw, r) =>
        Some (frontmatterRaw, if startsWith r [LF] then skipn 1 r else r)
    | None => None
    end
  else None.

(** The [switch (key)] of the parser. *)
Definition assign_field (fm : NoteFrontmatter) (key value : jsstring)
  : NoteFrontmatter :=
  if jseqb key (lit "type") then
    {| type := Some value; created := created fm; status := status fm;
       triggered_by := triggered_by fm;
       related_insights := related_insights fm;
       related_questions := related_questions fm;
       source_questions := source_questions fm;
       confidence := confidence fm; evolved_from := evolved_from fm;
       tags := tags fm |}
  else if jseqb key (lit "created") then
    {| type := type fm; created := Some value; status := status fm;
       triggered_by := triggered_by fm;
       related_insights := related_insights fm;
       related_questions := related_questions fm;
       source_questions := source_questions fm;
       confidence := confidence fm; evolved_from := evolved_from fm;
       tags := tags fm |}
  else if jseqb key (lit "status") then
    {| type := type fm; created := created fm; status := Some value;
       triggered_by := triggered_by fm;
       related_insights := related_insights fm;
       related_questions := related_questions fm;
       source_questions := source_questions fm;
       confidence := confidence fm; evolved_from := evolved_from fm;
       tags := tags fm |}
  else if jseqb key (lit "triggered_by") then
    {| type := type fm; created := created fm; status := status fm;
       triggered_by := Some value;
       related_insights := related_insights fm;
       related_questions := related_questions fm;
       source_questions := source_questions fm;
       confidence := confidence fm; evolved_from := evolved_from fm;
       tags := tags fm |}
  else if jseqb key (lit "confidence") then
    {| type := type fm; created := created fm; status := status fm;
       triggered_by := triggered_by fm;
       related_insights := related_insights fm;
       related_questions := related_questions fm;
       source_questions := source_questions fm;
       confidence := Some value; evolved_from := evolved_from fm;
       tags := tags fm |}
  else if jseqb key (lit "evolved_from") then
    {| type := type fm; created := created fm; status := status fm;
       triggered_by := triggered_by fm;
       related_insights := related_insights fm;
       related_questions := related_questions fm;
       source_questions := source_questions fm;
       confidence := confidence fm; evolved_from := Some value;
       tags := tags fm |}
  else fm.

(** Quotes around a value are removed when it starts and ends with the same
    quote character. *)
Definition unquote (value : jsstring) : jsstring :=
  if (startsWith value [dquote] && endsWith value [dquote])
     || (startsWith value [squote] && endsWith value [squote])
  then slice value 1 (-1)
  else value.

(** The body of the loop over the lines of the header. *)
Definition parse_line (fm : NoteFrontmatter) (line : jsstring)
  : NoteFrontmatter :=
  let colonIndex := indexOf line [colon] in
  if (colonIndex =? -1)%Z then fm
  else
    let key := trim (slice line 0 colonIndex) in
    let value := trim (slice_from line (colonIndex + 1)) in
    assign_field fm key (unquote value).

Definition parseFrontmatter (content : jsstring)
  : NoteFrontmatter * jsstring :=
  match frontmatterRegex content with
  | None => (empty_frontmatter, content)
  | Some (frontmatterRaw, body) =>
      (fold_left parse_line (split LF frontmatterRaw) empty_frontmatter, body)
  end.

(* ================================================================= *)
(** ** Remote operations of the API client *)

Record NotePayload := {
  payload_path : path;
  payload_content : jsstring;
  payload_frontmatter : NoteFrontmatter
}.

(** Numbers that the plugin only passes on (similarity, [topK]); no
    arithmetic is done on them, and they are modelled as rationals. *)
Definition number := QArith_base.Q.

Record RetrievedInsight := {
  ri_path : path;
  ri_content : jsstring;
  ri_similarity : number;
  ri_frontmatter : NoteFrontmatter
}.

Inductive QuestionType := memory_invoke | conflict_detect | amplify.

Record ComparisonQuestion := {
  cq_type : QuestionType;
  cq_insight_reference : option path;
  cq_quote : option jsstring;
  cq_question : jsstring
}.

Record QueryRequest := {
  question_content : jsstring;
  top_k : number;
  min_similarity : number
}.

Record GenerateQuestionsRequest := {
  current_question : jsstring;
  retrieved_insights : list RetrievedInsight
}.

(** One constructor per request method of [ApiClient] that the plugin
    uses; a value of this type is one HTTP request sent to the server. *)
Inductive RemoteCall :=
| indexInsight (payload : NotePayload)
| deleteInsight (p : path)
| reindexInsights (vault_path : jsstring)
| queryInsights (request : QueryRequest)
| generateQuestions (request : GenerateQuestionsRequest)
| healthCheck.

(* ----------------------------------------------------------------- *)
(** *** The encoding of a path in a URL

    [ApiClient.deleteInsight] puts the path into the URL of its request
    with [encodeURIComponent], which throws for a string that is not
    well-formed UTF-16. *)

(** The characters that [encodeURIComponent] leaves as they are: letters,
    digits and [- _ . ! ~ * ' ( )]. *)
Definition uriUnreserved (c : code_unit) : bool :=
  ((65 <=? c) && (c <=? 90) || (97 <=? c) && (c <=? 122)
   || (48 <=? c) && (c <=? 57)
   || (c =? 45) || (c =? 95) || (c =? 46) || (c =? 33) || (c =? 126)
   || (c =? 42) || (c =? 39) || (c =? 40) || (c =? 41))%N.

Definition isLeadSurrogate (c : code_unit) : bool :=
  ((55296 <=? c) && (c <=? 56319))%N.

Definition isTrailSurrogate (c : code_unit) : bool :=
  ((56320 <=? c) && (c <=? 57343))%N.

(** The octets of the UTF-8 encoding of a code point. *)
Definition utf8 (cp : N) : list N :=
  (if cp <? 128 then [cp]
   else if cp <? 2048 then [192 + cp / 64; 128 + cp mod 64]
   else if cp <? 65536 then
     [224 + cp / 4096; 128 + (cp / 64) mod 64; 128 + cp mod 64]
   else
     [240 + cp / 262144; 128 + (cp / 4096) mod 64;
      128 + (cp / 64) mod 64; 128 + cp mod 64])%N.

Definition hexDigit (d : N) : code_unit :=
  (if d <? 10 then 48 + d else 55 + d)%N.

(** An octet as [%XX], in upper case. *)
Definition percent (octet : N) : jsstring :=
  [37%N; hexDigit (octet / 16); hexDigit (octet mod 16)].

Definition percent_all (octets : list N) : jsstring :=
  flat_map percent octets.

(** [encodeURIComponent(s)]; [None] is the [URIError] thrown for a
    surrogate that is not part of a pair. *)
Fixpoint encodeURIComponent (s : jsstring) : option jsstring :=
  match s with
  | [] => Some []
  | c :: s' =>
      if uriUnreserved c then option_map (cons c) (encodeURIComponent s')
      else if isLeadSurrogate c then
        match s' with
        | d :: s'' =>
            if isTrailSurrogate d then
              option_map
                (app (percent_all
                        (utf8 ((c - 55296) * 1024 + (d - 56320) + 65536)%N)))
                (encodeURIComponent s'')
            else None
        | [] => None
        end
      else if isTrailSurrogate c then None
      else option_map (app (percent_all (utf8 c))) (encodeURIComponent s')
  end.

(** The requests that [ApiClient.deleteInsight(path)] sends: the path is
    encoded before [fetch] is called, so when [encodeURIComponent] throws
    no request is sent, and the promise returned is rejected. *)
Definition delete_requests (p : path) : list RemoteCall :=
  match encodeURIComponent p with
  | Some _ => [deleteInsight p]
  | None => []
  end.

(* ================================================================= *)
(** ** The Insight sync service

    [InsightSyncService] is asynchronous: a call runs until it awaits the
    host ([vault.read]) or the server ([indexInsight], [deleteInsight]),
    and other callbacks run while it is suspended. The state below holds
    the fields of the class and, for the runtime, the suspended calls, the
    timer of the debounced function and the requests sent so far.

    [debounce] is a function of the host library, not of this repository:
    a call of [processSyncQueueDebounced] is modelled as arming a timer
    ([drainTimer]), and the callback [processSyncQueue] runs when the
    timer fires, at any later moment ([TimerFire]).

    [syncAllInsights] is left out: it reads the vault and sends its own
    upserts without reading or writing the queue and the flag, so [calls]
    holds the requests of the event handlers and of the passes. *)

(** The vault of the host: what [getAbstractFileByPath] finds at a path. *)
Definition Vault := path -> option FileKind.

Definition getAbstractFileByPath (v : Vault) (p : path)
  : option TAbstractFile :=
  match v p with
  | Some k => Some {| file_path := p; file_kind := k |}
  | None => None
  end.

(** A suspended asynchronous call of the service. *)
Inductive Task :=
| AwaitRead (p : path) (rest : list path)
    (* processSyncQueue, in syncInsight for [p], awaiting vault.read;
       [rest] are the paths of the snapshot after [p] *)
| AwaitIndex (p : path) (rest : list path)
    (* the same, awaiting apiClient.indexInsight *)
| AwaitDelete (then_queue : option path).
    (* onFileDelete or onFileRename awaiting apiClient.deleteInsight;
       afterwards the handler calls queueSync for [then_queue], if any *)

Record SyncState := {
  vault : Vault;
  syncQueue : list path;      (* Set<string>, in insertion order *)
  isSyncing : bool;
  drainTimer : bool;          (* processSyncQueueDebounced is armed *)
  tasks : list Task;          (* suspended calls *)
  calls : list RemoteCall;    (* requests sent, oldest first *)
  passes : list (list path)   (* history: the snapshot of every pass begun *)
}.

Definition init (v : Vault) : SyncState :=
  {| vault := v; syncQueue := []; isSyncing := false; drainTimer := false;
     tasks := []; calls := []; passes := [] |}.

Definition set_vault (s : SyncState) (v : Vault) : SyncState :=
  {| vault := v; syncQueue := syncQueue s; isSyncing := isSyncing s;
     drainTimer := drainTimer s; tasks := tasks s; calls := calls s;
     passes := passes s |}.

Definition set_syncQueue (s : SyncState) (q : list path) : SyncState :=
  {| vault := vault s; syncQueue := q; isSyncing := isSyncing s;
     drainTimer := drainTimer s; tasks := tasks s; calls := calls s;
     passes := passes s |}.

Definition set_isSyncing (s : SyncState) (b : bool) : SyncState :=
  {| vault := vault s; syncQueue := syncQueue s; isSyncing := b;
     drainTimer := drainTimer s; tasks := tasks s; calls := calls s;
     passes := passes s |}.

Definition set_drainTimer (s : SyncState) (b : bool) : SyncState :=
  {| vault := vault s; syncQueue := syncQueue s; isSyncing := isSyncing s;
     drainTimer := b; tasks := tasks s; calls := calls s;
     passes := passes s |}.

Definition set_tasks (s : SyncState) (ts : list Task) : SyncState :=
  {| vault := vault s; syncQueue := syncQueue s; isSyncing := isSyncing s;
     drainTimer := drainTimer s; tasks := ts; calls := calls s;
     passes := passes s |}.

Definition send (s : SyncState) (c : RemoteCall) : SyncState :=
  {| vault := vault s; syncQueue := syncQueue s; isSyncing := isSyncing s;
     drainTimer := drainTimer s; tasks := tasks s; calls := calls s ++ [c];
     passes := passes s |}.

Definition begin_pass (s : SyncState) (snapshot : list path) : SyncState :=
  {| vault := vault s; syncQueue := syncQueue s; isSyncing := isSyncing s;
     drainTimer := drainTimer s; tasks := tasks s; calls := calls s;
     passes := passes s ++ [snapshot] |}.

Definition suspend (s : SyncState) (t : Task) : SyncState :=
  set_tasks s (tasks s ++ [t]).

(** [Set.prototype.add] *)
Definition set_add (q : list path) (p : path) : list path :=
  if existsb (jseqb p) q then q else q ++ [p].

Definition processSyncQueueDebounced (s : SyncState) : SyncState :=
  set_drainTimer s true.

Definition queueSync (s : SyncState) (p : path) : SyncState :=
  processSyncQueueDebounced (set_syncQueue s (set_add (syncQueue s) p)).

(** The [for] loop of [processSyncQueue] from the path it has reached, up
    to its next suspension: [syncInsight] returns [false] at once for a
    file outside [Insights/], and sends [vault.read] otherwise. After the
    last path the flag is cleared and a further drain is requested when
    the queue is not empty. *)
Definition finish_pass (s : SyncState) : SyncState :=
  let s := set_isSyncing s false in
  if (0 <? length (syncQueue s))%nat then processSyncQueueDebounced s
  else s.

Fixpoint drain_loop (s : SyncState) (paths : list path) : SyncState :=
  match paths with
  | [] => finish_pass s
  | p :: rest =>
      match getAbstractFileByPath (vault s) p with
      | Some file =>
          if instanceof_TFile file then
            if isInsightNote file then suspend s (AwaitRead p rest)
            else drain_loop s rest
          else drain_loop s rest
      | None => drain_loop s rest
      end
  end.

Definition processSyncQueue (s : SyncState) : SyncState :=
  if isSyncing s || (length (syncQueue s) =? 0)%nat then s
  else
    let s := set_isSyncing s true in
    let paths := syncQueue s in
    let s := set_syncQueue s [] in
    drain_loop (begin_pass s paths) paths.

Definition send_all (s : SyncState) (cs : list RemoteCall) : SyncState :=
  {| vault := vault s; syncQueue := syncQueue s; isSyncing := isSyncing s;
     drainTimer := drainTimer s; tasks := tasks s; calls := calls s ++ cs;
     passes := passes s |}.

(** [deleteInsight(path)] up to its await: the request is sent, unless the
    path cannot be encoded. The handler then awaits the promise of
    [apiClient.deleteInsight], be it pending on the answer of the server
    or already rejected with the [URIError]; it treats an answer and a
    failure alike ([delete_settled] below). *)
Definition send_delete (s : SyncState) (p : path) (then_queue : option path)
  : SyncState :=
  suspend (send_all s (delete_requests p)) (AwaitDelete then_queue).

Definition onFileCreate (s : SyncState) (file : TAbstractFile) : SyncState :=
  if negb (instanceof_TFile file) || negb (isInsightNote file) then s
  else queueSync s (file_path file).

Definition onFileModify (s : SyncState) (file : TAbstractFile) : SyncState :=
  if negb (instanceof_TFile file) || negb (isInsightNote file) then s
  else queueSync s (file_path file).

Definition onFileDelete (s : SyncState) (file : TAbstractFile) : SyncState :=
  if negb (startsWith (file_path file) (lit "Insights/")) then s
  else send_delete s (file_path file) None.

Definition onFileRename (s : SyncState) (file : TAbstractFile)
  (oldPath : path) : SyncState :=
  let old_in := startsWith oldPath (lit "Insights/") in
  let new_in := startsWith (file_path file) (lit "Insights/") in
  if old_in && negb new_in then send_delete s oldPath None
  else if negb old_in && new_in then
    if instanceof_TFile file then queueSync s (file_path file) else s
  else if old_in && new_in then
    send_delete s oldPath
      (if instanceof_TFile file then Some (file_path file) else None)
  else s.

(** What happens to the service: a file event of the host, the timer of
    the debounced drain, the settlement of an awaited promise of the task
    at index [i] (with its result), and a change of the vault. *)
Inductive label :=
| FileCreate (file : TAbstractFile)
| FileModify (file : TAbstractFile)
| FileDelete (file : TAbstractFile)
| FileRename (file : TAbstractFile) (oldPath : path)
| TimerFire
| ReadSettled (i : nat) (result : option jsstring)   (* None: it threw *)
| IndexSettled (i : nat) (ok : bool)
| DeleteSettled (i : nat) (ok : bool)
| VaultChange (v : Vault).

Fixpoint remove_nth (i : nat) (ts : list Task) : list Task :=
  match ts, i with
  | [], _ => []
  | _ :: ts', O => ts'
  | t :: ts', S i' => t :: remove_nth i' ts'
  end.

Definition resume (s : SyncState) (i : nat) : SyncState :=
  set_tasks s (remove_nth i (tasks s)).

(** [syncInsight] after [vault.read]: the header is parsed and the upsert
    is sent; a failed read is rethrown to the [catch] of the loop, which
    puts the path back into the queue. *)
Definition read_settled (s : SyncState) (p : path) (rest : list path)
  (result : option jsstring) : SyncState :=
  match result with
  | Some content =>
      let parsed := parseFrontmatter content in
      let frontmatter := fst parsed in
      let body := snd parsed in
      suspend
        (send s (indexInsight {| payload_path := p; payload_content := body;
                                 payload_frontmatter := frontmatter |}))
        (AwaitIndex p rest)
  | None => drain_loop (set_syncQueue s (set_add (syncQueue s) p)) rest
  end.

Definition index_settled (s : SyncState) (p : path) (rest : list path)
  (ok : bool) : SyncState :=
  if ok then drain_loop s rest
  else drain_loop (set_syncQueue s (set_add (syncQueue s) p)) rest.

Definition delete_settled (s : SyncState) (then_queue : option path)
  : SyncState :=
  match then_queue with
  | Some p => queueSync s p
  | None => s
  end.

Definition step (s : SyncState) (l : label) : option SyncState :=
  match l with
  | FileCreate file => Some (onFileCreate s file)
  | FileModify file => Some (onFileModify s file)
  | FileDelete file => Some (onFileDelete s file)
  | FileRename file oldPath => Some (onFileRename s file oldPath)
  | TimerFire =>
      if drainTimer s then Some (processSyncQueue (set_drainTimer s false))
      else None
  | ReadSettled i result =>
      match nth_error (tasks s) i with
      | Some (AwaitRead p rest) => Some (read_settled (resume s i) p rest result)
      | _ => None
      end
  | IndexSettled i ok =>
      match nth_error (tasks s) i with
      | Some (AwaitIndex p rest) => Some (index_settled (resume s i) p rest ok)
      | _ => None
      end
  | DeleteSettled i ok =>
      match nth_error (tasks s) i with
      | Some (AwaitDelete then_queue) =>
          Some (delete_settled (resume s i) then_queue)
      | _ => None
      end
  | VaultChange v => Some (set_vault s v)
  end.

Fixpoint exec (s : SyncState) (ls : list label) : option SyncState :=
  match ls with
  | [] => Some s
  | l :: ls' =>
      match step s l with
      | Some s' => exec s' ls'
      | None => None
      end
  end.

Definition reachable (s : SyncState) : Prop :=
  exists v ls, exec (init v) ls = Some s.

(** A run in which every step is taken while a pass is in progress. *)
Fixpoint exec_pass (s : SyncState) (ls : list label) : option SyncState :=
  match ls with
  | [] => Some s
  | l :: ls' =>
      if isSyncing s then
        match step s l with
        | Some s' => exec_pass s' ls'
        | None => None
        end
      else None
  end.


(* ================================================================= *)
(** ** The result panel and the settings *)

(** The result state of [InsightPanelView]; [render] draws the panel from
    these four fields and keeps no state of its own. *)
Record InsightPanelView := {
  currentQuestion : option jsstring;
  insights : list RetrievedInsight;
  questions : list ComparisonQuestion;
  isLoading : bool
}.

Definition new_InsightPanelView : InsightPanelView :=
  {| currentQuestion := None; insights := []; questions := [];
     isLoading := false |}.

Definition setLoading (loading : bool) (v : InsightPanelView)
  : InsightPanelView :=
  {| currentQuestion := currentQuestion v; insights := insights v;
     questions := questions v; isLoading := loading |}.

Definition updateResults (question : jsstring)
  (ins : list RetrievedInsight) (qs : list ComparisonQuestion)
  (v : InsightPanelView) : InsightPanelView :=
  {| currentQuestion := Some question; insights := ins; questions := qs;
     isLoading := false |}.

Definition clearResults (v : InsightPanelView) : InsightPanelView :=
  {| currentQuestion := None; insights := []; questions := [];
     isLoading := false |}.

Record AuroraOntologySettings := {
  serverUrl : jsstring;
  topK : number;
  minSimilarity : number;
  autoQuery : bool;
  autoSync : bool;
  showSimilarityScores : bool
}.

Definition DEFAULT_SETTINGS : AuroraOntologySettings :=
  {| serverUrl := lit "http://127.0.0.1:8742";
     topK := QArith_base.Qmake 5 1;
     minSimilarity := QArith_base.Qmake 3 10;
     autoQuery := true; autoSync := true; showSimilarityScores := true |}.

(** The object that [loadData] returns: any of the settings may be
    missing. *)
Record SavedData := {
  saved_serverUrl : option jsstring;
  saved_topK : option number;
  saved_minSimilarity : option number;
  saved_autoQuery : option bool;
  saved_autoSync : option bool;
  saved_showSimilarityScores : option bool
}.

Definition or_default {A : Type} (o : option A) (d : A) : A :=
  match o with Some x => x | None => d end.

(** [Object.assign({}, DEFAULT_SETTINGS, await this.loadData())] *)
Definition loadSettings (data : option SavedData) : AuroraOntologySettings :=
  match data with
  | None => DEFAULT_SETTINGS
  | Some d =>
      {| serverUrl := or_default (saved_serverUrl d) (serverUrl DEFAULT_SETTINGS);
         topK := or_default (saved_topK d) (topK DEFAULT_SETTINGS);
         minSimilarity :=
           or_default (saved_minSimilarity d) (minSimilarity DEFAULT_SETTINGS);
         autoQuery := or_default (saved_autoQuery d) (autoQuery DEFAULT_SETTINGS);
         autoSync := or_default (saved_autoSync d) (autoSync DEFAULT_SETTINGS);
         showSimilarityScores :=
           or_default (saved_showSimilarityScores d)
             (showSimilarityScores DEFAULT_SETTINGS) |}
  end.

(* ================================================================= *)
(** ** The plugin

    A callback of the plugin is modelled as running to its end with the
    answers that the host and the server give to its awaited calls; two
    queries in flight at once, whose results race for the panel, are not
    modelled. *)

(** The events that the host fires, and the callbacks that [onload]
    registers for them. *)
Inductive EventName :=
| file_open          (* workspace *)
| vault_create | vault_modify | vault_delete | vault_rename.

Inductive Handler :=
| AutoQueryOnFileOpen
| AutoQueryOnModify.

Inductive Command := open_insight_panel | query_related_insights
                   | reindex_insights.

(** What [new Notice(...)] shows. *)
Inductive Notice :=
| NoticeQueryFailed (error : jsstring)        (* Query failed: ${error} *)
| NoticeReindexStart                          (* Starting re-index... *)
| NoticeReindexDone (indexed errors : number) (* Indexed n Insights. m errors. *)
| NoticeReindexRefused       (* Re-index failed. Check server connection. *)
| NoticeReindexFailed (error : jsstring)      (* Re-index failed: ${error} *)
| NoticeConnected (indexed : number)
| NoticeConnectionFailed (error : jsstring).

Record Plugin := {
  settings : AuroraOntologySettings;
  insightPanel : option InsightPanelView;
  eventRefs : list (EventName * Handler);   (* registerEvent *)
  commands : list Command;                  (* addCommand *)
  queryTimer : bool;                        (* debouncedQuery is armed *)
  notices : list Notice;
  console : list jsstring;                  (* console.error *)
  requests : list RemoteCall                (* sent through apiClient *)
}.

(** A thrown value, as [${error}] prints it. *)
Definition Exn := jsstring.

(** What the host and the server answer while a callback runs. *)
Record Host := {
  activeFile : option TAbstractFile;        (* workspace.getActiveFile() *)
  panel_leaves : nat;                       (* getLeavesOfType(...).length *)
  right_leaf : bool;                        (* getRightLeaf(false) != null *)
  base_path : jsstring;                     (* vault.adapter.basePath *)
  host_read : path -> jsstring + Exn;       (* vault.read *)
  server_query : QueryRequest -> list RetrievedInsight + Exn;
  server_generate :
    GenerateQuestionsRequest -> list ComparisonQuestion + Exn;
  server_reindex : jsstring -> (bool * number * number) + Exn;
  server_health : number + Exn
}.

(** Callbacks change the plugin and may throw. *)
Definition M (A : Type) : Type := Plugin -> Plugin * (A + Exn).

Definition ret {A : Type} (a : A) : M A := fun pl => (pl, inl a).

Definition bind {A B : Type} (m : M A) (k : A -> M B) : M B :=
  fun pl =>
    match m pl with
    | (pl', inl a) => k a pl'
    | (pl', inr e) => (pl', inr e)
    end.

Definition try_catch {A : Type} (m : M A) (handler : Exn -> M A) : M A :=
  fun pl =>
    match m pl with
    | (pl', inl a) => (pl', inl a)
    | (pl', inr e) => handler e pl'
    end.

Notation "x <- m ;; k" := (bind m (fun x => k))
  (at level 61, m at next level, right associativity).
Notation "m ;;; k" := (bind m (fun _ => k))
  (at level 61, right associativity).

(** [await] of a promise that settles with [r]. *)
Definition await {A : Type} (r : A + Exn) : M A := fun pl => (pl, r).

Definition set_panel (pl : Plugin) (v : option InsightPanelView) : Plugin :=
  {| settings := settings pl; insightPanel := v; eventRefs := eventRefs pl;
     commands := commands pl; queryTimer := queryTimer pl;
     notices := notices pl; console := console pl;
     requests := requests pl |}.

Definition set_queryTimer (pl : Plugin) (b : bool) : Plugin :=
  {| settings := settings pl; insightPanel := insightPanel pl;
     eventRefs := eventRefs pl; commands := commands pl; queryTimer := b;
     notices := notices pl; console := console pl;
     requests := requests pl |}.

(** A method of [this.insightPanel]. *)
Definition on_panel (f : InsightPanelView -> InsightPanelView) : M unit :=
  fun pl =>
    match insightPanel pl with
    | Some v => (set_panel pl (Some (f v)), inl tt)
    | None => (pl, inr (lit "TypeError"))
    end.

Definition notice (n : Notice) : M unit :=
  fun pl =>
    ({| settings := settings pl; insightPanel := insightPanel pl;
        eventRefs := eventRefs pl; commands := commands pl;
        queryTimer := queryTimer pl; notices := notices pl ++ [n];
        console := console pl; requests := requests pl |}, inl tt).

Definition console_error (text : jsstring) : M unit :=
  fun pl =>
    ({| settings := settings pl; insightPanel := insightPanel pl;
        eventRefs := eventRefs pl; commands := commands pl;
        queryTimer := queryTimer pl; notices := notices pl;
        console := console pl ++ [text]; requests := requests pl |}, inl tt).

(** A request through [apiClient], awaited; [answer] is what comes back. *)
Definition request {A : Type} (c : RemoteCall) (answer : A + Exn) : M A :=
  fun pl =>
    ({| settings := settings pl; insightPanel := insightPanel pl;
        eventRefs := eventRefs pl; commands := commands pl;
        queryTimer := queryTimer pl; notices := notices pl;
        console := console pl; requests := requests pl ++ [c] |}, answer).

Definition fallback_question : ComparisonQuestion :=
  {| cq_type := amplify; cq_insight_reference := None; cq_quote := None;
     cq_question :=
       lit "No related Insights found. What new understanding are you seeking with this question?" |}.

Definition query_request (pl : Plugin) (body : jsstring) : QueryRequest :=
  {| question_content := body; top_k := topK (settings pl);
     min_similarity := minSimilarity (settings pl) |}.

Definition doQuery (h : Host) (file : TAbstractFile) : M unit :=
  fun pl =>
    match insightPanel pl with
    | None => (pl, inl tt)
    | Some _ =>
        (on_panel (setLoading true) ;;;
         try_catch
           (content <- await (host_read h (file_path file)) ;;
            let body := snd (parseFrontmatter content) in
            queryResult <-
              request (queryInsights (query_request pl body))
                (server_query h (query_request pl body)) ;;
            if (length queryResult =? 0)%nat then
              on_panel (updateResults body [] [fallback_question])
            else
              let generate :=
                {| current_question := body;
                   retrieved_insights := queryResult |} in
              questionsResult <-
                request (generateQuestions generate)
                  (server_generate h generate) ;;
              on_panel (updateResults body queryResult questionsResult))
           (fun error =>
              console_error (lit "Query failed:") ;;;
              notice (NoticeQueryFailed error) ;;;
              on_panel clearResults)) pl
    end.

(** The view factory given to [registerView]. *)
Definition create_view (pl : Plugin) : Plugin :=
  set_panel pl (Some new_InsightPanelView).

Definition activatePanel (h : Host) (auto : bool) : M unit :=
  fun pl =>
    let pl :=
      if (0 <? panel_leaves h)%nat then pl
      else if right_leaf h then create_view pl else pl in
    if auto then
      match activeFile h with
      | Some file => if isQuestionNote file then doQuery h file pl
                     else (pl, inl tt)
      | None => (pl, inl tt)
      end
    else (pl, inl tt).

Definition queryForCurrentNote (h : Host) : M unit :=
  fun pl =>
    match activeFile h with
    | Some file =>
        if isQuestionNote file then
          (activatePanel h false ;;; doQuery h file) pl
        else (pl, inl tt)
    | None => (pl, inl tt)
    end.

Definition debouncedQuery (pl : Plugin) : Plugin := set_queryTimer pl true.

Definition reindexInsights_command (h : Host) : M unit :=
  notice NoticeReindexStart ;;;
  try_catch
    (result <- request (reindexInsights (base_path h))
                 (server_reindex h (base_path h)) ;;
     let '(success, indexed, errors) := result in
     if success then notice (NoticeReindexDone indexed errors)
     else notice NoticeReindexRefused)
    (fun error =>
       console_error (lit "Re-index failed:") ;;;
       notice (NoticeReindexFailed error)).

Definition onload (data : option SavedData) : Plugin :=
  {| settings := loadSettings data;
     insightPanel := None;
     eventRefs := [(file_open, AutoQueryOnFileOpen);
                   (vault_modify, AutoQueryOnModify)];
     commands := [open_insight_panel; query_related_insights;
                  reindex_insights];
     queryTimer := false; notices := []; console := []; requests := [] |}.

Definition EventName_eqb (a b : EventName) : bool :=
  match a, b with
  | file_open, file_open | vault_create, vault_create
  | vault_modify, vault_modify | vault_delete, vault_delete
  | vault_rename, vault_rename => true
  | _, _ => false
  end.

Definition Command_eqb (a b : Command) : bool :=
  match a, b with
  | open_insight_panel, open_insight_panel
  | query_related_insights, query_related_insights
  | reindex_insights, reindex_insights => true
  | _, _ => false
  end.

(** The bodies of the two registered callbacks. *)
Definition run_handler (hd : Handler) (h : Host)
  (file : option TAbstractFile) (pl : Plugin) : Plugin :=
  match hd, file with
  | AutoQueryOnFileOpen, Some f =>
      if autoQuery (settings pl) && isQuestionNote f then debouncedQuery pl
      else pl
  | AutoQueryOnModify, Some f =>
      if instanceof_TFile f && autoQuery (settings pl) && isQuestionNote f
         && match activeFile h with
            | Some a => jseqb (file_path a) (file_path f)
            | None => false
            end
      then debouncedQuery pl
      else pl
  | _, None => pl
  end.

(** The host fires an event: the callbacks registered for it run. *)
Definition trigger (name : EventName) (h : Host)
  (file : option TAbstractFile) (pl : Plugin) : Plugin :=
  fold_left
    (fun acc ref =>
       if EventName_eqb (fst ref) name then run_handler (snd ref) h file acc
       else acc)
    (eventRefs pl) pl.

Definition run_command (c : Command) (h : Host) : M unit :=
  match c with
  | open_insight_panel => activatePanel h true
  | query_related_insights => queryForCurrentNote h
  | reindex_insights => reindexInsights_command h
  end.

(** The two buttons of the settings tab that reach the server. The plugin
    class has no member [syncService], so the test [if
    (this.plugin.syncService)] of the button [Sync Now] fails. *)
Definition test_connection (h : Host) : M unit :=
  try_catch
    (health <- request healthCheck (server_health h) ;;
     notice (NoticeConnected health))
    (fun error => notice (NoticeConnectionFailed error)).

Definition sync_now (h : Host) : M unit := ret tt.

(** What happens to the plugin after [onload]. *)
Inductive plugin_label :=
| HostEvent (name : EventName) (file : option TAbstractFile)
| QueryTimerFire          (* the debounced query runs *)
| RunCommand (c : Command)
| ViewCreated             (* the host builds the registered view *)
| TestConnection
| SyncNow.

Definition plugin_step (h : Host) (pl : Plugin) (l : plugin_label)
  : Plugin :=
  match l with
  | HostEvent name file => trigger name h file pl
  | QueryTimerFire =>
      if queryTimer pl
      then fst (queryForCurrentNote h (set_queryTimer pl false))
      else pl
  | RunCommand c =>
      if existsb (Command_eqb c) (commands pl)
      then fst (run_command c h pl) else pl
  | ViewCreated => create_view pl
  | TestConnection => fst (test_connection h pl)
  | SyncNow => fst (sync_now h pl)
  end.

(** A run of the plugin; each step comes with the answers of the host
    and of the server at that moment. *)
Fixpoint plugin_exec (pl : Plugin) (ls : list (Host * plugin_label))
  : Plugin :=
  match ls with
  | [] => pl
  | (h, l) :: ls' => plugin_exec (plugin_step h pl l) ls'
  end.

(* ================================================================= *)
(** ** Notions used to state the properties of the parser *)

(** [ls.join(sep)] *)
Fixpoint join (sep : code_unit) (ls : list jsstring) : jsstring :=
  match ls with
  | [] => []
  | [l] => l
  | l :: ls' => l ++ sep :: join sep ls'
  end.

(** A text has a header when it opens with [---\n] and a closing [\n---]
    follows somewhere. *)
Definition has_header (content : jsstring) : Prop :=
  exists h tail, content = fm_open ++ h ++ fm_close ++ tail.

(** The fields that the interface [NoteFrontmatter] declares. *)
Inductive Field :=
| F_type | F_created | F_status | F_triggered_by | F_confidence
| F_evolved_from
| F_related_insights | F_related_questions | F_source_questions | F_tags.

Definition field_key (f : Field) : jsstring :=
  match f with
  | F_type => lit "type"
  | F_created => lit "created"
  | F_status => lit "status"
  | F_triggered_by => lit "triggered_by"
  | F_confidence => lit "confidence"
  | F_evolved_from => lit "evolved_from"
  | F_related_insights => lit "related_insights"
  | F_related_questions => lit "related_questions"
  | F_source_questions => lit "source_questions"
  | F_tags => lit "tags"
  end.

Definition is_some {A : Type} (o : option A) : bool :=
  match o with Some _ => true | None => false end.

(** Whether a field is present in a typed result. *)
Definition field_set (fm : NoteFrontmatter) (f : Field) : bool :=
  match f with
  | F_type => is_some (type fm)
  | F_created => is_some (created fm)
  | F_status => is_some (status fm)
  | F_triggered_by => is_some (triggered_by fm)
  | F_confidence => is_some (confidence fm)
  | F_evolved_from => is_some (evolved_from fm)
  | F_related_insights => is_some (related_insights fm)
  | F_related_questions => is_some (related_questions fm)
  | F_source_questions => is_some (source_questions fm)
  | F_tags => is_some (tags fm)
  end.

(** The value of a string-valued field. *)
Definition scalar_value (fm : NoteFrontmatter) (f : Field)
  : option jsstring :=
  match f with
  | F_type => type fm
  | F_created => created fm
  | F_status => status fm
  | F_triggered_by => triggered_by fm
  | F_confidence => confidence fm
  | F_evolved_from => evolved_from fm
  | _ => None
  end.

Definition scalar_fields : list Field :=
  [F_type; F_created; F_status; F_triggered_by; F_confidence; F_evolved_from].

Definition list_fields : list Field :=
  [F_related_insights; F_related_questions; F_source_questions; F_tags].

(** The fields that section 3 of the specification calls recognized. *)
Definition declared_fields : list Field := scalar_fields ++ list_fields.

Definition all_ws (s : jsstring) : Prop :=
  Forall (fun c => isWhiteSpace c = true) s.

(** A header line [key: value], with white space allowed around the key. *)
Definition line_has_key (line key : jsstring) : Prop :=
  exists pre post v,
    all_ws pre /\ all_ws post /\ line = pre ++ key ++ post ++ colon :: v.

(** The lines of a well-formed header: at least one line, no line feed
    inside a line, and no line after the first opens with [---] (it would
    close the header). *)
Definition header_lines (lines : list jsstring) : Prop :=
  lines <> [] /\
  Forall (fun l => ~ In LF l) lines /\
  Forall (fun l => startsWith l (lit "---") = false) (tl lines).

(** A note with header lines [lines]; [tail] follows the closing [\n---]. *)
Definition note_text (lines : list jsstring) (tail : jsstring) : jsstring :=
  fm_open ++ join LF lines ++ fm_close ++ tail.

(** The text after the closing delimiter, whose line feed is optional. *)
Definition after_delimiter (tail : jsstring) : jsstring :=
  match tail with
  | c :: tail' => if N.eqb c LF then tail' else tail
  | [] => []
  end.

(** The fields [fs] are recovered: each is set in the result exactly when
    a header line carries its key. *)
Definition recovers (fs : list Field) (lines : list jsstring)
  (fm : NoteFrontmatter) : Prop :=
  forall f, In f fs ->
    (field_set fm f = true <->
     exists line, In line lines /\ line_has_key line (field_key f)).

(** A key that [trim] leaves as it is and that holds no colon. *)
Definition good_key (k : jsstring) : bool :=
  negb (existsb (N.eqb colon) k)
  && match k with c :: _ => negb (isWhiteSpace c) | [] => false end
  && match rev k with c :: _ => negb (isWhiteSpace c) | [] => false end.

(** The key and the value that the loop of the parser computes for a
    line. *)
Definition line_key (line : jsstring) : option jsstring :=
  let colonIndex := indexOf line [colon] in
  if (colonIndex =? -1)%Z then None
  else Some (trim (slice line 0 colonIndex)).

Definition line_value (line : jsstring) : jsstring :=
  unquote (trim (slice_from line (indexOf line [colon] + 1))).

(** A test for [header_lines]. *)
Definition header_linesb (lines : list jsstring) : bool :=
  negb (length lines =? 0)%nat
  && forallb (fun l => negb (existsb (N.eqb LF) l)) lines
  && forallb (fun l => negb (startsWith l (lit "---"))) (tl lines).

(* ================================================================= *)
(** ** Notions used to state the properties of the sync service *)

(** A path of the folder that is synchronized. *)
Definition insight_path (p : path) : Prop :=
  startsWith p (lit "Insights/") = true.

(** The suspended calls that are drain passes. *)
Definition is_drain (t : Task) : bool :=
  match t with
  | AwaitRead _ _ | AwaitIndex _ _ => true
  | AwaitDelete _ => false
  end.

Definition drains (ts : list Task) : list Task := filter is_drain ts.

(** The part of its snapshot that a suspended pass has not finished: the
    path it is at, and the paths after it. *)
Definition worklist (t : Task) : list path :=
  match t with
  | AwaitRead p rest | AwaitIndex p rest => p :: rest
  | AwaitDelete _ => []
  end.

(** The paths for which a suspended pass has not yet sent its upsert. *)
Definition unsent (t : Task) : list path :=
  match t with
  | AwaitRead p rest => p :: rest
  | AwaitIndex _ rest => rest
  | AwaitDelete _ => []
  end.

(** Whether the loop of a pass calls [vault.read] for a path: the path is
    a file of the vault, in [Insights/]. *)
Definition resolves (s : SyncState) (p : path) : bool :=
  match getAbstractFileByPath (vault s) p with
  | Some file => instanceof_TFile file && isInsightNote file
  | None => false
  end.

(** The number of upsert requests for a path among the requests sent. *)
Definition is_upsert_for (P : path) (c : RemoteCall) : bool :=
  match c with
  | indexInsight payload => jseqb (payload_path payload) P
  | _ => false
  end.

Definition upserts_for (P : path) (cs : list RemoteCall) : nat :=
  length (filter (is_upsert_for P) cs).

(** A step that begins a pass. *)
Definition begins_pass (s : SyncState) (l : label) : bool :=
  match l with
  | TimerFire =>
      negb (isSyncing s) && negb (length (syncQueue s) =? 0)%nat
  | _ => false
  end.

(** A run in which no pass begins. *)
Fixpoint exec_quiet (s : SyncState) (ls : list label) : option SyncState :=
  match ls with
  | [] => Some s
  | l :: ls' =>
      if begins_pass s l then None
      else match step s l with
           | Some s' => exec_quiet s' ls'
           | None => None
           end
  end.

(** During a run, the note at [P] stays a file of the vault and reading it
    does not fail. *)
Definition label_keeps (P : path) (s : SyncState) (l : label) : Prop :=
  match l with
  | VaultChange v => v P = Some KFile
  | ReadSettled i None =>
      forall rest, nth_error (tasks s) i <> Some (AwaitRead P rest)
  | _ => True
  end.

Fixpoint note_kept (P : path) (s : SyncState) (ls : list label) : Prop :=
  match ls with
  | [] => True
  | l :: ls' =>
      label_keeps P s l /\
      match step s l with
      | Some s' => note_kept P s' ls'
      | None => True
      end
  end.

(** A vault that holds files at the given paths and nothing else. *)
Definition vault_of (files : list path) : Vault :=
  fun p => if existsb (jseqb p) files then Some KFile else None.

(** The invariant of the service. When a pass is in progress, it is the
    only one, and what it still has to do is the end of the snapshot
    recorded last. *)
Record Inv (s : SyncState) : Prop := {
  inv_nodup : NoDup (syncQueue s);
  inv_insights : Forall insight_path (syncQueue s);
  inv_requeue :
    forall p, In (AwaitDelete (Some p)) (tasks s) -> insight_path p;
  inv_idle : isSyncing s = false -> drains (tasks s) = [];
  inv_busy :
    isSyncing s = true ->
    exists t done,
      drains (tasks s) = [t] /\
      NoDup (last (passes s) []) /\
      Forall insight_path (last (passes s) []) /\
      last (passes s) [] = done ++ worklist t;
  inv_timer :
    isSyncing s = false -> syncQueue s <> [] -> drainTimer s = true
}.

(** A step that leaves the pass in progress, if any, as it is: the same
    flag, the same suspended pass, no new snapshot, no path taken out of
    the pending set and no upsert request. *)
Definition untouched (s s' : SyncState) : Prop :=
  isSyncing s' = isSyncing s /\
  drains (tasks s') = drains (tasks s) /\
  passes s' = passes s /\
  incl (syncQueue s) (syncQueue s') /\
  (forall payload, In (indexInsight payload) (calls s') ->
                   In (indexInsight payload) (calls s)) /\
  (forall P, upserts_for P (calls s') = upserts_for P (calls s)).

(** Where the pass in progress stands with the note at [P], which stays a
    file of the vault: either the upsert for [P] is still to be sent and
    [c0] upserts for [P] were sent, or it is no longer to be sent and
    there is one more. *)
Definition pass_progress (P : path) (c0 : nat) (s : SyncState) : Prop :=
  vault s P = Some KFile /\
  if isSyncing s then
    exists t, drains (tasks s) = [t] /\
              ((In P (unsent t) /\ upserts_for P (calls s) = c0) \/
               (~ In P (unsent t) /\ upserts_for P (calls s) = S c0))
  else upserts_for P (calls s) = S c0.

(** C2 as the specification words it: a path added to the pending set
    while a pass is running is not processed by that pass, that is, the
    pass sends no upsert for it afterwards. *)
Definition added_path_skipped_by_pass : Prop :=
  forall (s s1 s2 : SyncState) (l : label) (ls : list label) (P : path)
         (payload : NotePayload),
    reachable s ->
    isSyncing s = true ->
    ~ In P (syncQueue s) ->
    step s l = Some s1 ->
    In P (syncQueue s1) ->
    exec_pass s1 ls = Some s2 ->
    payload_path payload = P ->
    In (indexInsight payload) (calls s2) ->
    In (indexInsight payload) (calls s1).

(** Two notes and the state that a run leaves, for the examples. *)
Definition note_a : path := lit "Insights/a.md".
Definition note_b : path := lit "Insights/b.md".

Definition state_after (v : Vault) (ls : list label) : SyncState :=
  match exec (init v) ls with
  | Some s => s
  | None => init v
  end.

(** No upsert request among the requests sent. *)
Definition no_upsert (cs : list RemoteCall) : Prop :=
  forall payload, ~ In (indexInsight payload) cs.

(** The upsert that a suspended pass awaits was sent: among the requests
    there is one for the path at which the pass is. *)
Definition awaited_sent (s : SyncState) : Prop :=
  forall p rest,
    In (AwaitIndex p rest) (tasks s) -> (1 <= upserts_for p (calls s))%nat.

(* ================================================================= *)
(** ** Further code of the repository

    The definitions below embed the functions that the properties of the
    last part of this file are about: the second classifier of
    [types/entities.ts], the full resynchronization of the sync service,
    the URLs of [services/api-client.ts], the rendering of the result
    panel and the creation of a note in [ui/question-modal.ts]. *)

(** [determineNoteType] of [types/entities.ts], on a path. *)
Definition determineNoteType (p : path) : option NoteType :=
  if startsWith p (lit "Thoughts/") then Some thought
  else if startsWith p (lit "Questions/") then Some question
  else if startsWith p (lit "Insights/") then Some insight
  else None.

(* ----------------------------------------------------------------- *)
(** *** [syncInsight] and [syncAllInsights] *)

(** What the host and the server answer to a synchronization that runs to
    its end: the result of [vault.read] for a path and of the upsert of a
    payload. *)
Record SyncEnv := {
  env_read : path -> jsstring + Exn;
  env_index : NotePayload -> unit + Exn
}.

(** [syncInsight(file)] run to its end: the requests it sends, and the
    boolean it returns or the error it rethrows. *)
Definition syncInsight (env : SyncEnv) (file : TAbstractFile)
  : list RemoteCall * (bool + Exn) :=
  if negb (isInsightNote file) then ([], inl false)
  else
    match env_read env (file_path file) with
    | inr error => ([], inr error)
    | inl content =>
        let parsed := parseFrontmatter content in
        let payload :=
          {| payload_path := file_path file;
             payload_content := snd parsed;
             payload_frontmatter := fst parsed |} in
        match env_index env payload with
        | inl _ => ([indexInsight payload], inl true)
        | inr error => ([indexInsight payload], inr error)
        end
    end.

Record SyncStats := {
  indexed : nat;
  deleted : nat;
  errors : list jsstring
}.

(** The notices of [syncAllInsights]. *)
Inductive SyncNotice :=
| NoticeSyncing                              (* Syncing Insights to server... *)
| NoticeSyncedWithErrors (n m : nat)         (* Synced n Insights. m errors. *)
| NoticeSynced (n : nat).                    (* Synced n Insights successfully. *)

(** The loop of [syncAllInsights] over the Insight files, with the
    statistics and the requests so far. *)
Fixpoint resync_loop (env : SyncEnv) (files : list TAbstractFile)
  (stats : SyncStats) (sent : list RemoteCall)
  : SyncStats * list RemoteCall :=
  match files with
  | [] => (stats, sent)
  | file :: rest =>
      match syncInsight env file with
      | (cs, inl _) =>
          resync_loop env rest
            {| indexed := S (indexed stats); deleted := deleted stats;
               errors := errors stats |}
            (sent ++ cs)
      | (cs, inr error) =>
          resync_loop env rest
            {| indexed := indexed stats; deleted := deleted stats;
               errors := errors stats
                         ++ [file_path file ++ lit ": " ++ error] |}
            (sent ++ cs)
      end
  end.

(** [syncAllInsights(showNotice)], where [files] is [vault.getFiles()]:
    the statistics returned, the requests sent and the notices shown. *)
Definition syncAllInsights (env : SyncEnv) (files : list TAbstractFile)
  (showNotice : bool) : SyncStats * list RemoteCall * list SyncNotice :=
  let insightFiles := filter isInsightNote files in
  let '(stats, sent) :=
    resync_loop env insightFiles
      {| indexed := 0; deleted := 0; errors := [] |} [] in
  let notices :=
    if showNotice then
      [NoticeSyncing;
       if (0 <? length (errors stats))%nat
       then NoticeSyncedWithErrors (indexed stats) (length (errors stats))
       else NoticeSynced (indexed stats)]
    else [] in
  (stats, sent, notices).

(* ----------------------------------------------------------------- *)
(** *** The URLs of the API client *)

Definition slash : code_unit := 47%N.

(** [serverUrl.replace(/\/$/, '')]: a slash at the end is removed. *)
Definition strip_trailing_slash (s : jsstring) : jsstring :=
  match rev s with
  | c :: r => if N.eqb c slash then rev r else s
  | [] => s
  end.

(** The field [baseUrl] that the constructor and [updateServerUrl] set. *)
Definition baseUrl (serverUrl : jsstring) : jsstring :=
  strip_trailing_slash serverUrl ++ lit "/api/v1".

(** The URL that [deleteInsight(path)] requests with the method DELETE. *)
Definition deleteInsight_url (base : jsstring) (p : path) : option jsstring :=
  option_map (fun encodedPath => base ++ lit "/insights/" ++ encodedPath)
    (encodeURIComponent p).

(* ----------------------------------------------------------------- *)
(** *** The rendering of the result panel *)

(** What a click on an element does. *)
Inductive Action :=
| OpenInsight (p : path)
| CopyQuestion (text : jsstring).

(** An element of the panel: tag, class, text, click listener and
    children. *)
Unset Elimination Schemes.
Inductive Node :=
| El (tag cls text : jsstring) (onclick : option Action)
     (children : list Node).
Set Elimination Schemes.

(** [s.replace(pat, '')] for a string [pat]: the first occurrence goes. *)
Fixpoint remove_first (pat s : jsstring) : jsstring :=
  if startsWith s pat then skipn (length pat) s
  else match s with
       | [] => []
       | c :: s' => c :: remove_first pat s'
       end.

(** The text of the link of an insight. *)
Definition insight_link_text (p : path) : jsstring :=
  remove_first (lit ".md") (remove_first (lit "Insights/") p).

(** The preview of an insight: 200 code units, and an ellipsis when the
    content is longer. *)
Definition previewText (content : jsstring) : jsstring :=
  slice content 0 200
  ++ (if (200 <? Z.of_nat (length content))%Z then lit "..." else []).

(** [formatQuestionType] of the panel. *)
Definition formatQuestionType (t : QuestionType) : jsstring :=
  match t with
  | memory_invoke => lit "Memory"
  | conflict_detect => lit "Tension"
  | amplify => lit "Explore"
  end.

(** The string of a question type, as the server sends it. *)
Definition QuestionType_string (t : QuestionType) : jsstring :=
  match t with
  | memory_invoke => lit "memory_invoke"
  | conflict_detect => lit "conflict_detect"
  | amplify => lit "amplify"
  end.

Fixpoint uint_digits (u : Decimal.uint) : jsstring :=
  match u with
  | Decimal.Nil => []
  | Decimal.D0 u' => 48%N :: uint_digits u'
  | Decimal.D1 u' => 49%N :: uint_digits u'
  | Decimal.D2 u' => 50%N :: uint_digits u'
  | Decimal.D3 u' => 51%N :: uint_digits u'
  | Decimal.D4 u' => 52%N :: uint_digits u'
  | Decimal.D5 u' => 53%N :: uint_digits u'
  | Decimal.D6 u' => 54%N :: uint_digits u'
  | Decimal.D7 u' => 55%N :: uint_digits u'
  | Decimal.D8 u' => 56%N :: uint_digits u'
  | Decimal.D9 u' => 57%N :: uint_digits u'
  end.

(** A length in a template literal. *)
Definition decimal (n : nat) : jsstring := uint_digits (Nat.to_uint n).

(** A string or an optional string as a condition: absent and empty are
    false. *)
Definition truthy (o : option jsstring) : bool :=
  match o with
  | Some (_ :: _) => true
  | _ => false
  end.

Definition renderLoading : Node :=
  El (lit "div") (lit "aurora-loading") [] None
    [El (lit "div") (lit "aurora-spinner") [] None [];
     El (lit "p") [] (lit "Searching for related Insights...") None []].

Definition renderEmpty : Node :=
  El (lit "div") (lit "aurora-empty") [] None
    [El (lit "p") [] (lit "Open a Question note to see related Insights.")
        None [];
     El (lit "p") (lit "aurora-hint")
        (lit "Question notes should be in the Questions/ folder.") None []].

(** The rendering depends on the setting [showSimilarityScores] and on
    [score], the text of [Math.round(similarity * 100)] followed by a
    percent sign, a floating-point computation that is left as a
    parameter. *)
Definition renderInsightItem (showScores : bool) (score : number -> jsstring)
  (i : RetrievedInsight) : Node :=
  El (lit "div") (lit "aurora-insight-item") [] None
    [El (lit "div") (lit "aurora-insight-header") [] None
        (El (lit "a") (lit "aurora-insight-path")
            (insight_link_text (ri_path i)) (Some (OpenInsight (ri_path i)))
            []
         :: (if showScores
             then [El (lit "span") (lit "aurora-similarity")
                      (score (ri_similarity i)) None []]
             else []));
     El (lit "div") (lit "aurora-insight-preview")
        (previewText (ri_content i)) None []].

Definition renderInsights (showScores : bool) (score : number -> jsstring)
  (v : InsightPanelView) : Node :=
  El (lit "div") (lit "aurora-section") [] None
    (El (lit "h5") []
        (lit "Related Insights (" ++ decimal (length (insights v)) ++ lit ")")
        None []
     :: (if (length (insights v) =? 0)%nat
         then [El (lit "p") (lit "aurora-no-results")
                  (lit "No related Insights found.") None []]
         else [El (lit "div") (lit "aurora-insight-list") [] None
                  (map (renderInsightItem showScores score) (insights v))])).

Definition renderQuestionItem (q : ComparisonQuestion) : Node :=
  El (lit "div") (lit "aurora-question-item") [] None
    ([El (lit "span")
         (lit "aurora-badge aurora-badge-" ++ QuestionType_string (cq_type q))
         (formatQuestionType (cq_type q)) None []]
     ++ (if truthy (cq_quote q)
         then [El (lit "blockquote") (lit "aurora-quote")
                  (or_default (cq_quote q) [])
                  None
                  (if truthy (cq_insight_reference q)
                   then [El (lit "a") (lit "aurora-ref-link")
                            (lit " [source]")
                            (Some (OpenInsight
                                     (or_default (cq_insight_reference q) [])))
                            []]
                   else [])]
         else [])
     ++ [El (lit "p") (lit "aurora-question-text") (cq_question q) None [];
         El (lit "button") (lit "aurora-copy-btn") (lit "Copy")
            (Some (CopyQuestion (cq_question q))) []]).

Definition renderQuestions (v : InsightPanelView) : Node :=
  El (lit "div") (lit "aurora-section") [] None
    (El (lit "h5") [] (lit "Reflection Questions") None []
     :: (if (length (questions v) =? 0)%nat
         then [El (lit "p") (lit "aurora-no-results")
                  (lit "No questions generated.") None []]
         else [El (lit "div") (lit "aurora-question-list") [] None
                  (map renderQuestionItem (questions v))])).

(** [render]: the children of the container after the call. *)
Definition render (showScores : bool) (score : number -> jsstring)
  (v : InsightPanelView) : list Node :=
  El (lit "div") (lit "aurora-panel-header") [] None
     [El (lit "h4") [] (lit "Aurora Ontology") None []]
  :: (if isLoading v then [renderLoading]
      else if negb (truthy (currentQuestion v)) then [renderEmpty]
      else [renderInsights showScores score v; renderQuestions v]).

(** The number of elements of a class in a tree. *)
Fixpoint count_class (cls : jsstring) (n : Node) : nat :=
  match n with
  | El _ c _ _ children =>
      ((if jseqb c cls then 1 else 0)
       + (fix count_all (l : list Node) : nat :=
            match l with
            | [] => 0
            | x :: l' => count_class cls x + count_all l'
            end) children)%nat
  end.

Definition count_class_all (cls : jsstring) (l : list Node) : nat :=
  fold_right (fun n acc => (count_class cls n + acc)%nat) 0%nat l.

(* ----------------------------------------------------------------- *)
(** *** The creation of an Insight note *)

(** The header that [createInsight] writes; [today] is the date of
    [new Date().toISOString().split('T')[0]]. *)
Definition new_insight_header (today : jsstring) : jsstring :=
  lit "---" ++ [LF]
  ++ lit "type: insight" ++ [LF]
  ++ lit "created: " ++ today ++ [LF]
  ++ lit "confidence: low" ++ [LF]
  ++ lit "source_questions: []" ++ [LF]
  ++ lit "---" ++ [LF] ++ [LF].

(** [createInsight]: the arguments of [vault.create], or nothing when
    the title is blank. *)
Definition createInsight (today titleInput contentInput promptQuestion
                          : jsstring) : option (path * jsstring) :=
  match trim titleInput with
  | [] => None
  | _ :: _ =>
      let content :=
        new_insight_header today
        ++ (match contentInput with
            | _ :: _ => contentInput
            | [] => lit "> " ++ promptQuestion ++ [LF; LF]
            end) in
      let fileName := lit "Insights/" ++ trim titleInput ++ lit ".md" in
      Some (fileName, content)
  end.

(** The lines of the header that [createInsight] writes. *)
Definition new_insight_lines (today : jsstring) : list jsstring :=
  [lit "type: insight"; lit "created: " ++ today; lit "confidence: low";
   lit "source_questions: []"].

(** The characters of the date of [toISOString]: digits, the hyphen and
    the sign of a year outside 0 .. 9999. *)
Definition date_char (c : code_unit) : bool :=
  ((48 <=? c) && (c <=? 57) || (c =? 45) || (c =? 43))%N.

(* ----------------------------------------------------------------- *)
(** *** Notions for the further properties of the sync service *)

(** A request of the sync service for a path of [Insights/]. *)
Definition for_insight (c : RemoteCall) : Prop :=
  match c with
  | indexInsight payload => insight_path (payload_path payload)
  | deleteInsight p => insight_path p
  | _ => False
  end.

(** The paths of the upserts among the requests, in the order sent. *)
Definition upsert_paths (cs : list RemoteCall) : list path :=
  flat_map (fun c => match c with
                     | indexInsight payload => [payload_path payload]
                     | _ => []
                     end) cs.

(** [u] is [l] with some elements left out, the order kept. *)
Inductive subseq {A : Type} : list A -> list A -> Prop :=
| subseq_nil : subseq [] []
| subseq_take (x : A) (u l : list A) : subseq u l -> subseq (x :: u) (x :: l)
| subseq_skip (x : A) (u l : list A) : subseq u l -> subseq u (x :: l).

(** The awaited results that a suspended pass still needs before it ends,
    at most: two for each path it has not finished, less the read that
    was already answered. *)
Definition task_measure (t : Task) : nat :=
  match t with
  | AwaitRead _ rest => 2 * S (length rest)
  | AwaitIndex _ rest => S (2 * length rest)
  | AwaitDelete _ => 0
  end.

Definition pass_measure (s : SyncState) : nat :=
  list_sum (map task_measure (drains (tasks s))).

(** The path whose upsert a suspended pass awaits. *)
Definition awaited_upsert (t : Task) : list path :=
  match t with
  | AwaitIndex p _ => [p]
  | _ => []
  end.

(** Where a pass stands with the order of its upserts: those sent since
    the requests [c0] follow the order of the part of the snapshot [snap]
    that the pass has gone through. *)
Definition in_snapshot_order (c0 : list path) (snap : list path)
  (s : SyncState) : Prop :=
  exists u, upsert_paths (calls s) = c0 ++ u /\
    if isSyncing s then
      exists t done,
        drains (tasks s) = [t] /\ snap = done ++ worklist t /\
        subseq u (done ++ awaited_upsert t)
    else subseq u snap.

(* ----------------------------------------------------------------- *)
(** *** Notions for the properties of the full resynchronization *)

(** The payload that [syncInsight] builds from the text read. *)
Definition payload_of (p : path) (content : jsstring) : NotePayload :=
  {| payload_path := p;
     payload_content := snd (parseFrontmatter content);
     payload_frontmatter := fst (parseFrontmatter content) |}.

(** The read of the file succeeds. *)
Definition readable (env : SyncEnv) (file : TAbstractFile) : bool :=
  match env_read env (file_path file) with
  | inl _ => true
  | inr _ => false
  end.

(** The read of the file and the upsert of its payload both succeed. *)
Definition syncable (env : SyncEnv) (file : TAbstractFile) : bool :=
  match env_read env (file_path file) with
  | inl content =>
      match env_index env (payload_of (file_path file) content) with
      | inl _ => true
      | inr _ => false
      end
  | inr _ => false
  end.

(** The code units that an encoded URI component may hold. *)
Definition uri_safe (c : code_unit) : bool :=
  uriUnreserved c || N.eqb c 37.

(* ----------------------------------------------------------------- *)
(** *** Notions for the further properties of the plugin *)

(** The note that is open in the workspace is a question note. *)
Definition question_active (h : Host) : bool :=
  match activeFile h with
  | Some file => isQuestionNote file
  | None => false
  end.

(** The steps of the plugin that may reach the server without a question
    note being open. *)
Definition asks_server_directly (l : plugin_label) : bool :=
  match l with
  | RunCommand reindex_insights | TestConnection => true
  | _ => false
  end.

(* ================================================================= *)
(** * Properties of the frontmatter parser *)

Section StringLemmas.

Lemma jseqb_eq (a b : jsstring) : jseqb a b = true <-> a = b.
Proof.
  revert b; induction a as [|x a IH]; intros [|y b]; simpl;
    try (split; [discriminate | discriminate]); try tauto.
  rewrite andb_true_iff, N.eqb_eq, IH.
  split; [intros [-> ->]; reflexivity | intros [= -> ->]; auto].
Qed.

Lemma jseqb_refl (a : jsstring) : jseqb a a = true.
Proof. apply jseqb_eq; reflexivity. Qed.

Lemma jseqb_neq (a b : jsstring) : jseqb a b = false <-> a <> b.
Proof.
  rewrite <- jseqb_eq. destruct (jseqb a b); split; congruence.
Qed.

Lemma startsWith_iff (s p : jsstring) :
  startsWith s p = true <-> exists r, s = p ++ r.
Proof.
  revert s; induction p as [|c p IH]; intros s; simpl.
  - split; [exists s; reflexivity | reflexivity].
  - destruct s as [|d s].
    + split; [discriminate | intros [r Hr]; discriminate].
    + rewrite andb_true_iff, N.eqb_eq, IH. split.
      * intros [-> [r ->]]. exists r; reflexivity.
      * intros [r [= -> ->]]. split; [reflexivity | exists r; reflexivity].
Qed.

Lemma startsWith_app (p r : jsstring) : startsWith (p ++ r) p = true.
Proof. apply startsWith_iff; exists r; reflexivity. Qed.

Lemma skipn_length_app (p r : jsstring) : skipn (length p) (p ++ r) = r.
Proof. induction p; simpl; auto. Qed.

Lemma firstn_length_app (p r : jsstring) : firstn (length p) (p ++ r) = p.
Proof. induction p; simpl; congruence. Qed.

Lemma startsWith_skipn (s k : jsstring) :
  startsWith s k = true -> s = k ++ skipn (length k) s.
Proof.
  intros H. apply startsWith_iff in H as [r ->].
  rewrite skipn_length_app. reflexivity.
Qed.

End StringLemmas.

Section Matching.

(** The lazy scan fails exactly when the literal occurs nowhere. *)
Lemma lazy_any_then_none (k s : jsstring) :
  lazy_any_then k s = None -> forall h tail, s <> h ++ k ++ tail.
Proof.
  induction s as [|c s IH]; simpl.
  - destruct (startsWith [] k) eqn:E; [discriminate|].
    intros _ h tail Heq. destruct h; simpl in *.
    + rewrite Heq, startsWith_app in E. discriminate.
    + discriminate.
  - destruct (startsWith (c :: s) k) eqn:E; [discriminate|].
    destruct (lazy_any_then k s) as [[g r]|] eqn:El; [discriminate|].
    intros _ h tail Heq. destruct h as [|d h]; simpl in Heq.
    + rewrite Heq, startsWith_app in E. discriminate.
    + injection Heq as -> Heq. exact (IH eq_refl h tail Heq).
Qed.

Lemma lazy_any_then_some (k s g r : jsstring) :
  lazy_any_then k s = Some (g, r) -> s = g ++ k ++ r.
Proof.
  revert g r; induction s as [|c s IH]; intros g r; simpl.
  - destruct (startsWith [] k) eqn:E; [|discriminate].
    intros [= <- <-]. exact (startsWith_skipn _ _ E).
  - destruct (startsWith (c :: s) k) eqn:E.
    + intros [= <- <-]. exact (startsWith_skipn _ _ E).
    + destruct (lazy_any_then k s) as [[g' r']|] eqn:El; [|discriminate].
      intros [= <- <-]. simpl. f_equal. apply IH; reflexivity.
Qed.

Lemma frontmatterRegex_none (content : jsstring) :
  frontmatterRegex content = None <-> ~ has_header content.
Proof.
  unfold frontmatterRegex, has_header. split.
  - destruct (startsWith content fm_open) eqn:E.
    + apply startsWith_iff in E as [r ->]. rewrite skipn_length_app.
      destruct (lazy_any_then fm_close r) as [[g r']|] eqn:El; [discriminate|].
      intros _ (h & tail & Heq). apply app_inv_head in Heq.
      exact (lazy_any_then_none _ _ El h tail Heq).
    + intros _ (h & tail & Heq). rewrite Heq, startsWith_app in E.
      discriminate.
  - intros Hno. destruct (startsWith content fm_open) eqn:E; [|reflexivity].
    apply startsWith_iff in E as [r ->]. rewrite skipn_length_app.
    destruct (lazy_any_then fm_close r) as [[g r']|] eqn:El; [|reflexivity].
    exfalso. apply Hno. exists g, r'. f_equal.
    apply lazy_any_then_some; assumption.
Qed.

End Matching.

(** C10. The parser is a total function: every text has a result (no input
    makes it fail), and a text without a header block, that is, one that
    does not open with [---\n] or has no closing [\n---] after it, is
    returned whole as the body, with the empty frontmatter. *)
Theorem parseFrontmatter_total_and_degrades (content : jsstring) :
  (exists fm body, parseFrontmatter content = (fm, body)) /\
  (~ has_header content ->
   parseFrontmatter content = (empty_frontmatter, content)).
Proof.
  split.
  - destruct (parseFrontmatter content) as [fm body]. eauto.
  - intros Hno. apply frontmatterRegex_none in Hno.
    unfold parseFrontmatter. rewrite Hno. reflexivity.
Qed.

Lemma parseFrontmatter_total_and_degrades_witness :
  let text := lit "--- no header" ++ [LF] ++ lit "key: value" in
  ~ has_header text /\
  parseFrontmatter text = (empty_frontmatter, text).
Proof.
  assert (H : ~ has_header (lit "--- no header" ++ [LF] ++ lit "key: value")).
  { apply frontmatterRegex_none. reflexivity. }
  split; [exact H|].
  exact (proj2 (parseFrontmatter_total_and_degrades _) H).
Defined.

Section HeaderScan.

Lemma fm_close_eq : fm_close = [LF; 45; 45; 45]%N.
Proof. reflexivity. Qed.

Lemma dashes_eq : lit "---" = [45; 45; 45]%N.
Proof. reflexivity. Qed.

Lemma LF_not_in_cons (c : code_unit) (l : jsstring) :
  ~ In LF (c :: l) -> N.eqb c LF = false /\ ~ In LF l.
Proof.
  intros H. split.
  - apply N.eqb_neq. intros ->. apply H; left; reflexivity.
  - intros Hin. apply H; right; exact Hin.
Qed.

Lemma lazy_any_then_cons (k : jsstring) (c : code_unit) (s : jsstring) :
  lazy_any_then k (c :: s) =
  if startsWith (c :: s) k then Some ([], skipn (length k) (c :: s))
  else match lazy_any_then k s with
       | Some (g, r) => Some (c :: g, r)
       | None => None
       end.
Proof. reflexivity. Qed.

Lemma lazy_any_then_hit (k s : jsstring) :
  startsWith s k = true ->
  lazy_any_then k s = Some ([], skipn (length k) s).
Proof. destruct s; simpl; intros ->; reflexivity. Qed.

Lemma startsWith_close_cons (c : code_unit) (s : jsstring) :
  startsWith (c :: s) fm_close = (c =? LF)%N && startsWith s (lit "---").
Proof. reflexivity. Qed.

(** A line without line feed is skipped by the scan for [\n---]. *)
Lemma lazy_scan_line (l rest : jsstring) :
  ~ In LF l ->
  lazy_any_then fm_close (l ++ rest) =
  match lazy_any_then fm_close rest with
  | Some (g, r) => Some (l ++ g, r)
  | None => None
  end.
Proof.
  induction l as [|c l IH]; intros Hl.
  - simpl. destruct (lazy_any_then fm_close rest) as [[g r]|]; reflexivity.
  - apply LF_not_in_cons in Hl as [Hc Hl].
    change ((c :: l) ++ rest) with (c :: (l ++ rest)).
    rewrite lazy_any_then_cons, startsWith_close_cons, Hc. simpl andb.
    cbv iota. rewrite (IH Hl).
    destruct (lazy_any_then fm_close rest) as [[g r]|]; reflexivity.
Qed.

(** A line that does not open with [---] still does not when a line feed
    and more text follow it. *)
Lemma dashes_blocked (l r : jsstring) :
  ~ In LF l ->
  startsWith l (lit "---") = false ->
  startsWith (l ++ LF :: r) (lit "---") = false.
Proof.
  rewrite dashes_eq. intros Hl H.
  destruct l as [|a [|b [|c l]]]; simpl in *.
  - reflexivity.
  - destruct (a =? 45)%N; reflexivity.
  - destruct (a =? 45)%N; [|reflexivity].
    destruct (b =? 45)%N; reflexivity.
  - exact H.
Qed.

Lemma join_cons2 (l l2 : jsstring) (ls : list jsstring) :
  join LF (l :: l2 :: ls) = l ++ LF :: join LF (l2 :: ls).
Proof. reflexivity. Qed.

Lemma join_then_close (l : jsstring) (ls : list jsstring) (tail : jsstring) :
  exists r, join LF (l :: ls) ++ fm_close ++ tail = l ++ LF :: r.
Proof.
  destruct ls as [|l2 ls].
  - change (join LF [l]) with l. rewrite fm_close_eq.
    eexists; reflexivity.
  - rewrite join_cons2, <- app_assoc. eexists; reflexivity.
Qed.

Lemma lazy_scan_lines (lines : list jsstring) (tail : jsstring) :
  header_lines lines ->
  lazy_any_then fm_close (join LF lines ++ fm_close ++ tail) =
  Some (join LF lines, tail).
Proof.
  intros (Hne & Hlf & Hd).
  induction lines as [|l ls IH]; [congruence|].
  inversion Hlf as [|? ? Hl Hls]; subst.
  destruct ls as [|l2 ls].
  - change (join LF [l]) with l.
    rewrite (lazy_scan_line _ _ Hl).
    rewrite (lazy_any_then_hit _ _ (startsWith_app fm_close tail)).
    rewrite skipn_length_app, app_nil_r. reflexivity.
  - rewrite join_cons2, <- app_assoc.
    rewrite (lazy_scan_line _ _ Hl).
    change ((LF :: join LF (l2 :: ls)) ++ fm_close ++ tail)
      with (LF :: (join LF (l2 :: ls) ++ fm_close ++ tail)).
    simpl in Hd. inversion Hd as [|? ? Hd2 Hds]; subst.
    inversion Hls as [|? ? Hl2 _]; subst.
    assert (Hblock :
      startsWith (LF :: (join LF (l2 :: ls) ++ fm_close ++ tail)) fm_close
      = false).
    { destruct (join_then_close l2 ls tail) as [r ->].
      rewrite startsWith_close_cons, N.eqb_refl. simpl andb.
      apply dashes_blocked; assumption. }
    assert (IH' := IH ltac:(discriminate) Hls Hds).
    rewrite lazy_any_then_cons, Hblock, IH'. reflexivity.
Qed.

Lemma split_no_LF (l : jsstring) : ~ In LF l -> split LF l = [l].
Proof.
  induction l as [|c l IH]; intros Hl; [reflexivity|].
  apply LF_not_in_cons in Hl as [Hc Hl]. simpl.
  rewrite Hc, (IH Hl). reflexivity.
Qed.

Lemma split_line (l rest : jsstring) :
  ~ In LF l -> split LF (l ++ LF :: rest) = l :: split LF rest.
Proof.
  induction l as [|c l IH]; intros Hl.
  - reflexivity.
  - apply LF_not_in_cons in Hl as [Hc Hl]. simpl.
    rewrite Hc, (IH Hl). reflexivity.
Qed.

Lemma split_join (lines : list jsstring) :
  lines <> [] -> Forall (fun l => ~ In LF l) lines ->
  split LF (join LF lines) = lines.
Proof.
  induction lines as [|l ls IH]; intros Hne Hlf; [congruence|].
  inversion Hlf as [|? ? Hl Hls]; subst.
  destruct ls as [|l2 ls].
  - simpl. apply split_no_LF; assumption.
  - rewrite join_cons2, (split_line _ _ Hl), IH; [reflexivity|discriminate|assumption].
Qed.

Lemma optional_LF (r : jsstring) :
  (if startsWith r [LF] then skipn 1 r else r) = after_delimiter r.
Proof.
  destruct r as [|c r]; simpl; [reflexivity|].
  destruct (c =? LF)%N; reflexivity.
Qed.

Lemma frontmatterRegex_note (lines : list jsstring) (tail : jsstring) :
  header_lines lines ->
  frontmatterRegex (note_text lines tail) =
  Some (join LF lines, after_delimiter tail).
Proof.
  intros H. unfold frontmatterRegex, note_text.
  rewrite startsWith_app, skipn_length_app, (lazy_scan_lines _ tail H).
  rewrite optional_LF. reflexivity.
Qed.

End HeaderScan.

Section Lines.

Lemma indexOf_from_absent (line : jsstring) (i : Z) :
  ~ In colon line -> indexOf_from line [colon] i = (-1)%Z.
Proof.
  revert i; induction line as [|c line IH]; intros i Hn; [reflexivity|].
  simpl. destruct (c =? colon)%N eqn:E.
  - apply N.eqb_eq in E. exfalso. apply Hn. left. auto.
  - simpl. apply IH. intros Hin. apply Hn. right. exact Hin.
Qed.

Lemma indexOf_from_first (a v : jsstring) (i : Z) :
  ~ In colon a ->
  indexOf_from (a ++ colon :: v) [colon] i = (i + Z.of_nat (length a))%Z.
Proof.
  revert i; induction a as [|c a IH]; intros i Hn.
  - simpl. lia.
  - change ((c :: a) ++ colon :: v) with (c :: (a ++ colon :: v)).
    simpl indexOf_from. destruct (c =? colon)%N eqn:E.
    + apply N.eqb_eq in E. exfalso. apply Hn. left. auto.
    + simpl andb. cbv iota. rewrite IH.
      * simpl length. lia.
      * intros Hin. apply Hn. right. exact Hin.
Qed.

Lemma first_colon (line : jsstring) :
  In colon line ->
  exists a v, line = a ++ colon :: v /\ ~ In colon a.
Proof.
  induction line as [|c line IH]; intros Hin; [destruct Hin|].
  destruct (N.eq_dec c colon) as [->|Hc].
  - exists [], line. split; [reflexivity | intros []].
  - destruct Hin as [Hin|Hin]; [congruence|].
    destruct (IH Hin) as (a & v & -> & Ha).
    exists (c :: a), v. split; [reflexivity|].
    intros [H|H]; [congruence | exact (Ha H)].
Qed.

Lemma slice_key (a : jsstring) (c : code_unit) (v : jsstring) :
  slice (a ++ c :: v) 0 (Z.of_nat (length a)) = a.
Proof.
  unfold slice, clamp_index. rewrite length_app. simpl length.
  replace (0 <? 0)%Z with false by reflexivity.
  replace (Z.of_nat (length a) <? 0)%Z with false by (symmetry; apply Z.ltb_ge; lia).
  rewrite Z.min_l by lia. rewrite Z.min_l by lia.
  rewrite Z.sub_0_r, Nat2Z.id. simpl skipn.
  apply firstn_length_app.
Qed.

Lemma slice_value (a : jsstring) (c : code_unit) (v : jsstring) :
  slice_from (a ++ c :: v) (Z.of_nat (length a) + 1) = v.
Proof.
  unfold slice_from, slice, clamp_index. rewrite length_app. simpl length.
  replace (Z.of_nat (length a) + 1 <? 0)%Z with false
    by (symmetry; apply Z.ltb_ge; lia).
  replace (Z.of_nat (length a + S (length v)) <? 0)%Z with false
    by (symmetry; apply Z.ltb_ge; lia).
  rewrite Z.min_l by lia. rewrite Z.min_l by lia.
  replace (Z.to_nat (Z.of_nat (length a) + 1)) with (length (a ++ [c])).
  2:{ rewrite length_app. simpl. lia. }
  replace (a ++ c :: v) with ((a ++ [c]) ++ v) by (rewrite <- app_assoc; reflexivity).
  rewrite skipn_length_app.
  replace (Z.to_nat _) with (length v) by lia.
  apply firstn_all.
Qed.

Lemma parse_line_keyed (fm : NoteFrontmatter) (line : jsstring) :
  parse_line fm line =
  match line_key line with
  | Some k => assign_field fm k (line_value line)
  | None => fm
  end.
Proof.
  unfold parse_line, line_key, line_value.
  destruct (indexOf line [colon] =? -1)%Z; reflexivity.
Qed.

Lemma line_key_no_colon (line : jsstring) :
  ~ In colon line -> line_key line = None.
Proof.
  intros H. unfold line_key, indexOf. rewrite (indexOf_from_absent _ _ H).
  reflexivity.
Qed.

Lemma line_key_colon (a v : jsstring) :
  ~ In colon a -> line_key (a ++ colon :: v) = Some (trim a).
Proof.
  intros H. unfold line_key, indexOf. rewrite (indexOf_from_first _ _ _ H).
  rewrite Z.add_0_l.
  replace (Z.of_nat (length a) =? -1)%Z with false
    by (symmetry; apply Z.eqb_neq; lia).
  rewrite slice_key. reflexivity.
Qed.

Lemma line_value_colon (a v : jsstring) :
  ~ In colon a -> line_value (a ++ colon :: v) = unquote (trim v).
Proof.
  intros H. unfold line_value, indexOf. rewrite (indexOf_from_first _ _ _ H).
  rewrite Z.add_0_l, slice_value. reflexivity.
Qed.

(** *** [trim] *)

Lemma trimStart_ws (pre x : jsstring) :
  all_ws pre -> trimStart (pre ++ x) = trimStart x.
Proof.
  induction 1 as [|c pre Hc _ IH]; [reflexivity|].
  simpl. rewrite Hc. exact IH.
Qed.

Lemma trimStart_decomp (s : jsstring) :
  exists pre, all_ws pre /\ s = pre ++ trimStart s.
Proof.
  induction s as [|c s (pre & Hpre & Hs)].
  - exists []. split; [constructor | reflexivity].
  - simpl. destruct (isWhiteSpace c) eqn:E.
    + exists (c :: pre). split; [constructor; assumption|].
      simpl. f_equal. exact Hs.
    + exists []. split; [constructor | reflexivity].
Qed.

Lemma trimStart_fixed (c : code_unit) (r : jsstring) :
  isWhiteSpace c = false -> trimStart (c :: r) = c :: r.
Proof. intros H. simpl. rewrite H. reflexivity. Qed.

Lemma all_ws_rev (s : jsstring) : all_ws s -> all_ws (rev s).
Proof. unfold all_ws. apply Forall_rev. Qed.

Lemma all_ws_no_colon (s : jsstring) : all_ws s -> ~ In colon s.
Proof.
  intros H Hin. unfold all_ws in H. rewrite Forall_forall in H.
  specialize (H _ Hin). discriminate.
Qed.

Lemma good_key_parts (k : jsstring) :
  good_key k = true ->
  ~ In colon k /\
  (exists c r, k = c :: r /\ isWhiteSpace c = false) /\
  (exists c r, rev k = c :: r /\ isWhiteSpace c = false).
Proof.
  unfold good_key. rewrite !andb_true_iff. intros [[H1 H2] H3].
  split; [|split].
  - intros Hin. apply negb_true_iff in H1.
    assert (existsb (N.eqb colon) k = true).
    { apply existsb_exists. exists colon. split; [exact Hin | apply N.eqb_refl]. }
    congruence.
  - destruct k as [|c r]; [discriminate|].
    exists c, r. split; [reflexivity | apply negb_true_iff; exact H2].
  - destruct (rev k) as [|c r]; [discriminate|].
    exists c, r. split; [reflexivity | apply negb_true_iff; exact H3].
Qed.

Lemma trim_key (pre k post : jsstring) :
  all_ws pre -> all_ws post -> good_key k = true ->
  trim (pre ++ k ++ post) = k.
Proof.
  intros Hpre Hpost Hk.
  destruct (good_key_parts _ Hk) as (_ & (c & r & Hk1 & Hc) & (d & q & Hk2 & Hd)).
  unfold trim, trimEnd. rewrite (trimStart_ws _ _ Hpre).
  rewrite Hk1 at 1. rewrite <- app_comm_cons, (trimStart_fixed _ _ Hc).
  rewrite app_comm_cons, <- Hk1, rev_app_distr.
  rewrite (trimStart_ws _ _ (all_ws_rev _ Hpost)).
  rewrite Hk2, (trimStart_fixed _ _ Hd), <- Hk2. apply rev_involutive.
Qed.

Lemma trim_inv (a : jsstring) :
  exists pre post, all_ws pre /\ all_ws post /\ a = pre ++ trim a ++ post.
Proof.
  destruct (trimStart_decomp a) as (pre & Hpre & Ha).
  destruct (trimStart_decomp (rev (trimStart a))) as (p2 & Hp2 & Hr).
  exists pre, (rev p2). split; [exact Hpre|]. split; [apply all_ws_rev; exact Hp2|].
  unfold trim, trimEnd. rewrite <- rev_app_distr, <- Hr, rev_involutive.
  exact Ha.
Qed.

Lemma line_key_iff (line k : jsstring) :
  good_key k = true ->
  (line_key line = Some k <-> line_has_key line k).
Proof.
  intros Hk. destruct (good_key_parts _ Hk) as (Hkc & _ & _). split.
  - intros H. destruct (in_dec N.eq_dec colon line) as [Hin|Hn].
    + destruct (first_colon _ Hin) as (a & v & -> & Ha).
      rewrite (line_key_colon _ _ Ha) in H. injection H as H.
      destruct (trim_inv a) as (pre & post & Hpre & Hpost & Heq).
      rewrite H in Heq. exists pre, post, v.
      split; [exact Hpre|]. split; [exact Hpost|].
      rewrite Heq at 1. rewrite <- !app_assoc. reflexivity.
    + rewrite (line_key_no_colon _ Hn) in H. discriminate.
  - intros (pre & post & v & Hpre & Hpost & ->).
    replace (pre ++ k ++ post ++ colon :: v)
      with ((pre ++ k ++ post) ++ colon :: v)
      by (rewrite <- !app_assoc; reflexivity).
    rewrite line_key_colon.
    + rewrite trim_key; auto.
    + rewrite !in_app_iff. intros [H|[H|H]].
      * exact (all_ws_no_colon _ Hpre H).
      * exact (Hkc H).
      * exact (all_ws_no_colon _ Hpost H).
Qed.

Lemma line_value_keyed (pre k post v : jsstring) :
  all_ws pre -> all_ws post -> good_key k = true ->
  line_value (pre ++ k ++ post ++ colon :: v) = unquote (trim v).
Proof.
  intros Hpre Hpost Hk. destruct (good_key_parts _ Hk) as (Hkc & _ & _).
  replace (pre ++ k ++ post ++ colon :: v)
    with ((pre ++ k ++ post) ++ colon :: v)
    by (rewrite <- !app_assoc; reflexivity).
  apply line_value_colon.
  rewrite !in_app_iff. intros [H|[H|H]].
  - exact (all_ws_no_colon _ Hpre H).
  - exact (Hkc H).
  - exact (all_ws_no_colon _ Hpost H).
Qed.

Lemma field_key_good (f : Field) : good_key (field_key f) = true.
Proof. destruct f; reflexivity. Qed.

End Lines.

Section Fold.

Lemma assign_scalar (fm : NoteFrontmatter) (k v : jsstring) (f : Field) :
  In f scalar_fields ->
  scalar_value (assign_field fm k v) f =
  if jseqb k (field_key f) then Some v else scalar_value fm f.
Proof.
  intros Hin. unfold assign_field.
  destruct (jseqb k (lit "type")) eqn:E1;
    [apply jseqb_eq in E1; subst k; destruct f; reflexivity|].
  destruct (jseqb k (lit "created")) eqn:E2;
    [apply jseqb_eq in E2; subst k; destruct f; reflexivity|].
  destruct (jseqb k (lit "status")) eqn:E3;
    [apply jseqb_eq in E3; subst k; destruct f; reflexivity|].
  destruct (jseqb k (lit "triggered_by")) eqn:E4;
    [apply jseqb_eq in E4; subst k; destruct f; reflexivity|].
  destruct (jseqb k (lit "confidence")) eqn:E5;
    [apply jseqb_eq in E5; subst k; destruct f; reflexivity|].
  destruct (jseqb k (lit "evolved_from")) eqn:E6;
    [apply jseqb_eq in E6; subst k; destruct f; reflexivity|].
  destruct f; cbn [field_key scalar_value];
    try (rewrite E1); try (rewrite E2); try (rewrite E3);
    try (rewrite E4); try (rewrite E5); try (rewrite E6);
    try reflexivity;
    exfalso; simpl in Hin; intuition discriminate.
Qed.

Lemma assign_lists (fm : NoteFrontmatter) (k v : jsstring) (f : Field) :
  In f list_fields ->
  field_set (assign_field fm k v) f = field_set fm f.
Proof.
  intros Hin. unfold assign_field.
  repeat match goal with
         | |- context [if jseqb k ?l then _ else _] => destruct (jseqb k l)
         end;
    destruct f; try reflexivity;
    exfalso; simpl in Hin; intuition discriminate.
Qed.

Lemma field_set_scalar (fm : NoteFrontmatter) (f : Field) :
  In f scalar_fields -> field_set fm f = is_some (scalar_value fm f).
Proof.
  intros Hin. destruct f; try reflexivity;
    exfalso; simpl in Hin; intuition discriminate.
Qed.

Lemma parse_line_scalar (fm : NoteFrontmatter) (line : jsstring) (f : Field) :
  In f scalar_fields ->
  scalar_value (parse_line fm line) f =
  match line_key line with
  | Some k => if jseqb k (field_key f) then Some (line_value line)
              else scalar_value fm f
  | None => scalar_value fm f
  end.
Proof.
  intros Hin. rewrite parse_line_keyed.
  destruct (line_key line); [apply assign_scalar; exact Hin | reflexivity].
Qed.

Lemma parse_line_hit (fm : NoteFrontmatter) (line : jsstring) (f : Field) :
  In f scalar_fields ->
  line_key line = Some (field_key f) ->
  scalar_value (parse_line fm line) f = Some (line_value line).
Proof.
  intros Hin Hk. rewrite (parse_line_scalar _ _ _ Hin), Hk, jseqb_refl.
  reflexivity.
Qed.

Lemma parse_line_miss (fm : NoteFrontmatter) (line : jsstring) (f : Field) :
  In f scalar_fields ->
  line_key line <> Some (field_key f) ->
  scalar_value (parse_line fm line) f = scalar_value fm f.
Proof.
  intros Hin Hk. rewrite (parse_line_scalar _ _ _ Hin).
  destruct (line_key line) as [k|]; [|reflexivity].
  destruct (jseqb k (field_key f)) eqn:E; [|reflexivity].
  apply jseqb_eq in E. congruence.
Qed.

Lemma fold_lists (lines : list jsstring) (fm : NoteFrontmatter) (f : Field) :
  In f list_fields ->
  field_set (fold_left parse_line lines fm) f = field_set fm f.
Proof.
  intros Hin. revert fm. induction lines as [|l ls IH]; intros fm.
  - reflexivity.
  - simpl. rewrite IH, parse_line_keyed.
    destruct (line_key l); [apply assign_lists; exact Hin | reflexivity].
Qed.

Lemma fold_miss (lines : list jsstring) (fm : NoteFrontmatter) (f : Field) :
  In f scalar_fields ->
  (forall l, In l lines -> line_key l <> Some (field_key f)) ->
  scalar_value (fold_left parse_line lines fm) f = scalar_value fm f.
Proof.
  intros Hin. revert fm. induction lines as [|l ls IH]; intros fm Hno.
  - reflexivity.
  - simpl. rewrite IH.
    + apply parse_line_miss; [exact Hin | apply Hno; left; reflexivity].
    + intros l' Hl'. apply Hno. right. exact Hl'.
Qed.

Lemma fold_last (ls1 ls2 : list jsstring) (line : jsstring)
  (fm : NoteFrontmatter) (f : Field) :
  In f scalar_fields ->
  line_key line = Some (field_key f) ->
  (forall l, In l ls2 -> line_key l <> Some (field_key f)) ->
  scalar_value (fold_left parse_line (ls1 ++ line :: ls2) fm) f =
  Some (line_value line).
Proof.
  intros Hin Hk Hno. rewrite fold_left_app. simpl.
  rewrite (fold_miss _ _ _ Hin Hno). apply parse_line_hit; assumption.
Qed.

Lemma line_key_dec (l : jsstring) (f : Field) :
  line_key l = Some (field_key f) \/ line_key l <> Some (field_key f).
Proof.
  destruct (line_key l) as [k|]; [|right; discriminate].
  destruct (list_eq_dec N.eq_dec k (field_key f)) as [->|Hn].
  - left; reflexivity.
  - right; congruence.
Qed.

Lemma fold_set_iff (lines : list jsstring) (fm : NoteFrontmatter) (f : Field) :
  In f scalar_fields ->
  (is_some (scalar_value (fold_left parse_line lines fm) f) = true <->
   is_some (scalar_value fm f) = true \/
   exists l, In l lines /\ line_key l = Some (field_key f)).
Proof.
  intros Hin. revert fm. induction lines as [|l ls IH]; intros fm.
  - simpl. split; [auto | intros [H|(l & [] & _)]; exact H].
  - simpl. rewrite IH. split.
    + intros [H|(l' & Hl' & Hk)].
      * destruct (line_key_dec l f) as [Hk|Hk].
        -- right. exists l. split; [left; reflexivity | exact Hk].
        -- rewrite (parse_line_miss _ _ _ Hin Hk) in H. left. exact H.
      * right. exists l'. split; [right; exact Hl' | exact Hk].
    + intros [H|(l' & [<-|Hl'] & Hk)].
      * destruct (line_key_dec l f) as [Hk|Hk].
        -- left. rewrite (parse_line_hit _ _ _ Hin Hk). reflexivity.
        -- left. rewrite (parse_line_miss _ _ _ Hin Hk). exact H.
      * left. rewrite (parse_line_hit _ _ _ Hin Hk). reflexivity.
      * right. exists l'. split; assumption.
Qed.

End Fold.

(** C9 (amended). For a note with a well-formed header, the parser sets
    exactly those of the six string-valued fields [type], [created],
    [status], [triggered_by], [confidence] and [evolved_from] whose key
    heads a header line, with the trimmed and unquoted value of the last
    such line; the related-note lists and [tags] are never set, like every
    other key; and the body is the text after the closing delimiter and
    its optional line feed. *)
Theorem parseFrontmatter_recovers_scalars
  (lines : list jsstring) (tail : jsstring) :
  header_lines lines ->
  let result := parseFrontmatter (note_text lines tail) in
  snd result = after_delimiter tail /\
  recovers scalar_fields lines (fst result) /\
  (forall f, In f list_fields -> field_set (fst result) f = false) /\
  (forall f ls1 ls2 pre post v,
      In f scalar_fields ->
      all_ws pre -> all_ws post ->
      lines = ls1 ++ (pre ++ field_key f ++ post ++ colon :: v) :: ls2 ->
      (forall l, In l ls2 -> ~ line_has_key l (field_key f)) ->
      scalar_value (fst result) f = Some (unquote (trim v))).
Proof.
  intros Hl. destruct Hl as (Hne & Hlf & Hd).
  assert (Hh : header_lines lines) by (repeat split; assumption).
  unfold parseFrontmatter. rewrite (frontmatterRegex_note _ tail Hh).
  rewrite (split_join _ Hne Hlf). cbn [fst snd].
  split; [reflexivity|]. split; [|split].
  - intros f Hin. rewrite (field_set_scalar _ _ Hin), (fold_set_iff _ _ _ Hin).
    split.
    + intros [H|(l & Hl & Hk)].
      * destruct f; discriminate.
      * exists l. split; [exact Hl|].
        apply line_key_iff; [apply field_key_good | exact Hk].
    + intros (l & Hl & Hk). right. exists l. split; [exact Hl|].
      apply line_key_iff; [apply field_key_good | exact Hk].
  - intros f Hin. rewrite (fold_lists _ _ _ Hin).
    destruct f; reflexivity.
  - intros f ls1 ls2 pre post v Hin Hpre Hpost -> Hno.
    rewrite fold_last.
    + rewrite line_value_keyed; auto using field_key_good.
    + exact Hin.
    + apply line_key_iff; [apply field_key_good|].
      exists pre, post, v. auto.
    + intros l Hl Hk. apply (Hno l Hl).
      apply line_key_iff in Hk; [exact Hk | apply field_key_good].
Qed.

Lemma header_linesb_ok (lines : list jsstring) :
  header_linesb lines = true -> header_lines lines.
Proof.
  unfold header_linesb, header_lines.
  rewrite !andb_true_iff, !forallb_forall, !Forall_forall.
  intros [[H1 H2] H3]. split; [|split].
  - intros ->. discriminate.
  - intros l Hl Hin. specialize (H2 l Hl). apply negb_true_iff in H2.
    assert (existsb (N.eqb LF) l = true); [|congruence].
    apply existsb_exists. exists LF. split; [exact Hin | apply N.eqb_refl].
  - intros l Hl. apply negb_true_iff. apply H3. exact Hl.
Qed.

Lemma parseFrontmatter_recovers_scalars_witness :
  let lines := [lit "type: insight"; lit "confidence: 'high'";
                lit "tags: [learning, embodiment]"] in
  let tail := LF :: lit "Body" in
  let result := parseFrontmatter (note_text lines tail) in
  header_lines lines /\
  snd result = lit "Body" /\
  recovers scalar_fields lines (fst result) /\
  scalar_value (fst result) F_confidence = Some (lit "high").
Proof.
  intros lines tail result.
  assert (H : header_lines lines) by (apply header_linesb_ok; reflexivity).
  destruct (parseFrontmatter_recovers_scalars lines tail H)
    as (Hbody & Hrec & _ & Hval).
  split; [exact H|]. split; [exact Hbody|]. split; [exact Hrec|].
  apply (Hval F_confidence [lit "type: insight"]
              [lit "tags: [learning, embodiment]"] [] [] (lit " 'high'")).
  - simpl; tauto.
  - constructor.
  - constructor.
  - reflexivity.
  - intros l [<-|[]] Hkey.
    apply line_key_iff in Hkey; [discriminate Hkey | reflexivity].
Defined.

(** C9, as stated, fails: section 3 counts the related-note lists and the
    tags among the recognized fields, but a header line [tags: ...] leaves
    the field [tags] of the result unset. *)
Lemma parseFrontmatter_drops_tags :
  let lines := [lit "type: insight"; lit "tags: [learning, embodiment]"] in
  let tail := LF :: lit "Body" in
  header_lines lines /\
  ~ recovers declared_fields lines
      (fst (parseFrontmatter (note_text lines tail))).
Proof.
  intros lines tail. split; [apply header_linesb_ok; reflexivity|].
  intros Hrec. specialize (Hrec F_tags).
  assert (Hin : In F_tags declared_fields) by (simpl; tauto).
  apply Hrec in Hin. clear Hrec.
  assert (Hset : field_set (fst (parseFrontmatter (note_text lines tail)))
                   F_tags = true).
  { apply Hin. exists (lit "tags: [learning, embodiment]").
    split; [right; left; reflexivity|].
    exists [], [], (lit " [learning, embodiment]").
    split; [constructor|]. split; [constructor | reflexivity]. }
  discriminate Hset.
Qed.

(* ================================================================= *)
(** * Properties of the sync service *)

Section SyncBasics.

Lemma prefix_Insights_not_Thoughts (p : path) :
  startsWith p (lit "Thoughts/") = true ->
  startsWith p (lit "Insights/") = false.
Proof.
  destruct p as [|c p]; [discriminate|].
  change (lit "Thoughts/") with (84%N :: lit "houghts/").
  change (lit "Insights/") with (73%N :: lit "nsights/").
  cbn [startsWith]. destruct (c =? 84)%N eqn:E; [|discriminate].
  apply N.eqb_eq in E. subst c. reflexivity.
Qed.

Lemma prefix_Insights_not_Questions (p : path) :
  startsWith p (lit "Questions/") = true ->
  startsWith p (lit "Insights/") = false.
Proof.
  destruct p as [|c p]; [discriminate|].
  change (lit "Questions/") with (81%N :: lit "uestions/").
  change (lit "Insights/") with (73%N :: lit "nsights/").
  cbn [startsWith]. destruct (c =? 81)%N eqn:E; [|discriminate].
  apply N.eqb_eq in E. subst c. reflexivity.
Qed.

Lemma isInsightNote_prefix (f : TAbstractFile) :
  isInsightNote f = startsWith (file_path f) (lit "Insights/").
Proof.
  unfold isInsightNote, classifyNote.
  destruct (startsWith (file_path f) (lit "Thoughts/")) eqn:E1.
  { symmetry. apply prefix_Insights_not_Thoughts. exact E1. }
  destruct (startsWith (file_path f) (lit "Questions/")) eqn:E2.
  { symmetry. apply prefix_Insights_not_Questions. exact E2. }
  destruct (startsWith (file_path f) (lit "Insights/")); reflexivity.
Qed.

Lemma set_add_in (q : list path) (p x : path) :
  In x (set_add q p) <-> In x q \/ x = p.
Proof.
  unfold set_add. destruct (existsb (jseqb p) q) eqn:E.
  - split; [auto|]. intros [H| ->]; [exact H|].
    apply existsb_exists in E as (y & Hy & Heq).
    apply jseqb_eq in Heq. subst y. exact Hy.
  - rewrite in_app_iff. simpl. intuition.
Qed.

Lemma set_add_incl (q : list path) (p : path) : incl q (set_add q p).
Proof. intros x Hx. apply set_add_in. left. exact Hx. Qed.

Lemma set_add_nodup (q : list path) (p : path) :
  NoDup q -> NoDup (set_add q p).
Proof.
  intros Hq. unfold set_add. destruct (existsb (jseqb p) q) eqn:E; [exact Hq|].
  apply NoDup_app; [exact Hq | repeat constructor; intros [] |].
  intros x Hx [Heq|[]]. subst x.
  assert (existsb (jseqb p) q = true); [|congruence].
  apply existsb_exists. exists p. split; [exact Hx | apply jseqb_refl].
Qed.

Lemma set_add_forall (P : path -> Prop) (q : list path) (p : path) :
  Forall P q -> P p -> Forall P (set_add q p).
Proof.
  intros Hq Hp. apply Forall_forall. intros x Hx.
  apply set_add_in in Hx as [Hx| ->]; [|exact Hp].
  rewrite Forall_forall in Hq. auto.
Qed.

Lemma set_add_not_nil (q : list path) (p : path) : set_add q p <> [].
Proof.
  intros H. assert (Hin : In p (set_add q p)) by (apply set_add_in; auto).
  rewrite H in Hin. destruct Hin.
Qed.

Lemma drains_app (ts : list Task) (t : Task) :
  drains (ts ++ [t]) = drains ts ++ (if is_drain t then [t] else []).
Proof. unfold drains. rewrite filter_app. reflexivity. Qed.

Lemma remove_nth_in (i : nat) (ts : list Task) (x : Task) :
  In x (remove_nth i ts) -> In x ts.
Proof.
  revert i; induction ts as [|t ts IH]; intros [|i]; simpl; auto.
  intros [->|H]; [left; reflexivity | right; eauto].
Qed.

Lemma drains_remove_other (i : nat) (ts : list Task) (t : Task) :
  nth_error ts i = Some t -> is_drain t = false ->
  drains (remove_nth i ts) = drains ts.
Proof.
  revert i; induction ts as [|t0 ts IH]; intros [|i]; simpl; try discriminate.
  - intros [= ->] Ht. rewrite Ht. reflexivity.
  - intros Hn Ht. rewrite (IH _ Hn Ht). reflexivity.
Qed.

Lemma drains_remove_drain (i : nat) (ts : list Task) (t : Task) :
  nth_error ts i = Some t -> is_drain t = true ->
  exists l1 l2, drains ts = l1 ++ t :: l2 /\
                drains (remove_nth i ts) = l1 ++ l2.
Proof.
  revert i; induction ts as [|t0 ts IH]; intros [|i]; simpl; try discriminate.
  - intros [= ->] Ht. rewrite Ht. exists [], (drains ts). split; reflexivity.
  - intros Hn Ht. destruct (IH _ Hn Ht) as (l1 & l2 & H1 & H2).
    destruct (is_drain t0).
    + exists (t0 :: l1), l2. simpl. rewrite H1, H2. split; reflexivity.
    + exists l1, l2. split; assumption.
Qed.

Lemma drains_remove_only (i : nat) (ts : list Task) (t t0 : Task) :
  nth_error ts i = Some t -> is_drain t = true -> drains ts = [t0] ->
  t0 = t /\ drains (remove_nth i ts) = [].
Proof.
  intros Hn Ht Hd. destruct (drains_remove_drain _ _ _ Hn Ht) as (l1 & l2 & H1 & H2).
  rewrite Hd in H1. destruct l1 as [|x l1].
  - simpl in H1. injection H1 as -> <-. split; [reflexivity | exact H2].
  - destruct l1; discriminate.
Qed.

Lemma drains_nth_in (i : nat) (ts : list Task) (t : Task) :
  nth_error ts i = Some t -> is_drain t = true -> In t (drains ts).
Proof.
  intros Hn Ht. apply filter_In. split; [|exact Ht].
  eapply nth_error_In; eassumption.
Qed.

Lemma drain_loop_cons (s : SyncState) (p : path) (rest : list path) :
  drain_loop s (p :: rest) =
  if resolves s p then suspend s (AwaitRead p rest) else drain_loop s rest.
Proof.
  unfold resolves. simpl.
  destruct (getAbstractFileByPath (vault s) p) as [file|]; [|reflexivity].
  destruct (instanceof_TFile file); [|reflexivity].
  destruct (isInsightNote file); reflexivity.
Qed.

(** The loop either suspends at the first path that resolves or finishes
    the pass. *)
Lemma drain_loop_cases (s : SyncState) (paths : list path) :
  (exists skipped q rest,
      paths = skipped ++ q :: rest /\
      Forall (fun x => resolves s x = false) skipped /\
      resolves s q = true /\
      drain_loop s paths = suspend s (AwaitRead q rest))
  \/ (Forall (fun x => resolves s x = false) paths /\
      drain_loop s paths = finish_pass s).
Proof.
  induction paths as [|p rest IH].
  - right. split; [constructor | reflexivity].
  - rewrite drain_loop_cons. destruct (resolves s p) eqn:E.
    + left. exists [], p, rest. repeat split; auto.
    + destruct IH as [(sk & q & r & -> & Hsk & Hq & Heq)|[Hall Heq]].
      * left. exists (p :: sk), q, r. repeat split; auto.
      * right. split; [constructor; assumption | exact Heq].
Qed.

End SyncBasics.

Section Invariant.

Lemma init_inv (v : Vault) : Inv (init v).
Proof.
  constructor; simpl;
    first [ now constructor | now intros p [] | discriminate | congruence
          | reflexivity ].
Qed.

Lemma busy_inv (s : SyncState) (t : Task) (done : list path) :
  NoDup (syncQueue s) -> Forall insight_path (syncQueue s) ->
  (forall p, In (AwaitDelete (Some p)) (tasks s) -> insight_path p) ->
  isSyncing s = true -> drains (tasks s) = [t] ->
  NoDup (last (passes s) []) -> Forall insight_path (last (passes s) []) ->
  last (passes s) [] = done ++ worklist t ->
  Inv s.
Proof.
  intros H1 H2 H3 H4 H5 H6 H7 H8. constructor; auto.
  - congruence.
  - intros _. exists t, done. auto.
  - congruence.
Qed.

Lemma idle_inv (s : SyncState) :
  NoDup (syncQueue s) -> Forall insight_path (syncQueue s) ->
  (forall p, In (AwaitDelete (Some p)) (tasks s) -> insight_path p) ->
  isSyncing s = false -> drains (tasks s) = [] ->
  (syncQueue s <> [] -> drainTimer s = true) ->
  Inv s.
Proof.
  intros H1 H2 H3 H4 H5 H6. constructor; auto. congruence.
Qed.

Lemma finish_pass_fields (s : SyncState) :
  vault (finish_pass s) = vault s /\
  syncQueue (finish_pass s) = syncQueue s /\
  isSyncing (finish_pass s) = false /\
  tasks (finish_pass s) = tasks s /\
  calls (finish_pass s) = calls s /\
  passes (finish_pass s) = passes s /\
  (syncQueue s <> [] -> drainTimer (finish_pass s) = true).
Proof.
  unfold finish_pass. cbn [syncQueue set_isSyncing].
  destruct (syncQueue s) eqn:E; simpl; rewrite ?E; repeat split; congruence.
Qed.

Lemma processSyncQueue_busy (s : SyncState) :
  isSyncing s = true -> processSyncQueue s = s.
Proof. intros H. unfold processSyncQueue. rewrite H. reflexivity. Qed.

Lemma processSyncQueue_empty (s : SyncState) :
  syncQueue s = [] -> processSyncQueue s = s.
Proof.
  intros H. unfold processSyncQueue. rewrite H, orb_true_r. reflexivity.
Qed.

Lemma processSyncQueue_begin (s : SyncState) :
  isSyncing s = false -> syncQueue s <> [] ->
  processSyncQueue s =
  drain_loop
    (begin_pass (set_syncQueue (set_isSyncing s true) []) (syncQueue s))
    (syncQueue s).
Proof.
  intros H Hq. unfold processSyncQueue. rewrite H.
  change (syncQueue (set_isSyncing s true)) with (syncQueue s).
  destruct (syncQueue s); [congruence | reflexivity].
Qed.

Lemma queueSync_inv (s : SyncState) (p : path) :
  Inv s -> insight_path p -> Inv (queueSync s p).
Proof.
  intros I Hp. constructor; simpl.
  - apply set_add_nodup, I.
  - apply set_add_forall; [apply I | exact Hp].
  - apply I.
  - apply I.
  - apply I.
  - reflexivity.
Qed.

Lemma send_delete_inv (s : SyncState) (p : path) (tq : option path) :
  Inv s -> (forall x, tq = Some x -> insight_path x) ->
  Inv (send_delete s p tq).
Proof.
  intros I Htq. constructor; simpl; try apply I.
  - intros x Hx. apply in_app_iff in Hx as [Hx|[Hx|[]]].
    + apply (inv_requeue _ I). exact Hx.
    + injection Hx as ->. apply Htq. reflexivity.
  - intros Hs. rewrite drains_app. simpl. rewrite app_nil_r.
    apply I. exact Hs.
  - intros Hs. rewrite drains_app. simpl. rewrite app_nil_r.
    apply I. exact Hs.
Qed.

Lemma set_vault_inv (s : SyncState) (v : Vault) : Inv s -> Inv (set_vault s v).
Proof. intros I. constructor; simpl; apply I. Qed.

(** The loop continued from a state in which the pass holds no suspended
    call. *)
Lemma drain_loop_inv (s : SyncState) (done rest : list path) :
  NoDup (syncQueue s) -> Forall insight_path (syncQueue s) ->
  (forall p, In (AwaitDelete (Some p)) (tasks s) -> insight_path p) ->
  isSyncing s = true -> drains (tasks s) = [] ->
  NoDup (last (passes s) []) -> Forall insight_path (last (passes s) []) ->
  last (passes s) [] = done ++ rest ->
  Inv (drain_loop s rest).
Proof.
  intros H1 H2 H3 H4 H5 H6 H7 H8.
  destruct (drain_loop_cases s rest)
    as [(sk & q & r & Hrest & _ & _ & ->)|[_ ->]].
  - apply busy_inv with (t := AwaitRead q r) (done := done ++ sk); simpl; auto.
    + intros p Hp. apply in_app_iff in Hp as [Hp|[Hp|[]]]; [auto|discriminate].
    + rewrite drains_app, H5. reflexivity.
    + rewrite H8, Hrest, <- app_assoc. reflexivity.
  - destruct (finish_pass_fields s) as (_ & Eq & Es & Et & _ & _ & Etm).
    apply idle_inv; rewrite ?Eq, ?Et; auto.
Qed.

Lemma resume_drain (s : SyncState) (i : nat) (t : Task) :
  Inv s -> nth_error (tasks s) i = Some t -> is_drain t = true ->
  isSyncing s = true /\
  drains (tasks s) = [t] /\
  drains (tasks (resume s i)) = [] /\
  exists done,
    NoDup (last (passes s) []) /\
    Forall insight_path (last (passes s) []) /\
    last (passes s) [] = done ++ worklist t.
Proof.
  intros I Hn Ht.
  assert (Hin := drains_nth_in _ _ _ Hn Ht).
  destruct (isSyncing s) eqn:Es.
  - destruct (inv_busy _ I Es) as (t0 & done & Hd & Hnd & Hfa & Hl).
    destruct (drains_remove_only _ _ _ _ Hn Ht Hd) as [-> Hrm].
    repeat split; auto. exists done. auto.
  - rewrite (inv_idle _ I Es) in Hin. destruct Hin.
Qed.

Lemma worklist_insight (s : SyncState) (t : Task) (done : list path) (p : path) :
  Forall insight_path (last (passes s) []) ->
  last (passes s) [] = done ++ worklist t ->
  In p (worklist t) -> insight_path p.
Proof.
  intros Hfa Hl Hp. rewrite Forall_forall in Hfa. apply Hfa.
  rewrite Hl. apply in_app_iff. right. exact Hp.
Qed.

Lemma resume_requeue (s : SyncState) (i : nat) (p : path) :
  Inv s ->
  forall x, In (AwaitDelete (Some x)) (tasks (resume s i)) -> insight_path x.
Proof.
  intros I x Hx. apply (inv_requeue _ I). eapply remove_nth_in. exact Hx.
Qed.

Lemma step_inv (s s' : SyncState) (l : label) :
  Inv s -> step s l = Some s' -> Inv s'.
Proof.
  intros I Hstep. destruct l as [f|f|f|f old| |i r|i ok|i ok|v]; simpl in Hstep.
  - (* create *)
    injection Hstep as <-. unfold onFileCreate.
    destruct (instanceof_TFile f); simpl; [|exact I].
    destruct (isInsightNote f) eqn:E; simpl; [|exact I].
    apply queueSync_inv; [exact I|]. rewrite isInsightNote_prefix in E. exact E.
  - (* modify *)
    injection Hstep as <-. unfold onFileModify.
    destruct (instanceof_TFile f); simpl; [|exact I].
    destruct (isInsightNote f) eqn:E; simpl; [|exact I].
    apply queueSync_inv; [exact I|]. rewrite isInsightNote_prefix in E. exact E.
  - (* delete *)
    injection Hstep as <-. unfold onFileDelete.
    destruct (startsWith (file_path f) (lit "Insights/")); simpl; [|exact I].
    apply send_delete_inv; [exact I | discriminate].
  - (* rename *)
    injection Hstep as <-. unfold onFileRename.
    destruct (startsWith old (lit "Insights/")) eqn:Eo;
      destruct (startsWith (file_path f) (lit "Insights/")) eqn:En; simpl.
    + apply send_delete_inv; [exact I|].
      destruct (instanceof_TFile f); [|discriminate].
      intros x [= <-]. exact En.
    + apply send_delete_inv; [exact I | discriminate].
    + destruct (instanceof_TFile f); [|exact I].
      apply queueSync_inv; [exact I | exact En].
    + exact I.
  - (* timer *)
    destruct (drainTimer s); [|discriminate]. injection Hstep as <-.
    destruct (isSyncing s) eqn:Es.
    + rewrite processSyncQueue_busy by exact Es.
      constructor; simpl; try apply I. congruence.
    + destruct (syncQueue s) as [|p0 q0] eqn:Eq.
      * rewrite processSyncQueue_empty by exact Eq.
        constructor; simpl; try apply I; try congruence.
      * rewrite processSyncQueue_begin; [|exact Es|simpl; congruence].
        apply drain_loop_inv with (done := []); simpl.
        -- constructor.
        -- constructor.
        -- apply I.
        -- reflexivity.
        -- apply (inv_idle _ I Es).
        -- rewrite last_last. apply I.
        -- rewrite last_last. apply I.
        -- rewrite last_last. reflexivity.
  - (* read settled *)
    destruct (nth_error (tasks s) i) as [[p rest|p rest|tq]|] eqn:Hn;
      try discriminate.
    injection Hstep as <-.
    destruct (resume_drain _ _ _ I Hn eq_refl)
      as (Es & Hd & Hrm & done & Hnd & Hfa & Hl).
    simpl in Hl. unfold read_settled. destruct r as [content|].
    + destruct (parseFrontmatter content) as [fm body].
      apply busy_inv with (t := AwaitIndex p rest) (done := done); simpl;
        try apply I; auto.
      * intros x Hx. apply in_app_iff in Hx as [Hx|[Hx|[]]]; [|discriminate].
        apply (resume_requeue s i p I x Hx).
      * rewrite drains_app. simpl in Hrm. rewrite Hrm. reflexivity.
    + apply drain_loop_inv with (done := done ++ [p]); simpl; auto.
      * apply set_add_nodup, I.
      * apply set_add_forall; [apply I|].
        apply (worklist_insight s (AwaitRead p rest) done); simpl; auto.
      * apply (resume_requeue s i p I).
      * rewrite Hl, <- app_assoc. reflexivity.
  - (* index settled *)
    destruct (nth_error (tasks s) i) as [[p rest|p rest|tq]|] eqn:Hn;
      try discriminate.
    injection Hstep as <-.
    destruct (resume_drain _ _ _ I Hn eq_refl)
      as (Es & Hd & Hrm & done & Hnd & Hfa & Hl).
    simpl in Hl. unfold index_settled. destruct ok.
    + apply drain_loop_inv with (done := done ++ [p]); simpl; auto;
        try apply I.
      * apply (resume_requeue s i p I).
      * rewrite Hl, <- app_assoc. reflexivity.
    + apply drain_loop_inv with (done := done ++ [p]); simpl; auto.
      * apply set_add_nodup, I.
      * apply set_add_forall; [apply I|].
        apply (worklist_insight s (AwaitIndex p rest) done); simpl; auto.
      * apply (resume_requeue s i p I).
      * rewrite Hl, <- app_assoc. reflexivity.
  - (* delete settled *)
    destruct (nth_error (tasks s) i) as [[p rest|p rest|tq]|] eqn:Hn;
      try discriminate.
    injection Hstep as <-.
    assert (Hrm : drains (tasks (resume s i)) = drains (tasks s)).
    { simpl. apply (drains_remove_other _ _ _ Hn). reflexivity. }
    assert (I' : Inv (resume s i)).
    { constructor; simpl; try apply I.
      - apply (resume_requeue s i [] I).
      - simpl in Hrm. rewrite Hrm. apply I.
      - simpl in Hrm. rewrite Hrm. apply I. }
    unfold delete_settled. destruct tq as [p|]; [|exact I'].
    apply queueSync_inv; [exact I'|].
    apply (inv_requeue _ I). eapply nth_error_In. exact Hn.
  - (* vault *)
    injection Hstep as <-. apply set_vault_inv. exact I.
Qed.

Lemma exec_inv (ls : list label) (s s' : SyncState) :
  Inv s -> exec s ls = Some s' -> Inv s'.
Proof.
  revert s; induction ls as [|l ls IH]; intros s I; simpl.
  - intros [= <-]. exact I.
  - destruct (step s l) as [s1|] eqn:E; [|discriminate].
    apply IH. exact (step_inv _ _ _ I E).
Qed.

Lemma reachable_inv (s : SyncState) : reachable s -> Inv s.
Proof.
  intros (v & ls & H). exact (exec_inv _ _ _ (init_inv v) H).
Qed.

End Invariant.

Section Effects.

Lemma upserts_for_app (P : path) (cs : list RemoteCall) (c : RemoteCall) :
  upserts_for P (cs ++ [c]) =
  (upserts_for P cs + (if is_upsert_for P c then 1 else 0))%nat.
Proof.
  unfold upserts_for. rewrite filter_app, length_app. simpl.
  destruct (is_upsert_for P c); reflexivity.
Qed.

Lemma untouched_same (s s' : SyncState) :
  isSyncing s' = isSyncing s -> tasks s' = tasks s ->
  passes s' = passes s -> incl (syncQueue s) (syncQueue s') ->
  calls s' = calls s ->
  untouched s s'.
Proof.
  intros H1 H2 H3 H4 H5. unfold untouched. rewrite H2, H5.
  split; [exact H1|]. split; [reflexivity|]. split; [exact H3|].
  split; [exact H4|]. split; auto.
Qed.

Lemma untouched_refl (s : SyncState) : untouched s s.
Proof. apply untouched_same; auto. apply incl_refl. Qed.

Lemma untouched_queueSync (s : SyncState) (p : path) :
  untouched s (queueSync s p).
Proof. apply untouched_same; auto. apply set_add_incl. Qed.

Lemma delete_requests_cases (p : path) :
  delete_requests p = [deleteInsight p] \/ delete_requests p = [].
Proof.
  unfold delete_requests. destruct (encodeURIComponent p); auto.
Qed.

Lemma calls_send_delete (s : SyncState) (p : path) (tq : option path) :
  calls (send_delete s p tq) = calls s ++ delete_requests p.
Proof. reflexivity. Qed.

(** What [deleteInsight] sends: the delete of the path when the path can
    be encoded, and nothing when [encodeURIComponent] throws. *)
Lemma send_delete_calls (s : SyncState) (p : path) (tq : option path) :
  (encodeURIComponent p <> None ->
   calls (send_delete s p tq) = calls s ++ [deleteInsight p]) /\
  (encodeURIComponent p = None -> calls (send_delete s p tq) = calls s).
Proof.
  rewrite calls_send_delete. unfold delete_requests.
  destruct (encodeURIComponent p) as [encodedPath|]; split; intros H.
  - reflexivity.
  - discriminate.
  - congruence.
  - apply app_nil_r.
Qed.

Lemma untouched_send_delete (s : SyncState) (p : path) (tq : option path) :
  untouched s (send_delete s p tq).
Proof.
  unfold untouched. simpl.
  split; [reflexivity|].
  split; [rewrite drains_app; simpl; apply app_nil_r|].
  split; [reflexivity|]. split; [apply incl_refl|]. split.
  - intros pl H. apply in_app_iff in H as [H|H]; [exact H|].
    destruct (delete_requests_cases p) as [E|E]; rewrite E in H.
    + destruct H as [H|[]]. discriminate.
    + destruct H.
  - intros P.
    destruct (delete_requests_cases p) as [E|E]; rewrite E.
    + rewrite upserts_for_app. simpl. lia.
    + rewrite app_nil_r. reflexivity.
Qed.

Lemma untouched_trans (s1 s2 s3 : SyncState) :
  untouched s1 s2 -> untouched s2 s3 -> untouched s1 s3.
Proof.
  intros (A1 & A2 & A3 & A4 & A5 & A6) (B1 & B2 & B3 & B4 & B5 & B6).
  unfold untouched.
  split; [congruence|]. split; [congruence|]. split; [congruence|].
  split; [eapply incl_tran; eassumption|]. split; [auto|].
  intros P. rewrite B6. apply A6.
Qed.

(** The steps that do not belong to a pass leave it untouched. *)
Lemma step_untouched (s s' : SyncState) (l : label) :
  step s l = Some s' ->
  begins_pass s l = false ->
  match l with
  | ReadSettled _ _ | IndexSettled _ _ => True
  | _ => untouched s s'
  end.
Proof.
  intros Hstep Hb. destruct l as [f|f|f|f old| |i r|i ok|i ok|v];
    simpl in Hstep; auto.
  - injection Hstep as <-. unfold onFileCreate.
    destruct (negb (instanceof_TFile f) || negb (isInsightNote f));
      [apply untouched_refl | apply untouched_queueSync].
  - injection Hstep as <-. unfold onFileModify.
    destruct (negb (instanceof_TFile f) || negb (isInsightNote f));
      [apply untouched_refl | apply untouched_queueSync].
  - injection Hstep as <-. unfold onFileDelete.
    destruct (negb (startsWith (file_path f) (lit "Insights/")));
      [apply untouched_refl | apply untouched_send_delete].
  - injection Hstep as <-. unfold onFileRename.
    destruct (startsWith old (lit "Insights/"));
      destruct (startsWith (file_path f) (lit "Insights/")); simpl;
      try apply untouched_send_delete; try apply untouched_refl.
    destruct (instanceof_TFile f);
      [apply untouched_queueSync | apply untouched_refl].
  - destruct (drainTimer s); [|discriminate]. injection Hstep as <-.
    simpl in Hb. destruct (isSyncing s) eqn:Es.
    + rewrite processSyncQueue_busy by exact Es.
      apply untouched_same; auto. apply incl_refl.
    + simpl in Hb. apply negb_false_iff in Hb. apply Nat.eqb_eq in Hb.
      apply length_zero_iff_nil in Hb.
      rewrite processSyncQueue_empty by exact Hb.
      apply untouched_same; auto. apply incl_refl.
  - destruct (nth_error (tasks s) i) as [[p rest|p rest|tq]|] eqn:Hn;
      try discriminate.
    injection Hstep as <-.
    assert (U : untouched s (resume s i)).
    { unfold untouched. simpl.
      split; [reflexivity|].
      split; [apply (drains_remove_other _ _ _ Hn); reflexivity|].
      split; [reflexivity|]. split; [apply incl_refl|]. split; auto. }
    unfold delete_settled. destruct tq as [p|]; [|exact U].
    eapply untouched_trans; [exact U | apply untouched_queueSync].
  - injection Hstep as <-. apply untouched_same; auto. apply incl_refl.
Qed.

Lemma drain_loop_keeps (s : SyncState) (paths : list path) :
  vault (drain_loop s paths) = vault s /\
  syncQueue (drain_loop s paths) = syncQueue s /\
  calls (drain_loop s paths) = calls s /\
  passes (drain_loop s paths) = passes s.
Proof.
  destruct (drain_loop_cases s paths) as [(sk & q & r & _ & _ & _ & ->)|[_ ->]].
  - repeat split.
  - destruct (finish_pass_fields s) as (A & B & _ & _ & C & D & _). auto.
Qed.

(** Every step taken while no pass begins keeps the pending set and the
    list of snapshots. *)
Lemma step_quiet (s s' : SyncState) (l : label) :
  step s l = Some s' -> begins_pass s l = false ->
  incl (syncQueue s) (syncQueue s') /\ passes s' = passes s.
Proof.
  intros Hstep Hb. assert (U := step_untouched _ _ _ Hstep Hb).
  destruct l as [f|f|f|f old| |i r|i ok|i ok|v];
    try (destruct U as (_ & _ & U3 & U4 & _); split; assumption).
  - simpl in Hstep.
    destruct (nth_error (tasks s) i) as [[p rest|p rest|tq]|]; try discriminate.
    injection Hstep as <-. unfold read_settled. destruct r as [content|].
    + destruct (parseFrontmatter content). simpl. split; [apply incl_refl|auto].
    + destruct (drain_loop_keeps
                  (set_syncQueue (resume s i) (set_add (syncQueue (resume s i)) p))
                  rest) as (_ & -> & _ & ->).
      simpl. split; [apply set_add_incl | reflexivity].
  - simpl in Hstep.
    destruct (nth_error (tasks s) i) as [[p rest|p rest|tq]|]; try discriminate.
    injection Hstep as <-. unfold index_settled. destruct ok.
    + destruct (drain_loop_keeps (resume s i) rest) as (_ & -> & _ & ->).
      simpl. split; [apply incl_refl | reflexivity].
    + destruct (drain_loop_keeps
                  (set_syncQueue (resume s i) (set_add (syncQueue (resume s i)) p))
                  rest) as (_ & -> & _ & ->).
      simpl. split; [apply set_add_incl | reflexivity].
Qed.

Lemma busy_not_begin (s : SyncState) (l : label) :
  isSyncing s = true -> begins_pass s l = false.
Proof. intros H. destruct l; simpl; auto. rewrite H. reflexivity. Qed.

Lemma exec_quiet_keeps (ls : list label) (s s' : SyncState) :
  exec_quiet s ls = Some s' -> incl (syncQueue s) (syncQueue s').
Proof.
  revert s; induction ls as [|l ls IH]; intros s; simpl.
  - intros [= <-]. apply incl_refl.
  - destruct (begins_pass s l) eqn:Hb; [discriminate|].
    destruct (step s l) as [s1|] eqn:E; [|discriminate].
    intros H. eapply incl_tran; [|exact (IH _ H)].
    apply (step_quiet _ _ _ E Hb).
Qed.

Lemma exec_pass_keeps (ls : list label) (s s' : SyncState) :
  exec_pass s ls = Some s' -> incl (syncQueue s) (syncQueue s').
Proof.
  revert s; induction ls as [|l ls IH]; intros s; simpl.
  - intros [= <-]. apply incl_refl.
  - destruct (isSyncing s) eqn:Es; [|discriminate].
    destruct (step s l) as [s1|] eqn:E; [|discriminate].
    intros H. eapply incl_tran; [|exact (IH _ H)].
    apply (step_quiet _ _ _ E (busy_not_begin _ l Es)).
Qed.

Lemma exec_pass_inv (ls : list label) (s s' : SyncState) :
  Inv s -> exec_pass s ls = Some s' -> Inv s'.
Proof.
  revert s; induction ls as [|l ls IH]; intros s I; simpl.
  - intros [= <-]. exact I.
  - destruct (isSyncing s); [|discriminate].
    destruct (step s l) as [s1|] eqn:E; [|discriminate].
    apply IH. exact (step_inv _ _ _ I E).
Qed.

(** A pass sends upserts only for paths of its snapshot. *)
Lemma step_upserts_in_snapshot (s s' : SyncState) (l : label) :
  Inv s -> step s l = Some s' -> begins_pass s l = false ->
  forall payload,
    In (indexInsight payload) (calls s') ->
    In (indexInsight payload) (calls s) \/
    In (payload_path payload) (last (passes s) []).
Proof.
  intros I Hstep Hb pl Hin. assert (U := step_untouched _ _ _ Hstep Hb).
  destruct l as [f|f|f|f old| |i r|i ok|i ok|v];
    try (destruct U as (_ & _ & _ & _ & U5 & _); left; apply U5; exact Hin).
  - simpl in Hstep.
    destruct (nth_error (tasks s) i) as [[p rest|p rest|tq]|] eqn:Hn;
      try discriminate.
    injection Hstep as <-.
    destruct (resume_drain _ _ _ I Hn eq_refl)
      as (_ & _ & _ & done & _ & _ & Hl).
    unfold read_settled in Hin. destruct r as [content|].
    + destruct (parseFrontmatter content) as [fm body]. simpl in Hin.
      apply in_app_iff in Hin as [Hin|[Hin|[]]]; [left; exact Hin|].
      injection Hin as <-. right. simpl. rewrite Hl.
      apply in_app_iff. right. left. reflexivity.
    + destruct (drain_loop_keeps
                  (set_syncQueue (resume s i) (set_add (syncQueue (resume s i)) p))
                  rest) as (_ & _ & Hc & _).
      rewrite Hc in Hin. left. exact Hin.
  - simpl in Hstep.
    destruct (nth_error (tasks s) i) as [[p rest|p rest|tq]|] eqn:Hn;
      try discriminate.
    injection Hstep as <-. unfold index_settled in Hin. destruct ok.
    + destruct (drain_loop_keeps (resume s i) rest) as (_ & _ & Hc & _).
      rewrite Hc in Hin. left. exact Hin.
    + destruct (drain_loop_keeps
                  (set_syncQueue (resume s i) (set_add (syncQueue (resume s i)) p))
                  rest) as (_ & _ & Hc & _).
      rewrite Hc in Hin. left. exact Hin.
Qed.

Lemma begin_snapshot (s s' : SyncState) :
  isSyncing s = false -> syncQueue s <> [] ->
  step s TimerFire = Some s' ->
  passes s' = passes s ++ [syncQueue s].
Proof.
  intros Es Hq Hstep. simpl in Hstep.
  destruct (drainTimer s); [|discriminate]. injection Hstep as <-.
  rewrite processSyncQueue_begin; [|exact Es|exact Hq].
  destruct (drain_loop_keeps
              (begin_pass (set_syncQueue (set_isSyncing (set_drainTimer s false) true) [])
                 (syncQueue (set_drainTimer s false)))
              (syncQueue (set_drainTimer s false))) as (_ & _ & _ & ->).
  reflexivity.
Qed.

End Effects.

(** C2 (amended). In every reachable state at most one drain pass is in
    progress, and one is exactly when the in-progress flag is set, in which
    case a further call of [processSyncQueue] does nothing. While a pass
    runs no snapshot is taken and every upsert it sends is for a path of
    its own snapshot, so a path added meanwhile is processed by the running
    pass only when the snapshot holds it as well. A path of the pending set
    stays there as long as no pass begins, and the snapshot of the next
    pass is the whole pending set, with that path. *)
Theorem one_pass_at_a_time (s : SyncState) :
  reachable s ->
  (length (drains (tasks s)) <= 1)%nat /\
  (isSyncing s = true <-> drains (tasks s) <> []) /\
  (isSyncing s = true -> processSyncQueue s = s) /\
  (forall l s',
      isSyncing s = true -> step s l = Some s' ->
      passes s' = passes s /\
      forall payload,
        In (indexInsight payload) (calls s') ->
        In (indexInsight payload) (calls s) \/
        In (payload_path payload) (last (passes s) [])) /\
  (forall P ls s1 s2,
      In P (syncQueue s) ->
      exec_quiet s ls = Some s1 ->
      isSyncing s1 = false ->
      step s1 TimerFire = Some s2 ->
      In P (syncQueue s1) /\ passes s2 = passes s1 ++ [syncQueue s1]).
Proof.
  intros Hr. assert (I := reachable_inv _ Hr).
  split; [|split; [|split; [|split]]].
  - destruct (isSyncing s) eqn:Es.
    + destruct (inv_busy _ I Es) as (t & done & -> & _). simpl. lia.
    + rewrite (inv_idle _ I Es). simpl. lia.
  - split.
    + intros Es. destruct (inv_busy _ I Es) as (t & done & -> & _). discriminate.
    + intros Hd. destruct (isSyncing s) eqn:Es; [reflexivity|].
      elim Hd. apply (inv_idle _ I Es).
  - apply processSyncQueue_busy.
  - intros l s' Es Hstep. split.
    + apply (step_quiet _ _ _ Hstep (busy_not_begin _ l Es)).
    + apply (step_upserts_in_snapshot _ _ _ I Hstep (busy_not_begin _ l Es)).
  - intros P ls s1 s2 HP Hq Es1 Hstep.
    assert (HP1 : In P (syncQueue s1)) by (apply (exec_quiet_keeps _ _ _ Hq); exact HP).
    split; [exact HP1|].
    apply begin_snapshot; auto. intros E. rewrite E in HP1. destruct HP1.
Qed.

Lemma one_pass_at_a_time_witness :
  let s := state_after (vault_of [note_a; note_b])
             [FileCreate (TFile note_a); FileCreate (TFile note_b); TimerFire;
              FileModify (TFile note_b)] in
  let ls := [ReadSettled 0 (Some (lit "X")); IndexSettled 0 true;
             ReadSettled 0 (Some (lit "Y")); IndexSettled 0 true] in
  let s1 := match exec_quiet s ls with Some x => x | None => s end in
  let s2 := processSyncQueue (set_drainTimer s1 false) in
  reachable s /\
  (length (drains (tasks s)) <= 1)%nat /\
  (isSyncing s = true <-> drains (tasks s) <> []) /\
  In note_b (syncQueue s1) /\
  passes s2 = passes s1 ++ [syncQueue s1].
Proof.
  intros s ls s1 s2.
  assert (H : reachable s).
  { exists (vault_of [note_a; note_b]),
      [FileCreate (TFile note_a); FileCreate (TFile note_b); TimerFire;
       FileModify (TFile note_b)].
    reflexivity. }
  destruct (one_pass_at_a_time s H) as (H1 & H2 & _ & _ & H5).
  split; [exact H|]. split; [exact H1|]. split; [exact H2|].
  apply (H5 note_b ls s1 s2).
  - left. reflexivity.
  - reflexivity.
  - reflexivity.
  - reflexivity.
Defined.

(** C2, as stated, fails: with the snapshot [a.md, b.md] and the pass
    waiting for the read of [a.md], a modification of [b.md] adds that path
    to the pending set, and the running pass then sends the upsert for
    [b.md] all the same. *)
Lemma pass_processes_added_path : ~ added_path_skipped_by_pass.
Proof.
  intros H.
  pose (s := state_after (vault_of [note_a; note_b])
               [FileCreate (TFile note_a); FileCreate (TFile note_b);
                TimerFire]).
  pose (s1 := onFileModify s (TFile note_b)).
  pose (ls := [ReadSettled 0 (Some (lit "X")); IndexSettled 0 true;
               ReadSettled 0 (Some (lit "Y"))]).
  pose (s2 := match exec_pass s1 ls with Some x => x | None => s1 end).
  pose (payload := {| payload_path := note_b; payload_content := lit "Y";
                      payload_frontmatter := empty_frontmatter |}).
  specialize (H s s1 s2 (FileModify (TFile note_b)) ls note_b payload).
  assert (Hin : In (indexInsight payload) (calls s1)).
  { apply H.
    - exists (vault_of [note_a; note_b]),
        [FileCreate (TFile note_a); FileCreate (TFile note_b); TimerFire].
      reflexivity.
    - reflexivity.
    - vm_compute. intros [].
    - reflexivity.
    - vm_compute. left. reflexivity.
    - reflexivity.
    - reflexivity.
    - vm_compute. right. left. reflexivity. }
  vm_compute in Hin. exact Hin.
Qed.

Section Continuation.

Lemma resolves_vault (s s' : SyncState) (p : path) :
  vault s' = vault s -> resolves s' p = resolves s p.
Proof. intros H. unfold resolves. rewrite H. reflexivity. Qed.

Lemma resolves_iff (s : SyncState) (p : path) :
  resolves s p = true <-> vault s p = Some KFile /\ insight_path p.
Proof.
  unfold resolves, getAbstractFileByPath, insight_path.
  destruct (vault s p) as [[|]|]; simpl.
  - rewrite isInsightNote_prefix. simpl. tauto.
  - split; [discriminate | intros [[=] _]].
  - split; [discriminate | intros [[=] _]].
Qed.

(** The loop does not pass over a path that resolves. *)
Lemma drain_loop_reaches (s : SyncState) (paths : list path) (P : path) :
  In P paths -> resolves s P = true ->
  exists skipped q rest,
    paths = skipped ++ q :: rest /\
    drain_loop s paths = suspend s (AwaitRead q rest) /\
    In P (q :: rest).
Proof.
  intros HP Hres.
  destruct (drain_loop_cases s paths)
    as [(sk & q & r & Hp & Hsk & _ & Heq)|[Hall _]].
  - exists sk, q, r. split; [exact Hp|]. split; [exact Heq|].
    rewrite Hp in HP. apply in_app_iff in HP as [HP|HP]; [|exact HP].
    rewrite Forall_forall in Hsk. rewrite (Hsk _ HP) in Hres. discriminate.
  - rewrite Forall_forall in Hall. rewrite (Hall _ HP) in Hres. discriminate.
Qed.

Lemma begin_reaches (s s' : SyncState) (P : path) :
  isSyncing s = false -> In P (syncQueue s) -> resolves s P = true ->
  step s TimerFire = Some s' ->
  exists q rest,
    tasks s' = tasks s ++ [AwaitRead q rest] /\ In P (q :: rest) /\
    isSyncing s' = true /\ calls s' = calls s /\ vault s' = vault s.
Proof.
  intros Es HP Hres Hstep. simpl in Hstep.
  destruct (drainTimer s); [|discriminate]. injection Hstep as <-.
  rewrite processSyncQueue_begin;
    [|exact Es|intros E; simpl in E; rewrite E in HP; destruct HP].
  match goal with
  | |- context [drain_loop ?s0 ?ps] =>
      destruct (drain_loop_reaches s0 ps P HP) as (sk & q & r & _ & -> & Hin)
  end.
  - rewrite <- Hres. apply resolves_vault. reflexivity.
  - exists q, r. repeat split; auto.
Qed.

End Continuation.

Section OneUpsert.

Lemma set_add_idem (q : list path) (p : path) :
  set_add (set_add q p) p = set_add q p.
Proof.
  unfold set_add at 1.
  assert (H : existsb (jseqb p) (set_add q p) = true).
  { apply existsb_exists. exists p. split; [|apply jseqb_refl].
    apply set_add_in. right. reflexivity. }
  rewrite H. reflexivity.
Qed.

Lemma queueSync_idem (s : SyncState) (p : path) :
  queueSync (queueSync s p) p = queueSync s p.
Proof.
  unfold queueSync, processSyncQueueDebounced, set_drainTimer, set_syncQueue.
  simpl. rewrite set_add_idem. reflexivity.
Qed.

Lemma iter_queueSync (n : nat) (s : SyncState) (p : path) :
  Nat.iter (S n) (fun s0 => queueSync s0 p) s = queueSync s p.
Proof.
  induction n as [|n IH]; [reflexivity|].
  change (Nat.iter (S (S n)) (fun s0 => queueSync s0 p) s)
    with (queueSync (Nat.iter (S n) (fun s0 => queueSync s0 p) s) p).
  rewrite IH. apply queueSync_idem.
Qed.

Lemma count_once (q : list path) (p : path) :
  NoDup q -> In p q -> count_occ (list_eq_dec N.eq_dec) q p = 1%nat.
Proof.
  intros Hnd Hin.
  assert (H1 : (count_occ (list_eq_dec N.eq_dec) q p <= 1)%nat)
    by (apply NoDup_count_occ; exact Hnd).
  assert (H2 : (count_occ (list_eq_dec N.eq_dec) q p > 0)%nat)
    by (apply count_occ_In; exact Hin).
  lia.
Qed.

Variable P : path.
Variable c0 : nat.
Hypothesis P_insight : insight_path P.

Lemma is_upsert_for_path (payload : NotePayload) :
  is_upsert_for P (indexInsight payload) = true <-> payload_path payload = P.
Proof. simpl. apply jseqb_eq. Qed.

(** The loop continued for the rest of the snapshot keeps the account of
    the upserts for [P]. *)
Lemma continue_progress (s : SyncState) (rest : list path) :
  vault s P = Some KFile -> isSyncing s = true -> drains (tasks s) = [] ->
  (In P rest /\ upserts_for P (calls s) = c0) \/
  (~ In P rest /\ upserts_for P (calls s) = S c0) ->
  pass_progress P c0 (drain_loop s rest).
Proof.
  intros Hv Es Hd Hacc.
  assert (Hres : resolves s P = true) by (apply resolves_iff; auto).
  destruct (drain_loop_cases s rest)
    as [(sk & q & r & Hrest & Hsk & _ & ->)|[Hall ->]].
  - split; [exact Hv|]. simpl. rewrite Es.
    exists (AwaitRead q r). rewrite drains_app, Hd. split; [reflexivity|].
    simpl unsent. destruct Hacc as [[Hin Hc]|[Hnin Hc]].
    + left. split; [|exact Hc]. rewrite Hrest in Hin.
      apply in_app_iff in Hin as [Hin|Hin]; [|exact Hin].
      rewrite Forall_forall in Hsk. rewrite (Hsk _ Hin) in Hres. discriminate.
    + right. split; [|exact Hc]. intros Hin. apply Hnin. rewrite Hrest.
      apply in_app_iff. right. exact Hin.
  - destruct (finish_pass_fields s) as (Ev & _ & Ef & _ & Ec & _).
    split; [rewrite Ev; exact Hv|]. rewrite Ef, Ec.
    destruct Hacc as [[Hin Hc]|[Hnin Hc]]; [|exact Hc].
    rewrite Forall_forall in Hall. rewrite (Hall _ Hin) in Hres. discriminate.
Qed.

Lemma progress_untouched (s s' : SyncState) :
  untouched s s' -> vault s' P = Some KFile ->
  pass_progress P c0 s -> pass_progress P c0 s'.
Proof.
  intros (U1 & U2 & _ & _ & _ & U6) Hv [_ Hp]. split; [exact Hv|].
  rewrite U1, U2, U6. exact Hp.
Qed.

Lemma progress_step (s s' : SyncState) (l : label) :
  Inv s -> isSyncing s = true -> label_keeps P s l ->
  step s l = Some s' ->
  pass_progress P c0 s -> pass_progress P c0 s'.
Proof.
  intros I Es Hk Hstep Hp.
  assert (U := step_untouched _ _ _ Hstep (busy_not_begin _ l Es)).
  destruct Hp as [Hv Hp]. rewrite Es in Hp. destruct Hp as (t & Hd & Hacc).
  assert (Hp : pass_progress P c0 s).
  { split; [exact Hv|]. rewrite Es. exists t. auto. }
  destruct l as [f|f|f|f old| |i r|i ok|i ok|v].
  - apply (progress_untouched _ _ U); [|exact Hp].
    simpl in Hstep. injection Hstep as <-. unfold onFileCreate.
    destruct (negb (instanceof_TFile f) || negb (isInsightNote f)); exact Hv.
  - apply (progress_untouched _ _ U); [|exact Hp].
    simpl in Hstep. injection Hstep as <-. unfold onFileModify.
    destruct (negb (instanceof_TFile f) || negb (isInsightNote f)); exact Hv.
  - apply (progress_untouched _ _ U); [|exact Hp].
    simpl in Hstep. injection Hstep as <-. unfold onFileDelete.
    destruct (negb (startsWith (file_path f) (lit "Insights/"))); exact Hv.
  - apply (progress_untouched _ _ U); [|exact Hp].
    simpl in Hstep. injection Hstep as <-. unfold onFileRename.
    destruct (startsWith old (lit "Insights/"));
      destruct (startsWith (file_path f) (lit "Insights/")); simpl;
      try exact Hv.
    destruct (instanceof_TFile f); exact Hv.
  - apply (progress_untouched _ _ U); [|exact Hp].
    simpl in Hstep. destruct (drainTimer s); [|discriminate].
    injection Hstep as <-. rewrite processSyncQueue_busy by exact Es.
    exact Hv.
  - (* the read of the pass settles *)
    simpl in Hstep.
    destruct (nth_error (tasks s) i) as [[p rest|p rest|tq]|] eqn:Hn;
      try discriminate.
    injection Hstep as <-.
    destruct (resume_drain _ _ _ I Hn eq_refl)
      as (_ & Hd' & Hrm & done & Hnd & _ & Hl).
    rewrite Hd in Hd'. injection Hd' as ->. simpl in Hacc, Hl.
    assert (Hnd' : NoDup (p :: rest)).
    { rewrite Hl in Hnd. apply NoDup_app_remove_l in Hnd. exact Hnd. }
    unfold read_settled. destruct r as [content|].
    + destruct (parseFrontmatter content) as [fm body].
      split; [exact Hv|]. simpl. rewrite Es.
      exists (AwaitIndex p rest). rewrite drains_app. simpl in Hrm.
      rewrite Hrm. split; [reflexivity|]. simpl unsent.
      rewrite upserts_for_app. simpl is_upsert_for.
      destruct (jseqb p P) eqn:E.
      * apply jseqb_eq in E. subst p. inversion Hnd'; subst.
        destruct Hacc as [[_ Hc]|[Hnin _]].
        -- right. split; [assumption | lia].
        -- elim Hnin. left. reflexivity.
      * apply jseqb_neq in E. destruct Hacc as [[[Heq|Hin] Hc]|[Hnin Hc]].
        -- congruence.
        -- left. split; [exact Hin | lia].
        -- right. split; [|lia]. intros Hin. apply Hnin. right. exact Hin.
    + assert (Hne : p <> P).
      { intros ->. apply (Hk rest). exact Hn. }
      apply continue_progress; simpl; auto.
      destruct Hacc as [[[Heq|Hin] Hc]|[Hnin Hc]].
      * congruence.
      * left. auto.
      * right. split; [|exact Hc]. intros Hin. apply Hnin. right. exact Hin.
  - (* the upsert of the pass settles *)
    simpl in Hstep.
    destruct (nth_error (tasks s) i) as [[p rest|p rest|tq]|] eqn:Hn;
      try discriminate.
    injection Hstep as <-.
    destruct (resume_drain _ _ _ I Hn eq_refl)
      as (_ & Hd' & Hrm & _).
    rewrite Hd in Hd'. injection Hd' as ->. simpl in Hacc.
    unfold index_settled. destruct ok; apply continue_progress; simpl; auto.
  - apply (progress_untouched _ _ U); [|exact Hp].
    simpl in Hstep.
    destruct (nth_error (tasks s) i) as [[p rest|p rest|tq]|] eqn:Hn;
      try discriminate.
    injection Hstep as <-. unfold delete_settled.
    destruct tq; exact Hv.
  - simpl in Hstep. injection Hstep as <-. simpl in Hk.
    split; [exact Hk|]. simpl. rewrite Es. exists t. auto.
Qed.

Lemma progress_run (ls : list label) (s s' : SyncState) :
  Inv s -> exec_pass s ls = Some s' -> note_kept P s ls ->
  pass_progress P c0 s -> pass_progress P c0 s'.
Proof.
  revert s; induction ls as [|l ls IH]; intros s I; simpl.
  - intros [= <-] _ Hp. exact Hp.
  - destruct (isSyncing s) eqn:Es; [|discriminate].
    destruct (step s l) as [s1|] eqn:E; [|discriminate].
    intros Hrun [Hk Hkept] Hp.
    apply (IH s1); auto.
    + exact (step_inv _ _ _ I E).
    + exact (progress_step _ _ _ I Es Hk E Hp).
Qed.

End OneUpsert.

(** C4. Queueing a path [P] of [Insights/] [N >= 1] times leaves the
    pending set with exactly one entry for [P]; and when no pass is
    running, the pass that the next drain begins sends exactly one upsert
    for [P] by the time it completes, provided the note stays a file of the
    vault and reading it does not fail. *)
Theorem enqueue_is_idempotent (s : SyncState) (P : path) (N : nat) :
  reachable s ->
  insight_path P ->
  (1 <= N)%nat ->
  let sN := Nat.iter N (fun s0 => queueSync s0 P) s in
  count_occ (list_eq_dec N.eq_dec) (syncQueue sN) P = 1%nat /\
  (isSyncing s = false ->
   vault s P = Some KFile ->
   exists s1,
     step sN TimerFire = Some s1 /\
     forall ls s2,
       exec_pass s1 ls = Some s2 ->
       note_kept P s1 ls ->
       isSyncing s2 = false ->
       upserts_for P (calls s2) = S (upserts_for P (calls s))).
Proof.
  intros Hr HP HN sN. assert (I := reachable_inv _ Hr).
  assert (EsN : sN = queueSync s P).
  { unfold sN. destruct N as [|n]; [lia|]. apply iter_queueSync. }
  assert (IN : Inv sN) by (rewrite EsN; apply queueSync_inv; assumption).
  assert (Hin : In P (syncQueue sN)).
  { rewrite EsN. simpl. apply set_add_in. right. reflexivity. }
  split.
  - apply count_once; [apply IN | exact Hin].
  - intros Es Hv.
    assert (Ht : drainTimer sN = true) by (rewrite EsN; reflexivity).
    assert (Es' : isSyncing sN = false) by (rewrite EsN; exact Es).
    assert (Hv' : vault sN P = Some KFile) by (rewrite EsN; exact Hv).
    assert (Hc' : calls sN = calls s) by (rewrite EsN; reflexivity).
    exists (processSyncQueue (set_drainTimer sN false)).
    assert (Hstep : step sN TimerFire
                    = Some (processSyncQueue (set_drainTimer sN false))).
    { simpl. rewrite Ht. reflexivity. }
    split; [exact Hstep|]. intros ls s2 Hrun Hkept Es2.
    assert (Hres : resolves sN P = true) by (apply resolves_iff; auto).
    destruct (begin_reaches _ _ P Es' Hin Hres Hstep)
      as (q & r & Htasks & HPin & Esy & Hcalls & Hvault).
    assert (Hp : pass_progress P (upserts_for P (calls s))
                   (processSyncQueue (set_drainTimer sN false))).
    { split; [rewrite Hvault; exact Hv'|]. rewrite Esy.
      exists (AwaitRead q r). split.
      - rewrite Htasks, drains_app, (inv_idle _ IN Es'). reflexivity.
      - left. split; [exact HPin|]. rewrite Hcalls, Hc'. reflexivity. }
    assert (Hp2 := progress_run P _ HP ls _ _ (step_inv _ _ _ IN Hstep)
                     Hrun Hkept Hp).
    destruct Hp2 as [_ Hp2]. rewrite Es2 in Hp2. exact Hp2.
Qed.

Lemma enqueue_is_idempotent_witness :
  let s := init (vault_of [note_a]) in
  let sN := Nat.iter 3 (fun s0 => queueSync s0 note_a) s in
  let ls := [FileModify (TFile note_a); ReadSettled 0 (Some (lit "X"));
             IndexSettled 0 true] in
  reachable s /\ insight_path note_a /\ (1 <= 3)%nat /\
  count_occ (list_eq_dec N.eq_dec) (syncQueue sN) note_a = 1%nat /\
  exists s1 s2,
    step sN TimerFire = Some s1 /\ exec_pass s1 ls = Some s2 /\
    note_kept note_a s1 ls /\ isSyncing s2 = false /\
    upserts_for note_a (calls s2) = 1%nat.
Proof.
  intros s sN ls.
  assert (Hr : reachable s) by (exists (vault_of [note_a]), []; reflexivity).
  assert (HP : insight_path note_a) by reflexivity.
  assert (HN : (1 <= 3)%nat) by lia.
  destruct (enqueue_is_idempotent s note_a 3 Hr HP HN) as [Hcount Hpass].
  destruct (Hpass eq_refl eq_refl) as (s1 & Hstep & Hone).
  split; [exact Hr|]. split; [exact HP|]. split; [exact HN|].
  split; [exact Hcount|].
  assert (E1 : s1 = processSyncQueue (set_drainTimer sN false)).
  { vm_compute in Hstep. injection Hstep as <-. reflexivity. }
  pose (s2 := match exec_pass s1 ls with Some x => x | None => s1 end).
  assert (Hrun : exec_pass s1 ls = Some s2) by (subst s1; reflexivity).
  assert (Hkept : note_kept note_a s1 ls).
  { subst s1. simpl. repeat split. }
  assert (Es2 : isSyncing s2 = false) by (subst s2 s1; reflexivity).
  exists s1, s2. split; [exact Hstep|]. split; [exact Hrun|].
  split; [exact Hkept|]. split; [exact Es2|].
  exact (Hone ls s2 Hrun Hkept Es2).
Defined.



Section Awaited.

Lemma upserts_for_more (P : path) (cs extra : list RemoteCall) :
  (upserts_for P cs <= upserts_for P (cs ++ extra))%nat.
Proof. unfold upserts_for. rewrite filter_app, length_app. lia. Qed.

Lemma awaited_sent_mono (s s' : SyncState) (extra : list RemoteCall) :
  (forall p rest, In (AwaitIndex p rest) (tasks s') ->
                  In (AwaitIndex p rest) (tasks s)) ->
  calls s' = calls s ++ extra ->
  awaited_sent s -> awaited_sent s'.
Proof.
  intros Ht Hc Hs p rest Hin. rewrite Hc.
  apply Nat.le_trans with (2 := upserts_for_more p (calls s) extra).
  apply (Hs p rest). apply Ht. exact Hin.
Qed.

Lemma awaited_sent_loop (s : SyncState) (rest : list path) :
  awaited_sent s -> awaited_sent (drain_loop s rest).
Proof.
  intros Hs.
  destruct (drain_loop_cases s rest)
    as [(sk & q & r & _ & _ & _ & ->)|[_ ->]].
  - apply (awaited_sent_mono s _ []); [|symmetry; apply app_nil_r|exact Hs].
    intros p x Hin. simpl in Hin.
    apply in_app_iff in Hin as [Hin|[Hin|[]]]; [exact Hin | discriminate].
  - destruct (finish_pass_fields s) as (_ & _ & _ & Et & Ec & _).
    apply (awaited_sent_mono s _ []);
      [|rewrite Ec; symmetry; apply app_nil_r|exact Hs].
    intros p x Hin. rewrite Et in Hin. exact Hin.
Qed.

Lemma awaited_sent_resume (s : SyncState) (i : nat) :
  awaited_sent s -> awaited_sent (resume s i).
Proof.
  intros Hs p rest Hin. apply (Hs p rest).
  apply (remove_nth_in i). exact Hin.
Qed.

Lemma step_awaited_sent (s s' : SyncState) (l : label) :
  awaited_sent s -> step s l = Some s' -> awaited_sent s'.
Proof.
  intros Hs Hstep.
  assert (Hq : forall p, awaited_sent (queueSync s p)).
  { intros p. exact Hs. }
  assert (Hd : forall p tq, awaited_sent (send_delete s p tq)).
  { intros p tq. apply (awaited_sent_mono s _ (delete_requests p));
      [|reflexivity|exact Hs].
    intros x rest Hin. simpl in Hin.
    apply in_app_iff in Hin as [Hin|[Hin|[]]]; [exact Hin | discriminate]. }
  destruct l as [f|f|f|f old| |i r|i ok|i ok|v]; simpl in Hstep.
  - injection Hstep as <-. unfold onFileCreate.
    destruct (negb (instanceof_TFile f) || negb (isInsightNote f)); auto.
  - injection Hstep as <-. unfold onFileModify.
    destruct (negb (instanceof_TFile f) || negb (isInsightNote f)); auto.
  - injection Hstep as <-. unfold onFileDelete.
    destruct (negb (startsWith (file_path f) (lit "Insights/"))); auto.
  - injection Hstep as <-. unfold onFileRename.
    destruct (startsWith old (lit "Insights/"));
      destruct (startsWith (file_path f) (lit "Insights/")); simpl; auto.
    destruct (instanceof_TFile f); auto.
  - destruct (drainTimer s); [|discriminate]. injection Hstep as <-.
    unfold processSyncQueue.
    destruct (isSyncing (set_drainTimer s false)
              || (length (syncQueue (set_drainTimer s false)) =? 0)%nat);
      [exact Hs|].
    apply awaited_sent_loop. exact Hs.
  - destruct (nth_error (tasks s) i) as [[p rest|p rest|tq]|] eqn:Hn;
      try discriminate.
    injection Hstep as <-. unfold read_settled. destruct r as [content|].
    + intros x rest' Hin. simpl in Hin. simpl calls.
      rewrite upserts_for_app. apply in_app_iff in Hin as [Hin|[Hin|[]]].
      * apply remove_nth_in in Hin. specialize (Hs x rest' Hin). lia.
      * injection Hin as -> ->. simpl is_upsert_for.
        rewrite jseqb_refl. lia.
    + apply awaited_sent_loop. apply (awaited_sent_resume s i Hs).
  - destruct (nth_error (tasks s) i) as [[p rest|p rest|tq]|] eqn:Hn;
      try discriminate.
    injection Hstep as <-. unfold index_settled.
    destruct ok; apply awaited_sent_loop; apply (awaited_sent_resume s i Hs).
  - destruct (nth_error (tasks s) i) as [[p rest|p rest|tq]|] eqn:Hn;
      try discriminate.
    injection Hstep as <-. unfold delete_settled.
    destruct tq; apply (awaited_sent_resume s i Hs).
  - injection Hstep as <-. exact Hs.
Qed.

Lemma exec_awaited_sent (ls : list label) (s s' : SyncState) :
  awaited_sent s -> exec s ls = Some s' -> awaited_sent s'.
Proof.
  revert s; induction ls as [|l ls IH]; intros s Hs; simpl.
  - intros [= <-]. exact Hs.
  - destruct (step s l) as [s1|] eqn:E; [|discriminate].
    apply IH. exact (step_awaited_sent _ _ _ Hs E).
Qed.

Lemma reachable_awaited_sent (s : SyncState) :
  reachable s -> awaited_sent s.
Proof.
  intros (v & ls & Hrun). apply (exec_awaited_sent ls (init v)); [|exact Hrun].
  intros p rest [].
Qed.

End Awaited.

(** C3. When the upsert of a path [P] of the snapshot fails (the request
    had been sent), nothing is sent in reaction, [P] is put back into the
    pending set and the pass goes on with the paths after [P]: it suspends
    at the next one that resolves to an Insight note, or ends when there
    is none. When the pass completes, [P] is still pending and a further
    drain is scheduled; the pass which that drain begins has [P] in its
    snapshot and, when the note is still a file of the vault, works on it
    again: by the time that pass completes it has sent the upsert for [P]
    once more, provided the note stays a file and reading it does not
    fail. *)
Theorem failed_upsert_is_requeued
  (s s1 : SyncState) (i : nat) (P : path) (rest : list path) :
  reachable s ->
  nth_error (tasks s) i = Some (AwaitIndex P rest) ->
  step s (IndexSettled i false) = Some s1 ->
  (1 <= upserts_for P (calls s))%nat /\
  calls s1 = calls s /\
  In P (syncQueue s1) /\
  ((exists skipped q rest',
       rest = skipped ++ q :: rest' /\
       Forall (fun x => resolves s x = false) skipped /\
       resolves s q = true /\
       In (AwaitRead q rest') (tasks s1) /\ isSyncing s1 = true)
   \/ (Forall (fun x => resolves s x = false) rest /\ isSyncing s1 = false)) /\
  (forall ls s2,
      exec_pass s1 ls = Some s2 -> isSyncing s2 = false ->
      In P (syncQueue s2) /\ drainTimer s2 = true /\
      exists s3,
        step s2 TimerFire = Some s3 /\
        passes s3 = passes s2 ++ [syncQueue s2] /\
        (vault s2 P = Some KFile ->
         (exists t, In t (tasks s3) /\ is_drain t = true /\ In P (unsent t)) /\
         forall ls' s4,
           exec_pass s3 ls' = Some s4 ->
           note_kept P s3 ls' ->
           isSyncing s4 = false ->
           upserts_for P (calls s4) = S (upserts_for P (calls s2)))).
Proof.
  intros Hr Hn Hstep. assert (I := reachable_inv _ Hr).
  assert (I1 := step_inv _ _ _ I Hstep).
  destruct (resume_drain _ _ _ I Hn eq_refl)
    as (Es & _ & _ & done & _ & Hfa & Hl).
  assert (HPi : insight_path P).
  { apply (worklist_insight s (AwaitIndex P rest) done P Hfa Hl).
    left. reflexivity. }
  assert (Hsent : (1 <= upserts_for P (calls s))%nat).
  { apply (reachable_awaited_sent s Hr P rest).
    apply (nth_error_In _ _ Hn). }
  unfold step in Hstep. rewrite Hn in Hstep. injection Hstep as <-.
  set (s0 := set_syncQueue (resume s i) (set_add (syncQueue s) P)) in *.
  assert (HP : In P (syncQueue (drain_loop s0 rest))).
  { destruct (drain_loop_keeps s0 rest) as (_ & -> & _).
    apply set_add_in. right. reflexivity. }
  split; [exact Hsent|]. split.
  { destruct (drain_loop_keeps s0 rest) as (_ & _ & -> & _). reflexivity. }
  split; [exact HP|]. split.
  - destruct (drain_loop_cases s0 rest)
      as [(sk & q & r & Hrest & Hsk & Hq & ->)|[Hall ->]].
    + left. exists sk, q, r. split; [exact Hrest|].
      split; [exact Hsk|]. split; [exact Hq|]. split.
      * simpl. apply in_app_iff. right. left. reflexivity.
      * exact Es.
    + right. split; [exact Hall|].
      apply (finish_pass_fields s0).
  - intros ls s2 Hrun Es2.
    assert (I2 : Inv s2).
    { apply (exec_pass_inv ls _ _) with (2 := Hrun). exact I1. }
    assert (HP2 : In P (syncQueue s2))
      by (apply (exec_pass_keeps _ _ _ Hrun); exact HP).
    assert (Hne : syncQueue s2 <> [])
      by (intros E; rewrite E in HP2; destruct HP2).
    assert (Ht : drainTimer s2 = true) by (apply (inv_timer _ I2 Es2 Hne)).
    split; [exact HP2|]. split; [exact Ht|].
    exists (processSyncQueue (set_drainTimer s2 false)).
    assert (Hs3 : step s2 TimerFire
                  = Some (processSyncQueue (set_drainTimer s2 false))).
    { simpl. rewrite Ht. reflexivity. }
    split; [exact Hs3|]. split.
    + apply (begin_snapshot _ _ Es2 Hne Hs3).
    + intros Hv.
      assert (Hres : resolves s2 P = true) by (apply resolves_iff; auto).
      destruct (begin_reaches _ _ P Es2 HP2 Hres Hs3)
        as (q & r & Htasks & Hin & Esy & Hcalls & Hvault).
      split.
      * exists (AwaitRead q r). split.
        -- rewrite Htasks. apply in_app_iff. right. left. reflexivity.
        -- split; [reflexivity | exact Hin].
      * intros ls' s4 Hrun' Hkept Es4.
        assert (Hp : pass_progress P (upserts_for P (calls s2))
                       (processSyncQueue (set_drainTimer s2 false))).
        { split; [rewrite Hvault; exact Hv|]. rewrite Esy.
          exists (AwaitRead q r). split.
          - rewrite Htasks, drains_app, (inv_idle _ I2 Es2). reflexivity.
          - left. split; [exact Hin|]. rewrite Hcalls. reflexivity. }
        assert (Hp4 := progress_run P _ HPi ls' _ _
                         (step_inv _ _ _ I2 Hs3) Hrun' Hkept Hp).
        destruct Hp4 as [_ Hp4]. rewrite Es4 in Hp4. exact Hp4.
Qed.

Lemma failed_upsert_is_requeued_witness :
  let s := state_after (vault_of [note_a; note_b])
             [FileCreate (TFile note_a); FileCreate (TFile note_b); TimerFire;
              ReadSettled 0 (Some (lit "X"))] in
  let s1 := index_settled (resume s 0) note_a [note_b] false in
  let ls := [ReadSettled 0 (Some (lit "Y")); IndexSettled 0 true] in
  let s2 := match exec_pass s1 ls with Some x => x | None => s1 end in
  let s3 := processSyncQueue (set_drainTimer s2 false) in
  let ls' := [ReadSettled 0 (Some (lit "X")); IndexSettled 0 true] in
  let s4 := match exec_pass s3 ls' with Some x => x | None => s3 end in
  reachable s /\
  nth_error (tasks s) 0 = Some (AwaitIndex note_a [note_b]) /\
  step s (IndexSettled 0 false) = Some s1 /\
  upserts_for note_a (calls s) = 1%nat /\
  In note_a (syncQueue s1) /\
  In (AwaitRead note_b []) (tasks s1) /\
  isSyncing s2 = false /\ In note_a (syncQueue s2) /\ drainTimer s2 = true /\
  upserts_for note_a (calls s2) = 1%nat /\
  step s2 TimerFire = Some s3 /\
  isSyncing s4 = false /\
  upserts_for note_a (calls s4) = 2%nat.
Proof.
  intros s s1 ls s2 s3 ls' s4.
  assert (Hr : reachable s).
  { exists (vault_of [note_a; note_b]),
      [FileCreate (TFile note_a); FileCreate (TFile note_b); TimerFire;
       ReadSettled 0 (Some (lit "X"))].
    vm_compute. reflexivity. }
  assert (Hn : nth_error (tasks s) 0 = Some (AwaitIndex note_a [note_b]))
    by (vm_compute; reflexivity).
  assert (Hs : step s (IndexSettled 0 false) = Some s1)
    by (vm_compute; reflexivity).
  assert (Hrun : exec_pass s1 ls = Some s2) by (vm_compute; reflexivity).
  assert (Es2 : isSyncing s2 = false) by (vm_compute; reflexivity).
  assert (Hc : upserts_for note_a (calls s) = 1%nat)
    by (vm_compute; reflexivity).
  assert (Hc2 : upserts_for note_a (calls s2) = 1%nat)
    by (vm_compute; reflexivity).
  assert (Hv : vault s2 note_a = Some KFile) by (vm_compute; reflexivity).
  assert (Hrun' : exec_pass s3 ls' = Some s4) by (vm_compute; reflexivity).
  assert (Hkept : note_kept note_a s3 ls') by (vm_compute; tauto).
  assert (Es4 : isSyncing s4 = false) by (vm_compute; reflexivity).
  destruct (failed_upsert_is_requeued s s1 0 note_a [note_b] Hr Hn Hs)
    as (_ & _ & Hin & _ & Hend).
  destruct (Hend ls s2 Hrun Es2) as (Hin2 & Htimer & x & Hs3 & _ & Hnext).
  assert (Ex : x = s3).
  { assert (Hs3' : step s2 TimerFire = Some s3) by (vm_compute; reflexivity).
    congruence. }
  subst x.
  destruct (Hnext Hv) as (_ & Hagain).
  specialize (Hagain ls' s4 Hrun' Hkept Es4). rewrite Hc2 in Hagain.
  split; [exact Hr|]. split; [exact Hn|]. split; [exact Hs|].
  split; [exact Hc|]. split; [exact Hin|].
  split; [left; vm_compute; reflexivity|].
  split; [exact Es2|]. split; [exact Hin2|]. split; [exact Htimer|].
  split; [exact Hc2|]. split; [exact Hs3|]. split; [exact Es4|].
  exact Hagain.
Defined.

(* ================================================================= *)
(** * Properties of the query and of the plugin as loaded *)

Section Query.

Variable h : Host.
Variable file : TAbstractFile.
Variable pl : Plugin.
Variable panel : InsightPanelView.
Hypothesis panel_open : insightPanel pl = Some panel.

Lemma doQuery_read (content : jsstring) :
  host_read h (file_path file) = inl content ->
  let body := snd (parseFrontmatter content) in
  doQuery h file pl =
  try_catch
    (queryResult <-
       request (queryInsights (query_request pl body))
         (server_query h (query_request pl body)) ;;
     if (length queryResult =? 0)%nat then
       on_panel (updateResults body [] [fallback_question])
     else
       let generate :=
         {| current_question := body; retrieved_insights := queryResult |} in
       questionsResult <-
         request (generateQuestions generate) (server_generate h generate) ;;
       on_panel (updateResults body queryResult questionsResult))
    (fun error =>
       console_error (lit "Query failed:") ;;;
       notice (NoticeQueryFailed error) ;;;
       on_panel clearResults)
    (set_panel pl (Some (setLoading true panel))).
Proof.
  intros Hread body. unfold doQuery. rewrite panel_open.
  unfold bind at 1. unfold on_panel at 1. rewrite panel_open.
  unfold try_catch, bind at 1, await. rewrite Hread. reflexivity.
Qed.

End Query.

(** C7. When the retrieval for a question note returns no insight, the
    query ends normally with the panel showing the body, an empty insight
    list and the one fallback question, of type [amplify] and with the
    fixed prompt; the retrieval is the only request sent, so no generation
    is requested, and no notice is shown. *)
Theorem empty_retrieval_gives_fallback
  (h : Host) (file : TAbstractFile) (pl : Plugin) (panel : InsightPanelView)
  (content : jsstring) :
  isQuestionNote file = true ->
  insightPanel pl = Some panel ->
  host_read h (file_path file) = inl content ->
  let body := snd (parseFrontmatter content) in
  server_query h (query_request pl body) = inl [] ->
  let result := doQuery h file pl in
  snd result = inl tt /\
  insightPanel (fst result) =
    Some {| currentQuestion := Some body; insights := [];
            questions := [fallback_question]; isLoading := false |} /\
  cq_type fallback_question = amplify /\
  cq_question fallback_question =
    lit "No related Insights found. What new understanding are you seeking with this question?" /\
  requests (fst result) = requests pl ++ [queryInsights (query_request pl body)] /\
  (forall g, ~ In (generateQuestions g)
               [queryInsights (query_request pl body)]) /\
  notices (fst result) = notices pl.
Proof.
  intros _ Hpanel Hread body Hquery result. unfold result.
  rewrite (doQuery_read h file pl panel Hpanel content Hread).
  fold body. unfold try_catch, bind, request. rewrite Hquery. simpl.
  repeat split. intros g [H|[]]. discriminate.
Qed.

Lemma empty_retrieval_gives_fallback_witness :
  let h := {| activeFile := Some (TFile (lit "Questions/q.md"));
              panel_leaves := 1; right_leaf := true; base_path := lit "/v";
              host_read := fun _ => inl (lit "why");
              server_query := fun _ => inl [];
              server_generate := fun _ => inr (lit "unused");
              server_reindex := fun _ => inr (lit "unused");
              server_health := inr (lit "unused") |} in
  let pl := create_view (onload None) in
  let result := doQuery h (TFile (lit "Questions/q.md")) pl in
  snd result = inl tt /\
  insightPanel (fst result) =
    Some {| currentQuestion := Some (lit "why"); insights := [];
            questions := [fallback_question]; isLoading := false |}.
Proof.
  intros h pl result.
  destruct (empty_retrieval_gives_fallback h (TFile (lit "Questions/q.md"))
              pl new_InsightPanelView (lit "why") eq_refl eq_refl eq_refl
              eq_refl) as (H1 & H2 & _).
  split; [exact H1 | exact H2].
Defined.

(** C8. When the retrieval fails, or the generation fails after a
    retrieval that returned insights, the query ends normally (the error
    is caught), the panel is cleared (no current question, no insights, no
    questions, not loading), one notice with the error is shown, each
    request was sent once and none again, and no further query is
    scheduled. *)
Theorem failed_query_clears_panel
  (h : Host) (file : TAbstractFile) (pl : Plugin) (panel : InsightPanelView)
  (content : jsstring) (error : Exn) :
  insightPanel pl = Some panel ->
  host_read h (file_path file) = inl content ->
  let body := snd (parseFrontmatter content) in
  let query := query_request pl body in
  let sent :=
    match server_query h query with
    | inr _ => [queryInsights query]
    | inl found =>
        [queryInsights query;
         generateQuestions {| current_question := body;
                              retrieved_insights := found |}]
    end in
  (server_query h query = inr error \/
   exists found,
     server_query h query = inl found /\ found <> [] /\
     server_generate h {| current_question := body;
                          retrieved_insights := found |} = inr error) ->
  let result := doQuery h file pl in
  snd result = inl tt /\
  insightPanel (fst result) =
    Some {| currentQuestion := None; insights := []; questions := [];
            isLoading := false |} /\
  notices (fst result) = notices pl ++ [NoticeQueryFailed error] /\
  requests (fst result) = requests pl ++ sent /\
  queryTimer (fst result) = queryTimer pl.
Proof.
  intros Hpanel Hread body query sent Hfail result. unfold result.
  rewrite (doQuery_read h file pl panel Hpanel content Hread).
  fold body. fold query. unfold sent.
  destruct Hfail as [Hq|(found & Hq & Hne & Hg)].
  - unfold try_catch, bind, request. rewrite Hq. simpl. repeat split.
  - unfold try_catch, bind, request. rewrite Hq.
    destruct found as [|r found]; [congruence|].
    simpl. simpl in Hg. rewrite Hg. simpl.
    rewrite <- app_assoc. repeat split.
Qed.

Lemma failed_query_clears_panel_witness :
  let h := {| activeFile := Some (TFile (lit "Questions/q.md"));
              panel_leaves := 1; right_leaf := true; base_path := lit "/v";
              host_read := fun _ => inl (lit "why");
              server_query := fun _ => inr (lit "Error: API Error (500)");
              server_generate := fun _ => inr (lit "unused");
              server_reindex := fun _ => inr (lit "unused");
              server_health := inr (lit "unused") |} in
  let pl := create_view (onload None) in
  let result := doQuery h (TFile (lit "Questions/q.md")) pl in
  snd result = inl tt /\
  insightPanel (fst result) = Some new_InsightPanelView /\
  notices (fst result) = [NoticeQueryFailed (lit "Error: API Error (500)")].
Proof.
  intros h pl result.
  destruct (failed_query_clears_panel h (TFile (lit "Questions/q.md"))
              pl new_InsightPanelView (lit "why")
              (lit "Error: API Error (500)") eq_refl eq_refl
              (or_introl eq_refl)) as (H1 & H2 & H3 & _).
  split; [exact H1|]. split; [exact H2 | exact H3].
Defined.

Section NoSync.

Lemma no_upsert_app (cs extra : list RemoteCall) :
  no_upsert cs -> no_upsert extra -> no_upsert (cs ++ extra).
Proof.
  intros H1 H2 payload Hin. apply in_app_iff in Hin as [Hin|Hin].
  - exact (H1 _ Hin).
  - exact (H2 _ Hin).
Qed.

Lemma no_upsert_one (c : RemoteCall) :
  (forall payload, c <> indexInsight payload) -> no_upsert [c].
Proof. intros H payload [Hin|[]]. exact (H _ Hin). Qed.

Ltac no_upsert_tac :=
  repeat first
    [ assumption
    | apply no_upsert_app
    | apply no_upsert_one; intros; discriminate
    | rewrite app_nil_r ].

Lemma doQuery_no_upsert (h : Host) (file : TAbstractFile) (pl : Plugin) :
  no_upsert (requests pl) -> no_upsert (requests (fst (doQuery h file pl))).
Proof.
  intros H. unfold doQuery.
  destruct (insightPanel pl) as [v|] eqn:Ev; [|exact H].
  unfold bind at 1. unfold on_panel at 1. rewrite Ev.
  unfold try_catch, bind, await, request, on_panel, notice, console_error.
  simpl. destruct (host_read h (file_path file)) as [content|e]; simpl.
  - destruct (server_query h _) as [found|e]; simpl.
    + destruct (length found =? 0)%nat; simpl.
      * no_upsert_tac.
      * destruct (server_generate h _) as [qs|e]; simpl.
        -- rewrite <- app_assoc. no_upsert_tac.
        -- rewrite <- app_assoc. no_upsert_tac.
    + no_upsert_tac.
  - exact H.
Qed.

Lemma activatePanel_no_upsert (h : Host) (auto : bool) (pl : Plugin) :
  no_upsert (requests pl) ->
  no_upsert (requests (fst (activatePanel h auto pl))).
Proof.
  intros H. unfold activatePanel.
  set (pl' := if (0 <? panel_leaves h)%nat then pl
              else if right_leaf h then create_view pl else pl).
  assert (H' : no_upsert (requests pl')).
  { unfold pl'. destruct (0 <? panel_leaves h)%nat; [exact H|].
    destruct (right_leaf h); exact H. }
  destruct auto; [|exact H'].
  destruct (activeFile h) as [f|]; [|exact H'].
  destruct (isQuestionNote f); [|exact H'].
  apply doQuery_no_upsert. exact H'.
Qed.

Lemma queryForCurrentNote_no_upsert (h : Host) (pl : Plugin) :
  no_upsert (requests pl) ->
  no_upsert (requests (fst (queryForCurrentNote h pl))).
Proof.
  intros H. unfold queryForCurrentNote.
  destruct (activeFile h) as [f|] eqn:Ef; [|exact H].
  destruct (isQuestionNote f) eqn:Eq; [|exact H].
  unfold bind.
  assert (Ha := activatePanel_no_upsert h false pl H).
  destruct (activatePanel h false pl) as [pl1 [[]|e]]; simpl in Ha.
  - apply doQuery_no_upsert. exact Ha.
  - exact Ha.
Qed.

Lemma reindex_no_upsert (h : Host) (pl : Plugin) :
  no_upsert (requests pl) ->
  no_upsert (requests (fst (reindexInsights_command h pl))).
Proof.
  intros H. unfold reindexInsights_command, try_catch, bind, request, notice,
    console_error. simpl.
  destruct (server_reindex h (base_path h)) as [[[success indexed] errors]|e];
    simpl.
  - destruct success; simpl; no_upsert_tac.
  - no_upsert_tac.
Qed.

Lemma test_connection_no_upsert (h : Host) (pl : Plugin) :
  no_upsert (requests pl) ->
  no_upsert (requests (fst (test_connection h pl))).
Proof.
  intros H. unfold test_connection, try_catch, bind, request, notice. simpl.
  destruct (server_health h); simpl; no_upsert_tac.
Qed.

Lemma run_handler_requests (hd : Handler) (h : Host)
  (file : option TAbstractFile) (pl : Plugin) :
  requests (run_handler hd h file pl) = requests pl.
Proof.
  destruct hd, file as [f|]; simpl; try reflexivity.
  - destruct (autoQuery (settings pl) && isQuestionNote f); reflexivity.
  - destruct (instanceof_TFile f && autoQuery (settings pl)
              && isQuestionNote f
              && match activeFile h with
                 | Some a => jseqb (file_path a) (file_path f)
                 | None => false
                 end); reflexivity.
Qed.

Lemma trigger_requests (name : EventName) (h : Host)
  (file : option TAbstractFile) (pl : Plugin) :
  requests (trigger name h file pl) = requests pl.
Proof.
  unfold trigger. generalize (eventRefs pl) as refs. intros refs.
  revert pl. induction refs as [|ref refs IH]; intros pl; [reflexivity|].
  simpl. rewrite IH. destruct (EventName_eqb (fst ref) name); [|reflexivity].
  apply run_handler_requests.
Qed.

Lemma plugin_step_no_upsert (h : Host) (pl : Plugin) (l : plugin_label) :
  no_upsert (requests pl) -> no_upsert (requests (plugin_step h pl l)).
Proof.
  intros H. destruct l as [name file| |c| | |]; cbn [plugin_step].
  - rewrite trigger_requests. exact H.
  - destruct (queryTimer pl); [|exact H].
    apply queryForCurrentNote_no_upsert. exact H.
  - destruct (existsb _ (commands pl)); [|exact H].
    destruct c; cbn [run_command].
    + apply activatePanel_no_upsert. exact H.
    + apply queryForCurrentNote_no_upsert. exact H.
    + apply reindex_no_upsert. exact H.
  - exact H.
  - apply test_connection_no_upsert. exact H.
  - exact H.
Qed.

Lemma plugin_exec_no_upsert (ls : list (Host * plugin_label)) (pl : Plugin) :
  no_upsert (requests pl) -> no_upsert (requests (plugin_exec pl ls)).
Proof.
  revert pl; induction ls as [|[h l] ls IH]; intros pl H; [exact H|].
  simpl. apply IH. apply plugin_step_no_upsert. exact H.
Qed.

End NoSync.

(** C1, evaluated on the code. [onload] registers callbacks for the events
    [file-open] and [modify] only, both for the query, and creates no sync
    service: the creation event of a note, in [Insights/] or not, runs no
    callback and leaves the plugin as it was, and whatever events, timers,
    commands and settings buttons follow, the plugin never sends an upsert
    request, so the single upsert of C1 does not occur. *)
Theorem onload_registers_no_sync
  (data : option SavedData) (h : Host) (file : TAbstractFile)
  (ls : list (Host * plugin_label)) :
  let pl := onload data in
  trigger vault_create h (Some file) pl = pl /\
  forall payload,
    ~ In (indexInsight payload)
        (requests
           (plugin_exec pl ((h, HostEvent vault_create (Some file)) :: ls))).
Proof.
  intros pl. split; [reflexivity|].
  apply plugin_exec_no_upsert. intros payload [].
Qed.

(** The service itself does what C1 says once its handler runs: a creation
    event for a file of [Insights/], the drain, a read that returns the
    text and an upsert that succeeds make exactly one request, the upsert
    of the parsed note, and leave the service idle. *)
Lemma service_create_sends_one_upsert
  (v : Vault) (a : path) (content : jsstring) :
  v a = Some KFile -> insight_path a ->
  exists s,
    exec (init v)
      [FileCreate (TFile a); TimerFire; ReadSettled 0 (Some content);
       IndexSettled 0 true] = Some s /\
    calls s =
      [indexInsight {| payload_path := a;
                       payload_content := snd (parseFrontmatter content);
                       payload_frontmatter := fst (parseFrontmatter content) |}] /\
    isSyncing s = false /\ syncQueue s = [] /\ tasks s = [].
Proof.
  intros Hv Ha.
  assert (Hi : isInsightNote (TFile a) = true)
    by (rewrite isInsightNote_prefix; exact Ha).
  set (s1 := queueSync (init v) a).
  assert (E1 : step (init v) (FileCreate (TFile a)) = Some s1).
  { cbn [step]. unfold onFileCreate. rewrite Hi. reflexivity. }
  set (s2 := suspend
               (begin_pass
                  (set_syncQueue
                     (set_isSyncing (set_drainTimer s1 false) true) []) [a])
               (AwaitRead a [])).
  assert (E2 : step s1 TimerFire = Some s2).
  { cbn [step]. change (drainTimer s1) with true. cbv iota. f_equal.
    rewrite processSyncQueue_begin; [|reflexivity|discriminate].
    change (syncQueue (set_drainTimer s1 false)) with [a].
    rewrite drain_loop_cons.
    rewrite (proj2 (resolves_iff _ a)); [reflexivity|].
    split; [exact Hv | exact Ha]. }
  set (s3 := read_settled (resume s2 0) a [] (Some content)).
  assert (E3 : step s2 (ReadSettled 0 (Some content)) = Some s3)
    by reflexivity.
  set (s4 := index_settled (resume s3 0) a [] true).
  assert (E4 : step s3 (IndexSettled 0 true) = Some s4) by reflexivity.
  exists s4. split.
  - cbn [exec]. rewrite E1, E2, E3, E4. reflexivity.
  - repeat split.
Qed.

(* ================================================================= *)
(** * Further properties of the parser and of the classifier *)

(** X1. The body that the parser returns is always an end of the text it
    was given: parsing drops a beginning (the header) and nothing else,
    and never alters what it keeps. *)
Theorem parse_body_is_suffix (content : jsstring) :
  exists dropped, content = dropped ++ snd (parseFrontmatter content).
Proof.
  unfold parseFrontmatter.
  destruct (frontmatterRegex content) as [[raw body]|] eqn:E.
  - unfold frontmatterRegex in E.
    destruct (startsWith content fm_open) eqn:Eo; [|discriminate].
    apply startsWith_skipn in Eo.
    destruct (lazy_any_then fm_close (skipn (length fm_open) content))
      as [[g r]|] eqn:El; [|discriminate].
    apply lazy_any_then_some in El. injection E as <- <-.
    rewrite Eo, El. cbn [snd].
    destruct r as [|c r]; simpl startsWith.
    + exists (fm_open ++ g ++ fm_close). rewrite <- !app_assoc. reflexivity.
    + destruct (c =? LF)%N; cbn [andb].
      * exists (fm_open ++ g ++ fm_close ++ [c]). cbn [skipn].
        rewrite <- !app_assoc. reflexivity.
      * exists (fm_open ++ g ++ fm_close). rewrite <- !app_assoc. reflexivity.
  - exists []. reflexivity.
Qed.

(** X2. A note written with Windows line endings has no header for the
    parser: when a carriage return follows the opening [---], every field
    stays unset and the whole text, header included, is the body. *)
Theorem crlf_header_is_not_recognized (rest : jsstring) :
  let text := lit "---" ++ [13%N; LF] ++ rest in
  parseFrontmatter text = (empty_frontmatter, text).
Proof. reflexivity. Qed.

(** X3. An empty header is not a header: in a text that opens with
    [---\n---], the second marker is not preceded by a line feed of its
    own, so unless a further [\n---] follows, nothing is recognized and
    the whole text is the body. *)
Theorem empty_header_is_not_recognized (rest : jsstring) :
  (forall h tail, rest <> h ++ fm_close ++ tail) ->
  let text := fm_open ++ lit "---" ++ rest in
  parseFrontmatter text = (empty_frontmatter, text).
Proof.
  intros Hno text.
  assert (Hn : frontmatterRegex text = None).
  { apply frontmatterRegex_none. intros (h & tail & Heq).
    unfold text in Heq. apply app_inv_head in Heq.
    destruct h as [|a [|b [|c h]]]; try discriminate Heq.
    change (lit "---" ++ rest) with (45 :: 45 :: 45 :: rest)%N in Heq.
    injection Heq as _ _ _ Heq. exact (Hno h tail Heq). }
  unfold parseFrontmatter. rewrite Hn. reflexivity.
Qed.

Lemma empty_header_is_not_recognized_witness :
  let rest := [LF] ++ lit "Body" in
  let text := fm_open ++ lit "---" ++ rest in
  (forall h tail, rest <> h ++ fm_close ++ tail) /\
  parseFrontmatter text = (empty_frontmatter, text).
Proof.
  intros rest text.
  assert (H : forall h tail, rest <> h ++ fm_close ++ tail).
  { apply lazy_any_then_none. reflexivity. }
  split; [exact H | exact (empty_header_is_not_recognized rest H)].
Defined.

Section Unquote.

Lemma slice_inner (q r : code_unit) (v : jsstring) :
  slice (q :: v ++ [r]) 1 (-1) = v.
Proof.
  unfold slice, clamp_index. simpl length. rewrite length_app. simpl length.
  replace (1 <? 0)%Z with false by reflexivity.
  replace (-1 <? 0)%Z with true by reflexivity.
  rewrite Z.min_l by lia. rewrite Z.max_l by lia.
  change (Z.to_nat 1) with 1%nat. cbn [skipn].
  replace (Z.to_nat (Z.of_nat (S (length v + 1)) + -1 - 1)) with (length v)
    by lia.
  apply firstn_length_app.
Qed.

Lemma endsWith_last (v : jsstring) (q r : code_unit) :
  endsWith (q :: v ++ [r]) [r] = true.
Proof.
  unfold endsWith. simpl rev. rewrite rev_app_distr. simpl.
  rewrite N.eqb_refl. reflexivity.
Qed.

Lemma endsWith_other (v : jsstring) (q r c : code_unit) :
  r <> c -> endsWith (q :: v ++ [r]) [c] = false.
Proof.
  intros H. unfold endsWith. simpl rev. rewrite rev_app_distr. simpl.
  apply N.eqb_neq in H. rewrite H. reflexivity.
Qed.

End Unquote.

(** X4. Quotes around a value are removed only as a matching pair: a value
    between two double quotes or between two single quotes loses exactly
    that pair, whatever it holds, while a value that opens with one kind
    of quote and closes with the other is kept as it is; a value that is a
    single quote character becomes empty. *)
Theorem unquote_matching_pair (v : jsstring) :
  unquote (dquote :: v ++ [dquote]) = v /\
  unquote (squote :: v ++ [squote]) = v /\
  unquote (dquote :: v ++ [squote]) = dquote :: v ++ [squote] /\
  unquote (squote :: v ++ [dquote]) = squote :: v ++ [dquote] /\
  unquote [dquote] = [] /\ unquote [squote] = [].
Proof.
  unfold unquote.
  split; [|split; [|split; [|split; [|split; reflexivity]]]].
  - rewrite endsWith_last. simpl startsWith. simpl. apply slice_inner.
  - rewrite (endsWith_last v squote squote).
    rewrite (endsWith_other v squote squote dquote) by discriminate.
    simpl startsWith. simpl. apply slice_inner.
  - rewrite (endsWith_other v dquote squote dquote) by discriminate.
    simpl startsWith. reflexivity.
  - rewrite (endsWith_other v squote dquote squote) by discriminate.
    simpl startsWith. reflexivity.
Qed.

(** X5. The role of a note is decided by the prefix of its path alone:
    each of the three tests holds exactly when the path opens with its
    folder, whatever the order in which [classifyNote] tries the folders,
    so no note has two roles; and [determineNoteType] of the entity types
    classifies a path as [classifyNote] classifies the file. *)
Theorem role_is_the_path_prefix (f : TAbstractFile) :
  isThoughtNote f = startsWith (file_path f) (lit "Thoughts/") /\
  isQuestionNote f = startsWith (file_path f) (lit "Questions/") /\
  isInsightNote f = startsWith (file_path f) (lit "Insights/") /\
  (isThoughtNote f && isQuestionNote f = false) /\
  (isThoughtNote f && isInsightNote f = false) /\
  (isQuestionNote f && isInsightNote f = false) /\
  classifyNote f = determineNoteType (file_path f).
Proof.
  assert (HQ : startsWith (file_path f) (lit "Thoughts/") = true ->
               startsWith (file_path f) (lit "Questions/") = false).
  { destruct (file_path f) as [|c p]; [discriminate|].
    change (lit "Thoughts/") with (84%N :: lit "houghts/").
    change (lit "Questions/") with (81%N :: lit "uestions/").
    cbn [startsWith]. destruct (c =? 84)%N eqn:E; [|discriminate].
    apply N.eqb_eq in E. subst c. reflexivity. }
  assert (HT := prefix_Insights_not_Thoughts (file_path f)).
  assert (HI := prefix_Insights_not_Questions (file_path f)).
  unfold isThoughtNote, isQuestionNote, isInsightNote, classifyNote,
    determineNoteType.
  destruct (startsWith (file_path f) (lit "Thoughts/")) eqn:E1.
  - rewrite (HQ eq_refl), (HT eq_refl). repeat split.
  - destruct (startsWith (file_path f) (lit "Questions/")) eqn:E2.
    + rewrite (HI eq_refl). repeat split.
    + destruct (startsWith (file_path f) (lit "Insights/")); repeat split.
Qed.

(* ================================================================= *)
(** * Further properties of the sync service *)

(** X6. In every reachable state the pending set holds paths of
    [Insights/] only, each of them once. *)
Theorem pending_paths_are_insights (s : SyncState) :
  reachable s ->
  NoDup (syncQueue s) /\ Forall insight_path (syncQueue s).
Proof.
  intros Hr. assert (I := reachable_inv _ Hr).
  split; [apply (inv_nodup _ I) | apply (inv_insights _ I)].
Qed.

Lemma pending_paths_are_insights_witness :
  let s := state_after (vault_of [note_a; note_b])
             [FileCreate (TFile note_a); FileModify (TFile note_a);
              FileRename (TFile note_b) (lit "Thoughts/b.md");
              FileCreate (TFile (lit "Thoughts/c.md"))] in
  reachable s /\ syncQueue s = [note_a; note_b] /\
  NoDup (syncQueue s) /\ Forall insight_path (syncQueue s).
Proof.
  intros s.
  assert (Hr : reachable s).
  { exists (vault_of [note_a; note_b]),
      [FileCreate (TFile note_a); FileModify (TFile note_a);
       FileRename (TFile note_b) (lit "Thoughts/b.md");
       FileCreate (TFile (lit "Thoughts/c.md"))].
    vm_compute; reflexivity. }
  split; [exact Hr|]. split; [vm_compute; reflexivity|].
  exact (pending_paths_are_insights s Hr).
Defined.

(** X7. No pending path is left without a drain to come: in every
    reachable state in which no pass is running and the pending set is not
    empty, the debounced drain is armed, and the pass it begins takes the
    whole pending set as its snapshot. *)
Theorem pending_paths_have_a_drain (s : SyncState) :
  reachable s ->
  isSyncing s = false ->
  syncQueue s <> [] ->
  drainTimer s = true /\
  exists s', step s TimerFire = Some s' /\
             passes s' = passes s ++ [syncQueue s].
Proof.
  intros Hr Es Hq. assert (I := reachable_inv _ Hr).
  assert (Ht : drainTimer s = true) by (apply (inv_timer _ I Es Hq)).
  split; [exact Ht|].
  exists (processSyncQueue (set_drainTimer s false)).
  assert (Hstep : step s TimerFire
                  = Some (processSyncQueue (set_drainTimer s false))).
  { simpl. rewrite Ht. reflexivity. }
  split; [exact Hstep|]. apply (begin_snapshot _ _ Es Hq Hstep).
Qed.

Lemma pending_paths_have_a_drain_witness :
  let s := state_after (vault_of [note_a; note_b])
             [FileCreate (TFile note_a); TimerFire;
              FileModify (TFile note_b);
              ReadSettled 0 (Some (lit "X")); IndexSettled 0 false] in
  reachable s /\ isSyncing s = false /\ syncQueue s = [note_b; note_a] /\
  drainTimer s = true.
Proof.
  intros s.
  assert (Hr : reachable s).
  { exists (vault_of [note_a; note_b]),
      [FileCreate (TFile note_a); TimerFire; FileModify (TFile note_b);
       ReadSettled 0 (Some (lit "X")); IndexSettled 0 false].
    vm_compute; reflexivity. }
  assert (Es : isSyncing s = false) by (vm_compute; reflexivity).
  assert (Hq : syncQueue s = [note_b; note_a]) by (vm_compute; reflexivity).
  split; [exact Hr|]. split; [exact Es|]. split; [exact Hq|].
  apply (pending_paths_have_a_drain s Hr Es). rewrite Hq. discriminate.
Defined.

Section Requests.

(** The requests that a step adds. *)
Lemma step_calls_shape (s s' : SyncState) (l : label) :
  step s l = Some s' ->
  begins_pass s l = false ->
  calls s' = calls s \/
  (exists p, insight_path p /\ calls s' = calls s ++ [deleteInsight p]) \/
  (exists i p rest content payload,
      l = ReadSettled i (Some content) /\
      nth_error (tasks s) i = Some (AwaitRead p rest) /\
      payload_path payload = p /\
      calls s' = calls s ++ [indexInsight payload]).
Proof.
  intros Hstep Hb. destruct l as [f|f|f|f old| |i r|i ok|i ok|v];
    simpl in Hstep.
  - injection Hstep as <-. left. unfold onFileCreate.
    destruct (negb (instanceof_TFile f) || negb (isInsightNote f));
      reflexivity.
  - injection Hstep as <-. left. unfold onFileModify.
    destruct (negb (instanceof_TFile f) || negb (isInsightNote f));
      reflexivity.
  - injection Hstep as <-. unfold onFileDelete.
    destruct (startsWith (file_path f) (lit "Insights/")) eqn:E;
      cbn [negb].
    + rewrite calls_send_delete.
      destruct (delete_requests_cases (file_path f)) as [D|D]; rewrite D.
      * right. left. exists (file_path f). split; [exact E | reflexivity].
      * left. apply app_nil_r.
    + left. reflexivity.
  - injection Hstep as <-. unfold onFileRename.
    destruct (startsWith old (lit "Insights/")) eqn:Eo;
      destruct (startsWith (file_path f) (lit "Insights/")) eqn:En;
      cbn [negb andb].
    + rewrite calls_send_delete.
      destruct (delete_requests_cases old) as [D|D]; rewrite D.
      * right. left. exists old. split; [exact Eo | reflexivity].
      * left. apply app_nil_r.
    + rewrite calls_send_delete.
      destruct (delete_requests_cases old) as [D|D]; rewrite D.
      * right. left. exists old. split; [exact Eo | reflexivity].
      * left. apply app_nil_r.
    + left. destruct (instanceof_TFile f); reflexivity.
    + left. reflexivity.
  - destruct (drainTimer s); [|discriminate]. injection Hstep as <-.
    left. simpl in Hb. destruct (isSyncing s) eqn:Es.
    + rewrite processSyncQueue_busy by exact Es. reflexivity.
    + simpl in Hb. apply negb_false_iff in Hb. apply Nat.eqb_eq in Hb.
      apply length_zero_iff_nil in Hb.
      rewrite processSyncQueue_empty by exact Hb. reflexivity.
  - destruct (nth_error (tasks s) i) as [[p rest|p rest|tq]|] eqn:Hn;
      try discriminate.
    injection Hstep as <-. destruct r as [content|].
    + right. right.
      exists i, p, rest, content,
        {| payload_path := p;
           payload_content := snd (parseFrontmatter content);
           payload_frontmatter := fst (parseFrontmatter content) |}.
      repeat split. exact Hn.
    + left. unfold read_settled.
      apply (drain_loop_keeps
               (set_syncQueue (resume s i)
                  (set_add (syncQueue (resume s i)) p)) rest).
  - destruct (nth_error (tasks s) i) as [[p rest|p rest|tq]|] eqn:Hn;
      try discriminate.
    injection Hstep as <-. left. unfold index_settled. destruct ok.
    + apply (drain_loop_keeps (resume s i) rest).
    + apply (drain_loop_keeps
               (set_syncQueue (resume s i)
                  (set_add (syncQueue (resume s i)) p)) rest).
  - destruct (nth_error (tasks s) i) as [[p rest|p rest|tq]|] eqn:Hn;
      try discriminate.
    injection Hstep as <-. left. unfold delete_settled.
    destruct tq; reflexivity.
  - injection Hstep as <-. left. reflexivity.
Qed.

Lemma begin_pass_calls (s s' : SyncState) :
  step s TimerFire = Some s' -> calls s' = calls s.
Proof.
  intros Hstep. simpl in Hstep.
  destruct (drainTimer s); [|discriminate]. injection Hstep as <-.
  unfold processSyncQueue.
  destruct (isSyncing (set_drainTimer s false)
            || (length (syncQueue (set_drainTimer s false)) =? 0)%nat);
    [reflexivity|].
  match goal with
  | |- calls (drain_loop ?s0 ?ps) = _ =>
      destruct (drain_loop_keeps s0 ps) as (_ & _ & -> & _)
  end.
  reflexivity.
Qed.

Lemma step_for_insight (s s' : SyncState) (l : label) :
  Inv s -> step s l = Some s' ->
  Forall for_insight (calls s) -> Forall for_insight (calls s').
Proof.
  intros I Hstep Hfa.
  destruct (begins_pass s l) eqn:Hb.
  - destruct l; try discriminate.
    rewrite (begin_pass_calls _ _ Hstep). exact Hfa.
  - destruct (step_calls_shape _ _ _ Hstep Hb)
      as [->|[(p & Hp & ->)|(i & p & rest & content & pl & _ & Hn & Hpl & ->)]].
    + exact Hfa.
    + apply Forall_app. split; [exact Hfa|]. constructor; [exact Hp|constructor].
    + apply Forall_app. split; [exact Hfa|]. constructor; [|constructor].
      destruct (resume_drain _ _ _ I Hn eq_refl)
        as (_ & _ & _ & done & _ & Hins & Hl).
      simpl. rewrite Hpl.
      apply (worklist_insight s (AwaitRead p rest) done p Hins Hl).
      left. reflexivity.
Qed.

Lemma exec_for_insight (ls : list label) (s s' : SyncState) :
  Inv s -> exec s ls = Some s' ->
  Forall for_insight (calls s) -> Forall for_insight (calls s').
Proof.
  revert s; induction ls as [|l ls IH]; intros s I; simpl.
  - intros [= <-] H. exact H.
  - destruct (step s l) as [s1|] eqn:E; [|discriminate].
    intros Hrun Hfa. apply (IH s1 (step_inv _ _ _ I E) Hrun).
    exact (step_for_insight _ _ _ I E Hfa).
Qed.

End Requests.

(** X8. Every request that the sync service sends concerns a path of
    [Insights/]: in every reachable state, each request sent so far is an
    upsert of a note at such a path or the delete of such a path. *)
Theorem requests_are_for_insights (s : SyncState) :
  reachable s -> Forall for_insight (calls s).
Proof.
  intros (v & ls & Hrun).
  apply (exec_for_insight ls _ _ (init_inv v) Hrun). constructor.
Qed.

Lemma requests_are_for_insights_witness :
  let s := state_after (vault_of [note_a])
             [FileCreate (TFile note_a); TimerFire;
              ReadSettled 0 (Some (lit "X"));
              FileRename (TFile (lit "Thoughts/a.md")) note_a;
              FileDelete (TFile (lit "Thoughts/a.md"))] in
  reachable s /\ length (calls s) = 2%nat /\ Forall for_insight (calls s).
Proof.
  intros s.
  assert (Hr : reachable s).
  { exists (vault_of [note_a]),
      [FileCreate (TFile note_a); TimerFire; ReadSettled 0 (Some (lit "X"));
       FileRename (TFile (lit "Thoughts/a.md")) note_a;
       FileDelete (TFile (lit "Thoughts/a.md"))].
    vm_compute; reflexivity. }
  split; [exact Hr|]. split; [vm_compute; reflexivity|].
  exact (requests_are_for_insights s Hr).
Defined.

(** X9. A delete event for a path outside [Insights/] changes nothing and
    sends nothing. For a path inside, file or folder, the delete of the
    path is the one request sent when [encodeURIComponent] accepts the
    path, and nothing is sent when it throws (a path with a lone
    surrogate); either way nothing is queued and no drain is requested,
    and when the awaited promise settles, even with a failure, nothing is
    sent again and nothing is queued: a failed delete is not retried. *)
Theorem delete_event_sends_at_most_one_delete
  (s : SyncState) (file : TAbstractFile) :
  (startsWith (file_path file) (lit "Insights/") = false ->
   step s (FileDelete file) = Some s) /\
  (startsWith (file_path file) (lit "Insights/") = true ->
   exists s',
     step s (FileDelete file) = Some s' /\
     (encodeURIComponent (file_path file) <> None ->
      calls s' = calls s ++ [deleteInsight (file_path file)]) /\
     (encodeURIComponent (file_path file) = None -> calls s' = calls s) /\
     syncQueue s' = syncQueue s /\ drainTimer s' = drainTimer s /\
     tasks s' = tasks s ++ [AwaitDelete None] /\
     forall s2 i ok s3,
       nth_error (tasks s2) i = Some (AwaitDelete None) ->
       step s2 (DeleteSettled i ok) = Some s3 ->
       calls s3 = calls s2 /\ syncQueue s3 = syncQueue s2 /\
       drainTimer s3 = drainTimer s2).
Proof.
  split; intros H.
  - simpl. unfold onFileDelete. rewrite H. reflexivity.
  - exists (send_delete s (file_path file) None). split.
    + simpl. unfold onFileDelete. rewrite H. reflexivity.
    + split; [apply send_delete_calls|]. split; [apply send_delete_calls|].
      repeat (split; [reflexivity|]).
      intros s2 i ok s3 Hn Hstep. simpl in Hstep. rewrite Hn in Hstep.
      injection Hstep as <-. repeat split.
Qed.

Lemma delete_event_sends_at_most_one_delete_witness :
  let s := init (vault_of [note_a]) in
  let folder := TFolder (lit "Insights/drafts") in
  let lone := TFile (lit "Insights/" ++ [55296%N] ++ lit ".md") in
  step s (FileDelete (TFile (lit "Thoughts/a.md"))) = Some s /\
  (exists s',
     step s (FileDelete folder) = Some s' /\
     calls s' = [deleteInsight (lit "Insights/drafts")] /\
     syncQueue s' = []) /\
  (exists s',
     step s (FileDelete lone) = Some s' /\
     encodeURIComponent (file_path lone) = None /\ calls s' = []).
Proof.
  intros s folder lone.
  destruct (delete_event_sends_at_most_one_delete s
              (TFile (lit "Thoughts/a.md"))) as [H1 _].
  destruct (delete_event_sends_at_most_one_delete s folder) as [_ H2].
  destruct (delete_event_sends_at_most_one_delete s lone) as [_ H3].
  split; [exact (H1 eq_refl)|]. split.
  - destruct (H2 eq_refl) as (s' & Hs & Hc & _ & Hq & _).
    exists s'. split; [exact Hs|]. split; [|exact Hq].
    apply Hc. vm_compute. discriminate.
  - destruct (H3 eq_refl) as (s' & Hs & _ & Hc & _).
    assert (He : encodeURIComponent (file_path lone) = None)
      by (vm_compute; reflexivity).
    exists s'. split; [exact Hs|]. split; [exact He | exact (Hc He)].
Defined.

(** X10. A rename of a file inside [Insights/] does not queue the new path
    at once: it sends the delete of the old path (or nothing, when
    [encodeURIComponent] throws for the old path) and suspends; the new
    path enters the pending set, and the drain is requested, when the
    awaited promise has settled, whether with success or with a failure,
    and that settlement sends nothing. *)
Theorem rename_within_insights_queues_after_delete
  (s : SyncState) (newPath oldPath : path) :
  startsWith oldPath (lit "Insights/") = true ->
  startsWith newPath (lit "Insights/") = true ->
  exists s',
    step s (FileRename (TFile newPath) oldPath) = Some s' /\
    (encodeURIComponent oldPath <> None ->
     calls s' = calls s ++ [deleteInsight oldPath]) /\
    (encodeURIComponent oldPath = None -> calls s' = calls s) /\
    syncQueue s' = syncQueue s /\ drainTimer s' = drainTimer s /\
    tasks s' = tasks s ++ [AwaitDelete (Some newPath)] /\
    forall s2 i ok s3,
      nth_error (tasks s2) i = Some (AwaitDelete (Some newPath)) ->
      step s2 (DeleteSettled i ok) = Some s3 ->
      In newPath (syncQueue s3) /\ drainTimer s3 = true /\
      calls s3 = calls s2.
Proof.
  intros Ho Hn. exists (send_delete s oldPath (Some newPath)). split.
  - simpl. unfold onFileRename. simpl file_path. rewrite Ho, Hn. reflexivity.
  - split; [apply send_delete_calls|]. split; [apply send_delete_calls|].
    repeat (split; [reflexivity|]).
    intros s2 i ok s3 Hnth Hstep. simpl in Hstep. rewrite Hnth in Hstep.
    injection Hstep as <-. simpl. split; [|split; reflexivity].
    apply set_add_in. right. reflexivity.
Qed.

Lemma rename_within_insights_queues_after_delete_witness :
  let s := init (vault_of [note_b]) in
  exists s',
    step s (FileRename (TFile note_b) note_a) = Some s' /\
    calls s' = [deleteInsight note_a] /\ syncQueue s' = [] /\
    exists s3,
      step s' (DeleteSettled 0 false) = Some s3 /\
      In note_b (syncQueue s3) /\ drainTimer s3 = true.
Proof.
  intros s.
  destruct (rename_within_insights_queues_after_delete s note_b note_a
              eq_refl eq_refl) as (s' & Hs & Hc & _ & Hq & _ & Ht & Hsettle).
  exists s'. split; [exact Hs|].
  split; [apply Hc; vm_compute; discriminate|]. split; [exact Hq|].
  assert (Hn : nth_error (tasks s') 0 = Some (AwaitDelete (Some note_b)))
    by (rewrite Ht; vm_compute; reflexivity).
  exists (delete_settled (resume s' 0) (Some note_b)).
  assert (Hstep : step s' (DeleteSettled 0 false)
                  = Some (delete_settled (resume s' 0) (Some note_b)))
    by (unfold step; rewrite Hn; reflexivity).
  split; [exact Hstep|].
  destruct (Hsettle s' 0%nat false _ Hn Hstep) as (H1 & H2 & _).
  split; [exact H1 | exact H2].
Defined.

(** X11. A rename into [Insights/] from outside queues the new path at
    once, requests the drain and sends nothing, when what was renamed is a
    file; for a folder it changes nothing, so a folder moved into
    [Insights/] is not queued by its own event. A rename between two
    paths outside [Insights/] changes nothing either. *)
Theorem rename_into_insights_queues_files
  (s : SyncState) (file : TAbstractFile) (oldPath : path) :
  startsWith oldPath (lit "Insights/") = false ->
  exists s',
    step s (FileRename file oldPath) = Some s' /\
    calls s' = calls s /\ tasks s' = tasks s /\
    (startsWith (file_path file) (lit "Insights/") = true ->
     instanceof_TFile file = true ->
     In (file_path file) (syncQueue s') /\ drainTimer s' = true) /\
    (startsWith (file_path file) (lit "Insights/") = false \/
     instanceof_TFile file = false ->
     s' = s).
Proof.
  intros Ho. unfold step, onFileRename. rewrite Ho.
  destruct (startsWith (file_path file) (lit "Insights/")) eqn:En;
    destruct (instanceof_TFile file) eqn:Ef; simpl;
    eexists; (split; [reflexivity|]); simpl;
    (split; [reflexivity|]); (split; [reflexivity|]); split;
    try (intros; discriminate); try (intros; reflexivity).
  - intros _ _. split; [|reflexivity]. apply set_add_in. right. reflexivity.
  - intros [H|H]; discriminate.
Qed.

Lemma rename_into_insights_queues_files_witness :
  let s := init (vault_of [note_a]) in
  (exists s', step s (FileRename (TFile note_a) (lit "Thoughts/a.md"))
              = Some s' /\ syncQueue s' = [note_a] /\ calls s' = []) /\
  step s (FileRename (TFolder (lit "Insights/drafts")) (lit "drafts"))
  = Some s.
Proof.
  intros s. split.
  - destruct (rename_into_insights_queues_files s (TFile note_a)
                (lit "Thoughts/a.md") eq_refl)
      as (s' & Hs & Hc & _).
    exists s'. split; [exact Hs|]. split; [|exact Hc].
    simpl in Hs. injection Hs as <-. reflexivity.
  - destruct (rename_into_insights_queues_files s
                (TFolder (lit "Insights/drafts")) (lit "drafts") eq_refl)
      as (s' & Hs & _ & _ & _ & Hsame).
    rewrite Hs. f_equal. apply Hsame. right. reflexivity.
Defined.

(** X12. When the read of a note fails during a pass, no request is sent
    for it, its path is put back into the pending set and the pass goes on
    with the paths after it; when the pass completes the path is still
    pending and a further drain is scheduled. *)
Theorem failed_read_is_requeued
  (s s1 : SyncState) (i : nat) (P : path) (rest : list path) :
  reachable s ->
  nth_error (tasks s) i = Some (AwaitRead P rest) ->
  step s (ReadSettled i None) = Some s1 ->
  calls s1 = calls s /\
  In P (syncQueue s1) /\
  ((exists skipped q rest',
       rest = skipped ++ q :: rest' /\
       Forall (fun x => resolves s x = false) skipped /\
       resolves s q = true /\
       In (AwaitRead q rest') (tasks s1) /\ isSyncing s1 = true)
   \/ (Forall (fun x => resolves s x = false) rest /\ isSyncing s1 = false)) /\
  (forall ls s2,
      exec_pass s1 ls = Some s2 -> isSyncing s2 = false ->
      In P (syncQueue s2) /\ drainTimer s2 = true).
Proof.
  intros Hr Hn Hstep. assert (I := reachable_inv _ Hr).
  assert (I1 := step_inv _ _ _ I Hstep).
  destruct (resume_drain _ _ _ I Hn eq_refl) as (Es & _).
  unfold step in Hstep. rewrite Hn in Hstep. injection Hstep as <-.
  set (s0 := set_syncQueue (resume s i) (set_add (syncQueue s) P)) in *.
  destruct (drain_loop_keeps s0 rest) as (_ & Hq & Hc & _).
  assert (HP : In P (syncQueue (drain_loop s0 rest))).
  { rewrite Hq. apply set_add_in. right. reflexivity. }
  split; [rewrite Hc; reflexivity|]. split; [exact HP|]. split.
  - destruct (drain_loop_cases s0 rest)
      as [(sk & q & r & Hrest & Hsk & Hres & ->)|[Hall ->]].
    + left. exists sk, q, r. split; [exact Hrest|].
      split; [exact Hsk|]. split; [exact Hres|]. split.
      * simpl. apply in_app_iff. right. left. reflexivity.
      * exact Es.
    + right. split; [exact Hall|]. apply (finish_pass_fields s0).
  - intros ls s2 Hrun Es2.
    assert (I2 : Inv s2) by (apply (exec_pass_inv ls _ _ I1 Hrun)).
    assert (HP2 : In P (syncQueue s2))
      by (apply (exec_pass_keeps _ _ _ Hrun); exact HP).
    split; [exact HP2|]. apply (inv_timer _ I2 Es2).
    intros E. rewrite E in HP2. destruct HP2.
Qed.

Lemma failed_read_is_requeued_witness :
  let s := state_after (vault_of [note_a; note_b])
             [FileCreate (TFile note_a); FileCreate (TFile note_b);
              TimerFire] in
  let s1 := read_settled (resume s 0) note_a [note_b] None in
  reachable s /\
  step s (ReadSettled 0 None) = Some s1 /\
  calls s1 = [] /\ syncQueue s1 = [note_a] /\
  In (AwaitRead note_b []) (tasks s1).
Proof.
  intros s s1.
  assert (Hr : reachable s).
  { exists (vault_of [note_a; note_b]),
      [FileCreate (TFile note_a); FileCreate (TFile note_b); TimerFire].
    vm_compute; reflexivity. }
  assert (Hn : nth_error (tasks s) 0 = Some (AwaitRead note_a [note_b]))
    by (vm_compute; reflexivity).
  assert (Hs : step s (ReadSettled 0 None) = Some s1) by (vm_compute; reflexivity).
  destruct (failed_read_is_requeued s s1 0 note_a [note_b] Hr Hn Hs)
    as (Hc & _).
  split; [exact Hr|]. split; [exact Hs|]. split; [exact Hc|].
  split; [vm_compute; reflexivity | vm_compute; left; reflexivity].
Defined.

Section Skipping.

Lemma drain_loop_skips (s : SyncState) (skipped rest : list path) :
  Forall (fun x => resolves s x = false) skipped ->
  drain_loop s (skipped ++ rest) = drain_loop s rest.
Proof.
  induction 1 as [|p sk Hp _ IH]; [reflexivity|].
  simpl app. rewrite drain_loop_cons, Hp. exact IH.
Qed.

End Skipping.

(** X13. A path that no longer resolves to a file of [Insights/] when the
    loop of a pass reaches it is passed over without a request and without
    being queued again: the loop over such paths followed by others does
    what the loop over the others does. In particular a drain whose
    pending paths have all vanished empties the pending set, sends
    nothing and schedules nothing. *)
Theorem vanished_notes_are_dropped
  (s : SyncState) (skipped rest : list path) :
  Forall (fun x => resolves s x = false) skipped ->
  drain_loop s (skipped ++ rest) = drain_loop s rest /\
  (isSyncing s = false -> drainTimer s = true ->
   syncQueue s = skipped -> skipped <> [] ->
   exists s',
     step s TimerFire = Some s' /\
     isSyncing s' = false /\ syncQueue s' = [] /\ calls s' = calls s /\
     tasks s' = tasks s /\ drainTimer s' = false).
Proof.
  intros Hsk. split; [apply drain_loop_skips; exact Hsk|].
  intros Es Ht Hq Hne.
  exists (processSyncQueue (set_drainTimer s false)). split.
  - simpl. rewrite Ht. reflexivity.
  - rewrite processSyncQueue_begin;
      [|exact Es|simpl; rewrite Hq; exact Hne].
    change (syncQueue (set_drainTimer s false)) with (syncQueue s).
    rewrite Hq.
    set (s0 := begin_pass
                 (set_syncQueue
                    (set_isSyncing (set_drainTimer s false) true) [])
                 skipped).
    assert (E : drain_loop s0 skipped = finish_pass s0).
    { rewrite <- (app_nil_r skipped) at 1.
      rewrite drain_loop_skips; [reflexivity | exact Hsk]. }
    rewrite E. unfold finish_pass. simpl. repeat split.
Qed.

Lemma vanished_notes_are_dropped_witness :
  let s := set_vault
             (state_after (vault_of [note_a]) [FileCreate (TFile note_a)])
             (vault_of []) in
  Forall (fun x => resolves s x = false) [note_a] /\
  exists s',
    step s TimerFire = Some s' /\
    isSyncing s' = false /\ syncQueue s' = [] /\ calls s' = calls s.
Proof.
  intros s.
  assert (H : Forall (fun x => resolves s x = false) [note_a])
    by (constructor; [vm_compute; reflexivity | constructor]).
  split; [exact H|].
  destruct (vanished_notes_are_dropped s [note_a] [] H) as [_ Hd].
  assert (Es : isSyncing s = false) by (vm_compute; reflexivity).
  assert (Ht : drainTimer s = true) by (vm_compute; reflexivity).
  assert (Hq : syncQueue s = [note_a]) by (vm_compute; reflexivity).
  destruct (Hd Es Ht Hq ltac:(discriminate))
    as (s' & H1 & H2 & H3 & H4 & _).
  exists s'. split; [exact H1|]. split; [exact H2|].
  split; [exact H3 | exact H4].
Defined.

Section Progress.

Lemma pass_measure_untouched (s s' : SyncState) :
  untouched s s' -> pass_measure s' = pass_measure s.
Proof.
  intros (_ & U2 & _). unfold pass_measure. rewrite U2. reflexivity.
Qed.

Lemma pass_measure_single (s : SyncState) (t : Task) :
  drains (tasks s) = [t] -> pass_measure s = task_measure t.
Proof.
  intros H. unfold pass_measure. rewrite H. simpl. lia.
Qed.

(** The measure after the loop has gone on, from a state in which the
    pass holds no suspended call. *)
Lemma drain_loop_measure (s : SyncState) (rest : list path) :
  drains (tasks s) = [] ->
  (pass_measure (drain_loop s rest) <= 2 * length rest)%nat.
Proof.
  intros Hd.
  destruct (drain_loop_cases s rest)
    as [(sk & q & r & Hrest & _ & _ & ->)|[_ ->]].
  - unfold pass_measure. simpl tasks. rewrite drains_app, Hd. simpl.
    rewrite Hrest, length_app. simpl. lia.
  - destruct (finish_pass_fields s) as (_ & _ & _ & Et & _).
    unfold pass_measure. rewrite Et, Hd. simpl. lia.
Qed.

End Progress.

(** X14. A pass cannot go on for ever: each answer it awaits (a read or an
    upsert that settles) strictly lowers the number of answers it may
    still need, which is at most two for each path of its snapshot, and no
    other step that leaves the pass running raises that number. A failed
    path, in particular, is not tried again within the same pass. *)
Theorem pass_makes_progress (s s' : SyncState) (l : label) :
  reachable s ->
  step s l = Some s' ->
  begins_pass s l = false ->
  match l with
  | ReadSettled _ _ | IndexSettled _ _ =>
      (pass_measure s' < pass_measure s)%nat
  | _ => pass_measure s' = pass_measure s
  end /\
  (pass_measure s <= 2 * length (last (passes s) []))%nat.
Proof.
  intros Hr Hstep Hb. assert (I := reachable_inv _ Hr). split.
  - assert (U := step_untouched _ _ _ Hstep Hb).
    destruct l as [f|f|f|f old| |i r|i ok|i ok|v];
      try (apply pass_measure_untouched; exact U).
    + simpl in Hstep.
      destruct (nth_error (tasks s) i) as [[p rest|p rest|tq]|] eqn:Hn;
        try discriminate.
      injection Hstep as <-.
      destruct (resume_drain _ _ _ I Hn eq_refl) as (_ & Hd & Hrm & _).
      rewrite (pass_measure_single s _ Hd). simpl task_measure.
      unfold read_settled. destruct r as [content|].
      * unfold pass_measure. simpl tasks. rewrite drains_app.
        simpl in Hrm. rewrite Hrm. simpl. lia.
      * match goal with
        | |- (pass_measure (drain_loop ?s0 rest) < _)%nat =>
            assert (H := drain_loop_measure s0 rest Hrm)
        end.
        lia.
    + simpl in Hstep.
      destruct (nth_error (tasks s) i) as [[p rest|p rest|tq]|] eqn:Hn;
        try discriminate.
      injection Hstep as <-.
      destruct (resume_drain _ _ _ I Hn eq_refl) as (_ & Hd & Hrm & _).
      rewrite (pass_measure_single s _ Hd). simpl task_measure.
      unfold index_settled. destruct ok.
      * assert (H := drain_loop_measure (resume s i) rest Hrm). lia.
      * match goal with
        | |- (pass_measure (drain_loop ?s0 rest) < _)%nat =>
            assert (H := drain_loop_measure s0 rest Hrm)
        end.
        lia.
  - destruct (isSyncing s) eqn:Es.
    + destruct (inv_busy _ I Es) as (t & done & Hd & _ & _ & Hl).
      rewrite (pass_measure_single s _ Hd), Hl, length_app.
      destruct t; simpl; lia.
    + unfold pass_measure. rewrite (inv_idle _ I Es). simpl. lia.
Qed.

Lemma pass_makes_progress_witness :
  let s := state_after (vault_of [note_a; note_b])
             [FileCreate (TFile note_a); FileCreate (TFile note_b);
              TimerFire] in
  let s' := read_settled (resume s 0) note_a [note_b] None in
  reachable s /\ step s (ReadSettled 0 None) = Some s' /\
  pass_measure s = 4%nat /\ (pass_measure s' < pass_measure s)%nat.
Proof.
  intros s s'.
  assert (Hr : reachable s).
  { exists (vault_of [note_a; note_b]),
      [FileCreate (TFile note_a); FileCreate (TFile note_b); TimerFire].
    vm_compute; reflexivity. }
  assert (Hs : step s (ReadSettled 0 None) = Some s') by (vm_compute; reflexivity).
  split; [exact Hr|]. split; [exact Hs|]. split; [vm_compute; reflexivity|].
  exact (proj1 (pass_makes_progress s s' (ReadSettled 0 None) Hr Hs
                  eq_refl)).
Defined.

Section Order.

Lemma subseq_refl {A : Type} (l : list A) : subseq l l.
Proof. induction l; constructor; assumption. Qed.

Lemma subseq_app_r {A : Type} (u l extra : list A) :
  subseq u l -> subseq u (l ++ extra).
Proof.
  induction 1 as [|x u l _ IH|x u l _ IH].
  - simpl. induction extra; constructor; assumption.
  - simpl. constructor. exact IH.
  - simpl. constructor. exact IH.
Qed.

Lemma subseq_snoc {A : Type} (u l : list A) (x : A) :
  subseq u l -> subseq (u ++ [x]) (l ++ [x]).
Proof.
  induction 1 as [|y u l _ IH|y u l _ IH]; simpl.
  - repeat constructor.
  - constructor. exact IH.
  - constructor. exact IH.
Qed.

Lemma subseq_nodup {A : Type} (u l : list A) :
  subseq u l -> NoDup l -> NoDup u.
Proof.
  assert (Hin : forall (u l : list A), subseq u l ->
                  forall x, In x u -> In x l).
  { induction 1 as [|y u0 l0 _ IH|y u0 l0 _ IH]; intros x Hx.
    - exact Hx.
    - destruct Hx as [->|Hx]; [left; reflexivity | right; auto].
    - right. auto. }
  induction 1 as [|y u0 l0 Hs IH|y u0 l0 Hs IH]; intros Hnd.
  - constructor.
  - inversion Hnd; subst. constructor; [|auto].
    intros Hy. eauto.
  - inversion Hnd; subst. auto.
Qed.

Lemma upsert_paths_app (cs ds : list RemoteCall) :
  upsert_paths (cs ++ ds) = upsert_paths cs ++ upsert_paths ds.
Proof. unfold upsert_paths. apply flat_map_app. Qed.

Variable c0 : list path.
Variable snap : list path.

(** The loop going on keeps the order of the upserts sent. *)
Lemma order_continue (s : SyncState) (u done rest : list path) :
  isSyncing s = true -> drains (tasks s) = [] ->
  upsert_paths (calls s) = c0 ++ u ->
  snap = done ++ rest -> subseq u done ->
  in_snapshot_order c0 snap (drain_loop s rest).
Proof.
  intros Es Hd Hu Hsnap Hsub. exists u.
  destruct (drain_loop_keeps s rest) as (_ & _ & Hc & _).
  rewrite Hc. split; [exact Hu|].
  destruct (drain_loop_cases s rest)
    as [(sk & q & r & Hrest & _ & _ & ->)|[_ ->]].
  - simpl isSyncing. rewrite Es.
    exists (AwaitRead q r), (done ++ sk). simpl tasks.
    rewrite drains_app, Hd. split; [reflexivity|]. split.
    + rewrite Hsnap, Hrest, <- app_assoc. reflexivity.
    + simpl. rewrite app_nil_r. apply subseq_app_r. exact Hsub.
  - destruct (finish_pass_fields s) as (_ & _ & -> & _).
    rewrite Hsnap. apply subseq_app_r. exact Hsub.
Qed.

Lemma order_step (s s' : SyncState) (l : label) :
  Inv s -> isSyncing s = true -> step s l = Some s' ->
  in_snapshot_order c0 snap s -> in_snapshot_order c0 snap s'.
Proof.
  intros I Es Hstep (u & Hu & Hk). rewrite Es in Hk.
  destruct Hk as (t & done & Hd & Hsnap & Hsub).
  assert (Hb := busy_not_begin s l Es).
  assert (U := step_untouched _ _ _ Hstep Hb).
  assert (Same : untouched s s' -> calls s' = calls s \/
                   (exists p, calls s' = calls s ++ [deleteInsight p]) ->
                 in_snapshot_order c0 snap s').
  { intros (U1 & U2 & _) Hc. exists u. split.
    - destruct Hc as [->|(p & ->)]; [exact Hu|].
      rewrite upsert_paths_app, Hu. simpl. apply app_nil_r.
    - rewrite U1, Es. exists t, done. rewrite U2. auto. }
  assert (Shape := step_calls_shape _ _ _ Hstep Hb).
  destruct l as [f|f|f|f old| |i r|i ok|i ok|v];
    try (apply Same; [exact U|];
         destruct Shape as [H|[(p & _ & H)|(i0 & p & rest & content & pl & Hl & _)]];
         [left; exact H | right; exists p; exact H | discriminate Hl]).
  - simpl in Hstep.
    destruct (nth_error (tasks s) i) as [[p rest|p rest|tq]|] eqn:Hn;
      try discriminate.
    injection Hstep as <-.
    destruct (resume_drain _ _ _ I Hn eq_refl) as (_ & Hd' & Hrm & _).
    rewrite Hd in Hd'. injection Hd' as ->.
    simpl in Hsnap, Hsub. rewrite app_nil_r in Hsub.
    unfold read_settled. destruct r as [content|].
    + exists (u ++ [p]). split.
      * simpl calls. rewrite upsert_paths_app, Hu, <- app_assoc. reflexivity.
      * simpl isSyncing. rewrite Es. exists (AwaitIndex p rest), done.
        simpl tasks. rewrite drains_app. simpl in Hrm. rewrite Hrm.
        split; [reflexivity|]. split; [exact Hsnap|].
        simpl. apply subseq_snoc. exact Hsub.
    + apply order_continue with (u := u) (done := done ++ [p]); simpl; auto.
      * rewrite Hsnap, <- app_assoc. reflexivity.
      * apply subseq_app_r. exact Hsub.
  - simpl in Hstep.
    destruct (nth_error (tasks s) i) as [[p rest|p rest|tq]|] eqn:Hn;
      try discriminate.
    injection Hstep as <-.
    destruct (resume_drain _ _ _ I Hn eq_refl) as (_ & Hd' & Hrm & _).
    rewrite Hd in Hd'. injection Hd' as ->.
    simpl in Hsnap, Hsub.
    unfold index_settled.
    destruct ok; apply order_continue with (u := u) (done := done ++ [p]);
      simpl; auto; rewrite Hsnap, <- app_assoc; reflexivity.
Qed.

Lemma order_run (ls : list label) (s s' : SyncState) :
  Inv s -> exec_pass s ls = Some s' ->
  in_snapshot_order c0 snap s -> in_snapshot_order c0 snap s'.
Proof.
  revert s; induction ls as [|l ls IH]; intros s I; simpl.
  - intros [= <-] H. exact H.
  - destruct (isSyncing s) eqn:Es; [|discriminate].
    destruct (step s l) as [s1|] eqn:E; [|discriminate].
    intros Hrun Hk. apply (IH s1 (step_inv _ _ _ I E) Hrun).
    exact (order_step _ _ _ I Es E Hk).
Qed.

End Order.

(** X15. Within one pass the upserts are sent in the order of the
    snapshot: from the moment a drain begins a pass until that pass is
    over, the paths of the upserts sent are paths of the snapshot, in the
    order they have there and each at most once, whatever events arrive
    meanwhile and whichever reads and upserts fail. *)
Theorem upserts_follow_snapshot_order
  (s s1 s2 : SyncState) (ls : list label) :
  reachable s ->
  isSyncing s = false ->
  step s TimerFire = Some s1 ->
  exec_pass s1 ls = Some s2 ->
  exists sent,
    upsert_paths (calls s2) = upsert_paths (calls s) ++ sent /\
    subseq sent (syncQueue s) /\ NoDup sent.
Proof.
  intros Hr Es Hstep Hrun. assert (I := reachable_inv _ Hr).
  assert (I1 := step_inv _ _ _ I Hstep).
  assert (Hc := begin_pass_calls _ _ Hstep).
  assert (K1 : in_snapshot_order (upsert_paths (calls s)) (syncQueue s) s1).
  { exists []. rewrite Hc, app_nil_r. split; [reflexivity|].
    simpl in Hstep. destruct (drainTimer s); [|discriminate].
    injection Hstep as <-.
    destruct (syncQueue s) as [|p0 q0] eqn:Eq.
    - rewrite processSyncQueue_empty by exact Eq.
      simpl isSyncing. rewrite Es. constructor.
    - rewrite processSyncQueue_begin; [|exact Es|simpl; congruence].
      change (syncQueue (set_drainTimer s false)) with (syncQueue s).
      rewrite Eq.
      match goal with
      | |- context [drain_loop ?s0 ?ps] =>
          destruct (drain_loop_cases s0 ps)
            as [(sk & q & r & Hps & _ & _ & ->)|[_ ->]];
          [|destruct (finish_pass_fields s0) as (_ & _ & -> & _)]
      end.
      + simpl isSyncing. exists (AwaitRead q r), sk. simpl tasks.
        rewrite drains_app, (inv_idle _ I Es).
        split; [reflexivity|]. split; [exact Hps|].
        simpl. clear. induction sk; constructor; assumption.
      + clear. induction (p0 :: q0); constructor; assumption. }
  destruct (order_run _ _ ls s1 s2 I1 Hrun K1) as (u & Hu & Hk).
  exists u. split; [exact Hu|].
  assert (Hsub : subseq u (syncQueue s)).
  { destruct (isSyncing s2); [|exact Hk].
    destruct Hk as (t & done & _ & Hsnap & Hsub).
    rewrite Hsnap.
    destruct t as [p rest|p rest|tq]; simpl in *.
    - rewrite app_nil_r in Hsub. apply subseq_app_r. exact Hsub.
    - replace (done ++ p :: rest) with ((done ++ [p]) ++ rest)
        by (rewrite <- app_assoc; reflexivity).
      apply subseq_app_r. exact Hsub.
    - rewrite !app_nil_r in *. exact Hsub. }
  split; [exact Hsub|].
  apply (subseq_nodup _ _ Hsub). apply (inv_nodup _ I).
Qed.

Lemma upserts_follow_snapshot_order_witness :
  let s := state_after (vault_of [note_a; note_b])
             [FileCreate (TFile note_a); FileCreate (TFile note_b)] in
  let s1 := processSyncQueue (set_drainTimer s false) in
  let ls := [ReadSettled 0 (Some (lit "X")); FileModify (TFile note_a);
             IndexSettled 0 false; ReadSettled 0 (Some (lit "Y"));
             IndexSettled 0 true] in
  let s2 := match exec_pass s1 ls with Some x => x | None => s1 end in
  reachable s /\ exec_pass s1 ls = Some s2 /\
  upsert_paths (calls s2) = [note_a; note_b] /\
  exists sent,
    upsert_paths (calls s2) = upsert_paths (calls s) ++ sent /\
    subseq sent (syncQueue s).
Proof.
  intros s s1 ls s2.
  assert (Hr : reachable s).
  { exists (vault_of [note_a; note_b]),
      [FileCreate (TFile note_a); FileCreate (TFile note_b)].
    vm_compute; reflexivity. }
  assert (Hrun : exec_pass s1 ls = Some s2) by (vm_compute; reflexivity).
  split; [exact Hr|]. split; [exact Hrun|]. split; [vm_compute; reflexivity|].
  destruct (upserts_follow_snapshot_order s s1 s2 ls Hr eq_refl eq_refl Hrun)
    as (sent & H1 & H2 & _).
  exists sent. split; [exact H1 | exact H2].
Defined.

(** X16. The service end to end, for one note: from the initial state, a
    creation event for a file of [Insights/], the drain, a read that
    returns a text and an upsert that succeeds send exactly one request,
    the upsert carrying the path, the body and the frontmatter parsed from
    the text read at drain time, and leave the service idle with nothing
    pending. *)
Theorem created_note_is_upserted_once
  (v : Vault) (a : path) (content : jsstring) :
  v a = Some KFile -> insight_path a ->
  exists s,
    exec (init v)
      [FileCreate (TFile a); TimerFire; ReadSettled 0 (Some content);
       IndexSettled 0 true] = Some s /\
    calls s =
      [indexInsight {| payload_path := a;
                       payload_content := snd (parseFrontmatter content);
                       payload_frontmatter := fst (parseFrontmatter content) |}] /\
    isSyncing s = false /\ syncQueue s = [] /\ tasks s = [] /\
    drainTimer s = false.
Proof.
  intros Hv Ha.
  assert (Hi : isInsightNote (TFile a) = true)
    by (rewrite isInsightNote_prefix; exact Ha).
  set (s1 := queueSync (init v) a).
  assert (E1 : step (init v) (FileCreate (TFile a)) = Some s1).
  { cbn [step]. unfold onFileCreate. rewrite Hi. reflexivity. }
  set (s2 := suspend
               (begin_pass
                  (set_syncQueue
                     (set_isSyncing (set_drainTimer s1 false) true) []) [a])
               (AwaitRead a [])).
  assert (E2 : step s1 TimerFire = Some s2).
  { cbn [step]. change (drainTimer s1) with true. cbv iota. f_equal.
    rewrite processSyncQueue_begin; [|reflexivity|discriminate].
    change (syncQueue (set_drainTimer s1 false)) with [a].
    rewrite drain_loop_cons.
    rewrite (proj2 (resolves_iff _ a)); [reflexivity|].
    split; [exact Hv | exact Ha]. }
  set (s3 := read_settled (resume s2 0) a [] (Some content)).
  assert (E3 : step s2 (ReadSettled 0 (Some content)) = Some s3)
    by reflexivity.
  set (s4 := index_settled (resume s3 0) a [] true).
  assert (E4 : step s3 (IndexSettled 0 true) = Some s4) by reflexivity.
  exists s4. split.
  - cbn [exec]. rewrite E1, E2, E3, E4. reflexivity.
  - repeat split.
Qed.

Lemma created_note_is_upserted_once_witness :
  let content := fm_open ++ lit "type: insight" ++ fm_close ++ [LF]
                 ++ lit "X" in
  exists s,
    exec (init (vault_of [note_a]))
      [FileCreate (TFile note_a); TimerFire; ReadSettled 0 (Some content);
       IndexSettled 0 true] = Some s /\
    upsert_paths (calls s) = [note_a] /\ isSyncing s = false.
Proof.
  intros content.
  destruct (created_note_is_upserted_once (vault_of [note_a]) note_a content
              eq_refl eq_refl) as (s & H1 & H2 & H3 & _).
  exists s. split; [exact H1|]. split; [rewrite H2; reflexivity | exact H3].
Defined.

(* ================================================================= *)
(** * Properties of the full resynchronization *)

Section Resync.

Variable env : SyncEnv.

Lemma syncInsight_insight (file : TAbstractFile) :
  isInsightNote file = true ->
  syncInsight env file =
  match env_read env (file_path file) with
  | inr error => ([], inr error)
  | inl content =>
      match env_index env (payload_of (file_path file) content) with
      | inl _ => ([indexInsight (payload_of (file_path file) content)],
                  inl true)
      | inr error => ([indexInsight (payload_of (file_path file) content)],
                      inr error)
      end
  end.
Proof. intros H. unfold syncInsight. rewrite H. reflexivity. Qed.

Lemma resync_loop_account (files : list TAbstractFile) (stats : SyncStats)
  (sent : list RemoteCall) :
  Forall (fun f => isInsightNote f = true) files ->
  let result := resync_loop env files stats sent in
  indexed (fst result)
  = (indexed stats + length (filter (syncable env) files))%nat /\
  (length (errors (fst result))
   = length (errors stats)
     + length (filter (fun f => negb (syncable env f)) files))%nat /\
  deleted (fst result) = deleted stats /\
  snd result
  = sent ++ flat_map
              (fun f => match env_read env (file_path f) with
                        | inl content =>
                            [indexInsight (payload_of (file_path f) content)]
                        | inr _ => []
                        end) files.
Proof.
  intros Hall. revert stats sent.
  induction Hall as [|f files Hf _ IH]; intros stats sent result.
  - simpl. rewrite app_nil_r. repeat split; lia.
  - unfold result. cbn [resync_loop]. rewrite (syncInsight_insight f Hf).
    cbn [filter flat_map].
    destruct (env_read env (file_path f)) as [content|e] eqn:Er.
    + destruct (env_index env (payload_of (file_path f) content))
        as [u|e] eqn:Ei.
      * assert (Hs : syncable env f = true)
          by (unfold syncable; rewrite Er, Ei; reflexivity).
        rewrite Hs. cbn [negb].
        match goal with
        | |- context [resync_loop env files ?st ?sn] =>
            destruct (IH st sn) as (H1 & H2 & H3 & H4)
        end.
        rewrite H1, H2, H3, H4. cbn [indexed errors deleted length].
        split; [lia|]. split; [lia|]. split; [reflexivity|].
        rewrite <- app_assoc. reflexivity.
      * assert (Hs : syncable env f = false)
          by (unfold syncable; rewrite Er, Ei; reflexivity).
        rewrite Hs. cbn [negb].
        match goal with
        | |- context [resync_loop env files ?st ?sn] =>
            destruct (IH st sn) as (H1 & H2 & H3 & H4)
        end.
        rewrite H1, H2, H3, H4. cbn [indexed errors deleted length].
        rewrite length_app. cbn [length].
        split; [lia|]. split; [lia|]. split; [reflexivity|].
        rewrite <- app_assoc. reflexivity.
    + assert (Hs : syncable env f = false)
        by (unfold syncable; rewrite Er; reflexivity).
      rewrite Hs. cbn [negb].
      match goal with
      | |- context [resync_loop env files ?st ?sn] =>
          destruct (IH st sn) as (H1 & H2 & H3 & H4)
      end.
      rewrite H1, H2, H3, H4. cbn [indexed errors deleted length].
      rewrite length_app. cbn [length]. rewrite app_nil_r.
      split; [lia|]. split; [lia|]. split; reflexivity.
Qed.

Lemma filter_insights_all (files : list TAbstractFile) :
  Forall (fun f => isInsightNote f = true) (filter isInsightNote files).
Proof.
  apply Forall_forall. intros f Hf. apply filter_In in Hf. apply Hf.
Qed.

Lemma syncAllInsights_parts (files : list TAbstractFile) (showNotice : bool) :
  let run := resync_loop env (filter isInsightNote files)
               {| indexed := 0; deleted := 0; errors := [] |} [] in
  syncAllInsights env files showNotice =
  (fst run, snd run,
   if showNotice then
     [NoticeSyncing;
      if (0 <? length (errors (fst run)))%nat
      then NoticeSyncedWithErrors (indexed (fst run))
             (length (errors (fst run)))
      else NoticeSynced (indexed (fst run))]
   else []).
Proof.
  intros run. unfold syncAllInsights. fold run.
  destruct run as [stats sent]. reflexivity.
Qed.

Lemma resync_upsert_paths (files : list TAbstractFile) :
  let sent :=
    flat_map
      (fun f => match env_read env (file_path f) with
                | inl content =>
                    [indexInsight (payload_of (file_path f) content)]
                | inr _ => []
                end)
      (filter isInsightNote files) in
  upsert_paths sent
  = map file_path
      (filter (fun f => isInsightNote f && readable env f) files) /\
  length sent = length (upsert_paths sent).
Proof.
  induction files as [|f files [IH1 IH2]]; [split; reflexivity|].
  cbn [filter]. destruct (isInsightNote f) eqn:Ei; cbn [andb].
  - cbn [flat_map]. split.
    + rewrite upsert_paths_app, IH1.
      destruct (env_read env (file_path f)) as [content|e] eqn:Er.
      * assert (Hr : readable env f = true)
          by (unfold readable; rewrite Er; reflexivity).
        rewrite Hr. reflexivity.
      * assert (Hr : readable env f = false)
          by (unfold readable; rewrite Er; reflexivity).
        rewrite Hr. reflexivity.
    + rewrite upsert_paths_app, !length_app, <- IH2.
      destruct (env_read env (file_path f)) as [content|e]; reflexivity.
  - split; [exact IH1 | exact IH2].
Qed.

End Resync.

(** X17. The full resynchronization accounts for every Insight file of the
    vault: the number of notes it reports as indexed and the number of
    errors it reports add up to the number of files in [Insights/], the
    indexed ones being those whose read and upsert both succeeded, so a
    failure for one note never stops the others; it never reports a
    deleted note. With notices on it shows two, the second naming the
    errors exactly when there are some; with notices off it shows
    none. *)
Theorem resync_accounts_for_every_insight
  (env : SyncEnv) (files : list TAbstractFile) (showNotice : bool) :
  let insightFiles := filter isInsightNote files in
  let result := syncAllInsights env files showNotice in
  let stats := fst (fst result) in
  indexed stats = length (filter (syncable env) insightFiles) /\
  length (errors stats)
  = length (filter (fun f => negb (syncable env f)) insightFiles) /\
  (indexed stats + length (errors stats) = length insightFiles)%nat /\
  deleted stats = 0%nat /\
  snd result =
    (if showNotice then
       [NoticeSyncing;
        if (length (errors stats) =? 0)%nat then NoticeSynced (indexed stats)
        else NoticeSyncedWithErrors (indexed stats) (length (errors stats))]
     else []).
Proof.
  intros insightFiles result stats.
  unfold stats, result. rewrite syncAllInsights_parts. cbn [fst snd].
  destruct (resync_loop_account env insightFiles
              {| indexed := 0; deleted := 0; errors := [] |} []
              (filter_insights_all files)) as (H1 & H2 & H3 & _).
  fold insightFiles.
  set (run := resync_loop env insightFiles
                {| indexed := 0; deleted := 0; errors := [] |} []) in *.
  cbn [indexed errors deleted length] in H1, H2, H3.
  split; [exact H1|]. split; [exact H2|]. split.
  - rewrite H1, H2. clear. induction insightFiles as [|f l IH]; [reflexivity|].
    simpl. destruct (syncable env f); simpl; lia.
  - split; [exact H3|].
    destruct showNotice; [|reflexivity].
    destruct (length (errors (fst run))); reflexivity.
Qed.

(** X18. The full resynchronization sends one upsert for each file of
    [Insights/] whose read succeeds, in the order in which the vault lists
    the files, with the payload parsed from the text read, and sends
    nothing else: no request for a file outside [Insights/] or for one
    that cannot be read, and never a delete. *)
Theorem resync_sends_one_upsert_per_readable_insight
  (env : SyncEnv) (files : list TAbstractFile) (showNotice : bool) :
  let sent := snd (fst (syncAllInsights env files showNotice)) in
  sent =
    flat_map
      (fun f => match env_read env (file_path f) with
                | inl content =>
                    [indexInsight (payload_of (file_path f) content)]
                | inr _ => []
                end)
      (filter isInsightNote files) /\
  upsert_paths sent
  = map file_path
      (filter (fun f => isInsightNote f && readable env f) files) /\
  length sent = length (upsert_paths sent).
Proof.
  intros sent. unfold sent. rewrite syncAllInsights_parts. cbn [fst snd].
  destruct (resync_loop_account env (filter isInsightNote files)
              {| indexed := 0; deleted := 0; errors := [] |} []
              (filter_insights_all files)) as (_ & _ & _ & H4).
  rewrite H4. cbn [app]. clear H4.
  split; [reflexivity|]. apply resync_upsert_paths.
Qed.

(* ================================================================= *)
(** * Properties of the URLs of the API client *)

(** X19. The client drops one slash at the end of the server URL and no
    more: the base URL for [u/] is [u/api/v1], the same as for [u] when
    [u] does not end with a slash, so both spellings of a server address
    reach the same endpoints, while a second slash at the end is kept. *)
Theorem base_url_drops_one_trailing_slash (u : jsstring) :
  baseUrl (u ++ [slash]) = u ++ lit "/api/v1" /\
  (endsWith u [slash] = false -> baseUrl u = u ++ lit "/api/v1") /\
  baseUrl (u ++ [slash; slash]) = u ++ [slash] ++ lit "/api/v1".
Proof.
  assert (H : forall w, baseUrl (w ++ [slash]) = w ++ lit "/api/v1").
  { intros w. unfold baseUrl, strip_trailing_slash.
    rewrite rev_app_distr. simpl. rewrite rev_involutive. reflexivity. }
  split; [apply H|]. split.
  - intros He. unfold baseUrl, strip_trailing_slash.
    unfold endsWith in He. simpl in He.
    destruct (rev u) as [|c r]; [reflexivity|].
    simpl in He. rewrite andb_true_r in He. rewrite He. reflexivity.
  - replace (u ++ [slash; slash]) with ((u ++ [slash]) ++ [slash])
      by (rewrite <- app_assoc; reflexivity).
    rewrite H, <- app_assoc. reflexivity.
Qed.

Lemma base_url_drops_one_trailing_slash_witness :
  let u := lit "http://127.0.0.1:8742" in
  endsWith u [slash] = false /\
  baseUrl u = lit "http://127.0.0.1:8742/api/v1" /\
  baseUrl (u ++ [slash]) = baseUrl u.
Proof.
  intros u.
  assert (He : endsWith u [slash] = false) by (vm_compute; reflexivity).
  destruct (base_url_drops_one_trailing_slash u) as (H1 & H2 & _).
  split; [exact He|]. split; [exact (H2 He)|].
  rewrite H1, (H2 He). reflexivity.
Defined.

Section Encoding.

Lemma hexDigit_unreserved (d : N) :
  (d < 16)%N -> uriUnreserved (hexDigit d) = true.
Proof.
  intros H.
  assert (E : In d [0; 1; 2; 3; 4; 5; 6; 7; 8; 9; 10; 11; 12; 13; 14; 15]%N).
  { simpl. lia. }
  simpl in E.
  repeat (destruct E as [<-|E]; [reflexivity|]). destruct E.
Qed.

Lemma percent_safe (octet : N) :
  (octet < 256)%N -> Forall (fun c => uri_safe c = true) (percent octet).
Proof.
  intros H. unfold percent, uri_safe.
  constructor; [reflexivity|].
  constructor.
  { rewrite hexDigit_unreserved; [reflexivity|].
    apply N.Div0.div_lt_upper_bound. lia. }
  constructor; [|constructor].
  rewrite hexDigit_unreserved; [reflexivity|].
  apply N.mod_lt. discriminate.
Qed.

Lemma utf8_octets (cp : N) :
  (cp < 1114112)%N -> Forall (fun o => (o < 256)%N) (utf8 cp).
Proof.
  intros H. unfold utf8.
  assert (M : forall x, (x mod 64 < 64)%N)
    by (intros x; apply N.mod_lt; discriminate).
  destruct (cp <? 128)%N eqn:E1.
  { apply N.ltb_lt in E1. repeat constructor. lia. }
  destruct (cp <? 2048)%N eqn:E2.
  { apply N.ltb_lt in E2.
    assert (cp / 64 < 32)%N by (apply N.Div0.div_lt_upper_bound; lia).
    pose proof (M cp). repeat constructor; lia. }
  destruct (cp <? 65536)%N eqn:E3.
  { apply N.ltb_lt in E3.
    assert (cp / 4096 < 16)%N by (apply N.Div0.div_lt_upper_bound; lia).
    pose proof (M cp). pose proof (M (cp / 64)%N).
    repeat constructor; lia. }
  assert (cp / 262144 < 5)%N by (apply N.Div0.div_lt_upper_bound; lia).
  pose proof (M cp). pose proof (M (cp / 64)%N). pose proof (M (cp / 4096)%N).
  repeat constructor; lia.
Qed.

Lemma percent_all_safe (octets : list N) :
  Forall (fun o => (o < 256)%N) octets ->
  Forall (fun c => uri_safe c = true) (percent_all octets).
Proof.
  induction 1 as [|o l Ho _ IH]; [constructor|].
  unfold percent_all. cbn [flat_map]. apply Forall_app.
  split; [apply percent_safe; exact Ho | exact IH].
Qed.

(** Induction two code units at a time, as the encoder reads them. *)
Lemma encode_safe_upto (n : nat) (s e : jsstring) :
  (length s <= n)%nat ->
  Forall (fun c => (c < 65536)%N) s ->
  encodeURIComponent s = Some e ->
  Forall (fun c => uri_safe c = true) e.
Proof.
  revert s e. induction n as [|n IH]; intros s e Hlen Hs He.
  - destruct s; [|simpl in Hlen; lia]. injection He as <-. constructor.
  - destruct s as [|c s']; [injection He as <-; constructor|].
    inversion Hs as [|? ? Hc Hs']; subst. simpl in Hlen.
    cbn [encodeURIComponent] in He.
    destruct (uriUnreserved c) eqn:Eu.
    { destruct (encodeURIComponent s') as [e'|] eqn:E'; [|discriminate].
      injection He as <-. constructor.
      - unfold uri_safe. rewrite Eu. reflexivity.
      - apply (IH s' e'); [lia | exact Hs' | exact E']. }
    destruct (isLeadSurrogate c) eqn:El.
    { destruct s' as [|d s'']; [discriminate|].
      destruct (isTrailSurrogate d) eqn:Et; [|discriminate].
      destruct (encodeURIComponent s'') as [e'|] eqn:E'; [|discriminate].
      injection He as <-. inversion Hs' as [|? ? Hd Hs'']; subst.
      simpl in Hlen. apply Forall_app. split.
      - apply percent_all_safe, utf8_octets.
        unfold isLeadSurrogate in El. unfold isTrailSurrogate in Et.
        apply andb_true_iff in El as [L1 L2].
        apply andb_true_iff in Et as [T1 T2].
        apply N.leb_le in L1, L2, T1, T2. lia.
      - apply (IH s'' e'); [lia | exact Hs'' | exact E']. }
    destruct (isTrailSurrogate c); [discriminate|].
    destruct (encodeURIComponent s') as [e'|] eqn:E'; [|discriminate].
    injection He as <-. apply Forall_app. split.
    + apply percent_all_safe, utf8_octets. lia.
    + apply (IH s' e'); [lia | exact Hs' | exact E'].
Qed.

Lemma uri_safe_not_slash (e : jsstring) :
  Forall (fun c => uri_safe c = true) e -> ~ In slash e.
Proof.
  intros H Hin. rewrite Forall_forall in H. specialize (H _ Hin).
  discriminate H.
Qed.

Lemma encode_without_surrogates (s : jsstring) :
  Forall (fun c => isLeadSurrogate c = false /\ isTrailSurrogate c = false) s ->
  exists e, encodeURIComponent s = Some e.
Proof.
  induction 1 as [|c s [Hl Ht] _ [e IH]]; [exists []; reflexivity|].
  cbn [encodeURIComponent]. rewrite Hl, Ht, IH.
  destruct (uriUnreserved c); eexists; reflexivity.
Qed.

End Encoding.

(** X20. The delete request names the note in one segment of the URL: for
    a path of 16-bit code units, when [encodeURIComponent] does not throw,
    the URL is the base URL, [/insights/] and an encoded path made of
    letters, digits, [- _ . ! ~ * ' ( )] and [%] only, so without any
    slash. The encoding does not throw for a path without surrogates, and
    throws for a path that begins with a trailing surrogate. *)
Theorem delete_url_has_one_path_segment (base : jsstring) (p : path) :
  Forall (fun c => (c < 65536)%N) p ->
  (forall url,
      deleteInsight_url base p = Some url ->
      exists encodedPath,
        url = base ++ lit "/insights/" ++ encodedPath /\
        Forall (fun c => uri_safe c = true) encodedPath /\
        ~ In slash encodedPath) /\
  (Forall (fun c => isLeadSurrogate c = false /\ isTrailSurrogate c = false) p ->
   exists url, deleteInsight_url base p = Some url) /\
  (forall c rest, isTrailSurrogate c = true -> p = c :: rest ->
                  deleteInsight_url base p = None).
Proof.
  intros Hp. split; [|split].
  - intros url Hurl. unfold deleteInsight_url in Hurl.
    destruct (encodeURIComponent p) as [e|] eqn:E; [|discriminate].
    injection Hurl as <-. exists e. split; [reflexivity|].
    assert (Hs := encode_safe_upto (length p) p e (le_n _) Hp E).
    split; [exact Hs | apply uri_safe_not_slash; exact Hs].
  - intros Hns. destruct (encode_without_surrogates p Hns) as [e He].
    unfold deleteInsight_url. rewrite He. eexists; reflexivity.
  - intros c rest Ht ->. unfold deleteInsight_url. cbn [encodeURIComponent].
    assert (Hu : uriUnreserved c = false).
    { unfold isTrailSurrogate in Ht. apply andb_true_iff in Ht as [T1 T2].
      apply N.leb_le in T1, T2. unfold uriUnreserved.
      repeat match goal with
             | |- context [(?a <=? ?b)%N] =>
                 let H := fresh in
                 destruct (N.leb_spec a b) as [H|H]; try lia
             | |- context [(?a =? ?b)%N] =>
                 let H := fresh in
                 destruct (N.eqb_spec a b) as [H|H]; try lia
             end; reflexivity. }
    assert (Hl : isLeadSurrogate c = false).
    { unfold isTrailSurrogate in Ht. apply andb_true_iff in Ht as [T1 T2].
      apply N.leb_le in T1, T2. unfold isLeadSurrogate.
      apply andb_false_iff. right. apply N.leb_gt. lia. }
    rewrite Hu, Hl, Ht. reflexivity.
Qed.

Lemma delete_url_has_one_path_segment_witness :
  let base := baseUrl (lit "http://127.0.0.1:8742") in
  let p := lit "Insights/my note.md" in
  Forall (fun c => (c < 65536)%N) p /\
  deleteInsight_url base p
  = Some (lit "http://127.0.0.1:8742/api/v1/insights/Insights%2Fmy%20note.md").
Proof.
  intros base p.
  assert (Hp : Forall (fun c => (c < 65536)%N) p).
  { apply Forall_forall. intros c Hc.
    assert (Hb : forallb (fun c => (c <? 65536)%N) p = true)
      by (vm_compute; reflexivity).
    rewrite forallb_forall in Hb. apply N.ltb_lt. apply Hb. exact Hc. }
  split; [exact Hp|].
  destruct (delete_url_has_one_path_segment base p Hp) as (_ & H2 & _).
  destruct H2 as [url Hurl].
  - apply Forall_forall. intros c Hc.
    assert (Hb : forallb (fun c => negb (isLeadSurrogate c)
                                   && negb (isTrailSurrogate c)) p = true)
      by (vm_compute; reflexivity).
    rewrite forallb_forall in Hb. specialize (Hb c Hc).
    apply andb_true_iff in Hb as [B1 B2].
    apply negb_true_iff in B1, B2. split; assumption.
  - vm_compute. reflexivity.
Defined.

(* ================================================================= *)
(** * Properties of the result panel *)

Section Rendering.

Lemma count_class_El (cls tag c text : jsstring) (a : option Action)
  (children : list Node) :
  count_class cls (El tag c text a children)
  = ((if jseqb c cls then 1 else 0) + count_class_all cls children)%nat.
Proof.
  destruct children as [|x l]; reflexivity.
Qed.

Variable showScores : bool.
Variable score : number -> jsstring.

Lemma count_insight_item (i : RetrievedInsight) :
  count_class (lit "aurora-insight-item")
    (renderInsightItem showScores score i) = 1%nat /\
  count_class (lit "aurora-question-item")
    (renderInsightItem showScores score i) = 0%nat.
Proof.
  unfold renderInsightItem. rewrite !count_class_El.
  cbn [count_class_all fold_right]. rewrite !count_class_El.
  destruct showScores; cbn [count_class_all fold_right];
    rewrite !count_class_El; split; reflexivity.
Qed.

Lemma count_question_item (q : ComparisonQuestion) :
  count_class (lit "aurora-question-item") (renderQuestionItem q) = 1%nat /\
  count_class (lit "aurora-insight-item") (renderQuestionItem q) = 0%nat.
Proof.
  unfold renderQuestionItem. rewrite !count_class_El.
  destruct (truthy (cq_quote q)); destruct (truthy (cq_insight_reference q));
    destruct (cq_type q); split; reflexivity.
Qed.

Lemma count_insight_items (l : list RetrievedInsight) :
  count_class_all (lit "aurora-insight-item")
    (map (renderInsightItem showScores score) l) = length l /\
  count_class_all (lit "aurora-question-item")
    (map (renderInsightItem showScores score) l) = 0%nat.
Proof.
  induction l as [|i l [IH1 IH2]]; [split; reflexivity|].
  cbn [map count_class_all fold_right].
  destruct (count_insight_item i) as [H1 H2].
  split.
  - rewrite H1. unfold count_class_all in IH1. rewrite IH1. reflexivity.
  - rewrite H2. unfold count_class_all in IH2. rewrite IH2. reflexivity.
Qed.

Lemma count_question_items (l : list ComparisonQuestion) :
  count_class_all (lit "aurora-question-item") (map renderQuestionItem l)
  = length l /\
  count_class_all (lit "aurora-insight-item") (map renderQuestionItem l)
  = 0%nat.
Proof.
  induction l as [|q l [IH1 IH2]]; [split; reflexivity|].
  cbn [map count_class_all fold_right].
  destruct (count_question_item q) as [H1 H2].
  split.
  - rewrite H1. unfold count_class_all in IH1. rewrite IH1. reflexivity.
  - rewrite H2. unfold count_class_all in IH2. rewrite IH2. reflexivity.
Qed.

End Rendering.

(** X21. The panel shows every retrieved insight and every question once,
    and only when it is neither loading nor without a question text: the
    number of insight items drawn is the number of insights held, and the
    number of question items the number of questions held, unless the
    panel is loading or its current question is absent or empty, in which
    cases none is drawn. *)
Theorem panel_draws_each_result_once
  (showScores : bool) (score : number -> jsstring) (v : InsightPanelView) :
  let hidden := isLoading v || negb (truthy (currentQuestion v)) in
  count_class_all (lit "aurora-insight-item") (render showScores score v)
  = (if hidden then 0 else length (insights v))%nat /\
  count_class_all (lit "aurora-question-item") (render showScores score v)
  = (if hidden then 0 else length (questions v))%nat.
Proof.
  intros hidden. unfold hidden, render.
  destruct (isLoading v); [split; reflexivity|].
  destruct (truthy (currentQuestion v)); [|split; reflexivity].
  cbn [orb negb].
  unfold renderInsights, renderQuestions.
  cbn [count_class_all fold_right]. rewrite !count_class_El.
  cbn [count_class_all fold_right]. rewrite !count_class_El.
  destruct (count_insight_items showScores score (insights v)) as [I1 I2].
  destruct (count_question_items (questions v)) as [Q1 Q2].
  destruct (length (insights v) =? 0)%nat eqn:Ei;
    destruct (length (questions v) =? 0)%nat eqn:Eq;
    cbn [count_class_all fold_right]; rewrite ?count_class_El;
    rewrite ?I1, ?I2, ?Q1, ?Q2;
    try apply Nat.eqb_eq in Ei; try apply Nat.eqb_eq in Eq;
    split; simpl; lia.
Qed.

Section Preview.

Lemma slice_head (s : jsstring) (n : nat) :
  slice s 0 (Z.of_nat n) = firstn n s.
Proof.
  unfold slice, clamp_index.
  replace (0 <? 0)%Z with false by reflexivity.
  replace (Z.of_nat n <? 0)%Z with false by (symmetry; apply Z.ltb_ge; lia).
  rewrite (Z.min_l 0) by lia. cbn [Z.to_nat skipn]. rewrite Z.sub_0_r.
  destruct (Nat.le_gt_cases n (length s)) as [H|H].
  - rewrite Z.min_l by lia. rewrite Nat2Z.id. reflexivity.
  - rewrite Z.min_r by lia. rewrite Nat2Z.id.
    rewrite firstn_all. symmetry. apply firstn_all2. lia.
Qed.

End Preview.

(** X22. The preview of an insight is its content when that has at most
    200 code units, and otherwise the first 200 followed by three dots;
    it never has more than 203 code units. *)
Theorem preview_is_bounded (content : jsstring) :
  ((length content <= 200)%nat -> previewText content = content) /\
  ((200 < length content)%nat ->
   previewText content = firstn 200 content ++ lit "...") /\
  (length (previewText content) <= 203)%nat.
Proof.
  unfold previewText. change 200%Z with (Z.of_nat 200).
  rewrite slice_head.
  split; [|split].
  - intros H.
    replace (Z.of_nat 200 <? Z.of_nat (length content))%Z with false
      by (symmetry; apply Z.ltb_ge; lia).
    rewrite app_nil_r. apply firstn_all2. exact H.
  - intros H.
    replace (Z.of_nat 200 <? Z.of_nat (length content))%Z with true
      by (symmetry; apply Z.ltb_lt; lia).
    reflexivity.
  - rewrite length_app, length_firstn.
    destruct (Z.of_nat 200 <? Z.of_nat (length content))%Z; simpl length; lia.
Qed.

Lemma preview_is_bounded_witness :
  let content := lit "Knowledge that changes how I act becomes part of me." in
  (length content <= 200)%nat /\ previewText content = content.
Proof.
  intros content.
  assert (H : (length content <= 200)%nat) by (vm_compute; lia).
  split; [exact H|]. exact (proj1 (preview_is_bounded content) H).
Defined.

Section LinkText.

Lemma remove_first_head (pat rest : jsstring) :
  remove_first pat (pat ++ rest) = rest.
Proof.
  destruct (pat ++ rest) as [|c s] eqn:E.
  - destruct pat; [|discriminate]. simpl in E. subst rest. reflexivity.
  - cbn [remove_first]. rewrite <- E, startsWith_app, skipn_length_app.
    reflexivity.
Qed.

Lemma remove_extension (name : jsstring) :
  ~ In 46%N name -> remove_first (lit ".md") (name ++ lit ".md") = name.
Proof.
  induction name as [|c name IH]; intros Hn.
  - reflexivity.
  - assert (Hc : (c =? 46)%N = false).
    { apply N.eqb_neq. intros ->. apply Hn. left. reflexivity. }
    change ((c :: name) ++ lit ".md") with (c :: (name ++ lit ".md")).
    cbn [remove_first].
    replace (startsWith (c :: name ++ lit ".md") (lit ".md"))
      with ((c =? 46)%N && startsWith (name ++ lit ".md") (lit "md"))
      by reflexivity.
    rewrite Hc. cbn [andb]. f_equal.
    apply IH. intros H. apply Hn. right. exact H.
Qed.

End LinkText.

(** X23. The link of an insight shows the name of its note: for a path
    [Insights/name.md] whose name holds no dot, the text is the name,
    without the folder and without the extension. *)
Theorem link_text_is_the_note_name (name : jsstring) :
  ~ In 46%N name ->
  insight_link_text (lit "Insights/" ++ name ++ lit ".md") = name.
Proof.
  intros H. unfold insight_link_text.
  rewrite remove_first_head. apply remove_extension. exact H.
Qed.

Lemma link_text_is_the_note_name_witness :
  let name := lit "embodied-knowledge-persists" in
  ~ In 46%N name /\
  insight_link_text (lit "Insights/embodied-knowledge-persists.md") = name.
Proof.
  intros name.
  assert (H : ~ In 46%N name).
  { intros Hin.
    assert (Hb : existsb (N.eqb 46) name = false) by (vm_compute; reflexivity).
    assert (Ht : existsb (N.eqb 46) name = true).
    { apply existsb_exists. exists 46%N. split; [exact Hin | reflexivity]. }
    congruence. }
  split; [exact H|]. exact (link_text_is_the_note_name name H).
Defined.

(* ================================================================= *)
(** * Further properties of the plugin *)

(** X24. When the retrieval for a note returns insights and the
    generation answers, the query ends normally, two requests were sent,
    the retrieval and then one generation that carries the body and all the
    retrieved insights, the panel holds the body, those insights and the
    generated questions, and no notice is shown. *)
Theorem retrieval_with_results_fills_panel
  (h : Host) (file : TAbstractFile) (pl : Plugin) (panel : InsightPanelView)
  (content : jsstring) (found : list RetrievedInsight)
  (generated : list ComparisonQuestion) :
  insightPanel pl = Some panel ->
  host_read h (file_path file) = inl content ->
  let body := snd (parseFrontmatter content) in
  let query := query_request pl body in
  let generate := {| current_question := body;
                     retrieved_insights := found |} in
  server_query h query = inl found ->
  found <> [] ->
  server_generate h generate = inl generated ->
  let result := doQuery h file pl in
  snd result = inl tt /\
  insightPanel (fst result) =
    Some {| currentQuestion := Some body; insights := found;
            questions := generated; isLoading := false |} /\
  requests (fst result) =
    requests pl ++ [queryInsights query; generateQuestions generate] /\
  notices (fst result) = notices pl.
Proof.
  intros Hpanel Hread body query generate Hq Hne Hg result. unfold result.
  rewrite (doQuery_read h file pl panel Hpanel content Hread).
  fold body. fold query.
  unfold try_catch, bind, request. rewrite Hq.
  destruct found as [|r found]; [congruence|].
  cbn [length Nat.eqb]. fold generate. rewrite Hg. simpl.
  rewrite <- app_assoc. repeat split.
Qed.

Lemma retrieval_with_results_fills_panel_witness :
  let hit := {| ri_path := lit "Insights/a.md"; ri_content := lit "known";
                ri_similarity := QArith_base.Qmake 9 10;
                ri_frontmatter := empty_frontmatter |} in
  let asked := {| cq_type := memory_invoke;
                  cq_insight_reference := Some (lit "Insights/a.md");
                  cq_quote := Some (lit "known");
                  cq_question := lit "How does this relate?" |} in
  let h := {| activeFile := Some (TFile (lit "Questions/q.md"));
              panel_leaves := 1; right_leaf := true; base_path := lit "/v";
              host_read := fun _ => inl (lit "why");
              server_query := fun _ => inl [hit];
              server_generate := fun _ => inl [asked];
              server_reindex := fun _ => inr (lit "unused");
              server_health := inr (lit "unused") |} in
  let pl := create_view (onload None) in
  let result := doQuery h (TFile (lit "Questions/q.md")) pl in
  insightPanel (fst result) =
    Some {| currentQuestion := Some (lit "why"); insights := [hit];
            questions := [asked]; isLoading := false |}.
Proof.
  intros hit asked h pl result.
  assert (Hne : [hit] <> []) by discriminate.
  destruct (retrieval_with_results_fills_panel h (TFile (lit "Questions/q.md"))
              pl new_InsightPanelView (lit "why") [hit] [asked]
              eq_refl eq_refl eq_refl Hne eq_refl) as (_ & H2 & _).
  exact H2.
Defined.

(** X25. A question note whose body is empty gets no results drawn: after
    a query that retrieved insights and generated questions for it, the
    panel holds them, but what it draws is what it draws before any
    query, the hint to open a question note. *)
Theorem empty_body_draws_no_results
  (h : Host) (file : TAbstractFile) (pl : Plugin) (panel : InsightPanelView)
  (content : jsstring) (found : list RetrievedInsight)
  (generated : list ComparisonQuestion)
  (showScores : bool) (score : number -> jsstring) :
  insightPanel pl = Some panel ->
  host_read h (file_path file) = inl content ->
  snd (parseFrontmatter content) = [] ->
  server_query h (query_request pl []) = inl found ->
  found <> [] ->
  server_generate h {| current_question := [];
                       retrieved_insights := found |} = inl generated ->
  exists v,
    insightPanel (fst (doQuery h file pl)) = Some v /\
    insights v = found /\ questions v = generated /\
    render showScores score v = render showScores score new_InsightPanelView.
Proof.
  intros Hpanel Hread Hbody Hq Hne Hg.
  rewrite (doQuery_read h file pl panel Hpanel content Hread).
  rewrite Hbody.
  unfold try_catch, bind, request. rewrite Hq.
  destruct found as [|r found]; [congruence|].
  cbn [length Nat.eqb]. rewrite Hg. simpl.
  eexists. split; [reflexivity|]. repeat split.
Qed.

Lemma empty_body_draws_no_results_witness :
  let hit := {| ri_path := lit "Insights/a.md"; ri_content := lit "known";
                ri_similarity := QArith_base.Qmake 9 10;
                ri_frontmatter := empty_frontmatter |} in
  let h := {| activeFile := Some (TFile (lit "Questions/q.md"));
              panel_leaves := 1; right_leaf := true; base_path := lit "/v";
              host_read := fun _ => inl (lit "---" ++ [LF]
                                         ++ lit "type: question" ++ [LF]
                                         ++ lit "---" ++ [LF]);
              server_query := fun _ => inl [hit];
              server_generate := fun _ => inl [];
              server_reindex := fun _ => inr (lit "unused");
              server_health := inr (lit "unused") |} in
  let pl := create_view (onload None) in
  exists v,
    insightPanel (fst (doQuery h (TFile (lit "Questions/q.md")) pl)) = Some v /\
    insights v = [hit] /\
    render true (fun _ => lit "90%") v
    = render true (fun _ => lit "90%") new_InsightPanelView.
Proof.
  intros hit h pl.
  assert (Hne : [hit] <> []) by discriminate.
  assert (Hbody : snd (parseFrontmatter
                         (lit "---" ++ [LF] ++ lit "type: question" ++ [LF]
                          ++ lit "---" ++ [LF])) = [])
    by (vm_compute; reflexivity).
  destruct (empty_body_draws_no_results h (TFile (lit "Questions/q.md"))
              pl new_InsightPanelView _ [hit] [] true (fun _ => lit "90%")
              eq_refl eq_refl Hbody eq_refl Hne eq_refl)
    as (v & H1 & H2 & _ & H4).
  exists v. split; [exact H1|]. split; [exact H2 | exact H4].
Defined.

(** X26. When the note cannot be read, the query sends no request: it
    ends normally, the panel is cleared, and one notice with the error is
    shown. *)
Theorem unreadable_note_sends_no_request
  (h : Host) (file : TAbstractFile) (pl : Plugin) (panel : InsightPanelView)
  (error : Exn) :
  insightPanel pl = Some panel ->
  host_read h (file_path file) = inr error ->
  let result := doQuery h file pl in
  snd result = inl tt /\
  requests (fst result) = requests pl /\
  insightPanel (fst result) = Some (clearResults panel) /\
  notices (fst result) = notices pl ++ [NoticeQueryFailed error].
Proof.
  intros Hpanel Hread result.
  assert (E : result =
              (set_panel
                 {| settings := settings pl;
                    insightPanel := Some (setLoading true panel);
                    eventRefs := eventRefs pl; commands := commands pl;
                    queryTimer := queryTimer pl;
                    notices := notices pl ++ [NoticeQueryFailed error];
                    console := console pl ++ [lit "Query failed:"];
                    requests := requests pl |}
                 (Some (clearResults panel)), inl tt)).
  { unfold result, doQuery. rewrite Hpanel.
    unfold bind at 1. unfold on_panel at 1. rewrite Hpanel.
    unfold try_catch, bind at 1, await. rewrite Hread. reflexivity. }
  rewrite E. split; [reflexivity|]. split; [reflexivity|].
  split; reflexivity.
Qed.

Lemma unreadable_note_sends_no_request_witness :
  let h := {| activeFile := Some (TFile (lit "Questions/q.md"));
              panel_leaves := 1; right_leaf := true; base_path := lit "/v";
              host_read := fun _ => inr (lit "Error: ENOENT");
              server_query := fun _ => inl [];
              server_generate := fun _ => inl [];
              server_reindex := fun _ => inr (lit "unused");
              server_health := inr (lit "unused") |} in
  let pl := create_view (onload None) in
  let result := doQuery h (TFile (lit "Questions/q.md")) pl in
  requests (fst result) = [] /\
  notices (fst result) = [NoticeQueryFailed (lit "Error: ENOENT")].
Proof.
  intros h pl result.
  destruct (unreadable_note_sends_no_request h (TFile (lit "Questions/q.md"))
              pl new_InsightPanelView (lit "Error: ENOENT") eq_refl eq_refl)
    as (_ & H2 & _ & H4).
  split; [exact H2 | exact H4].
Defined.

Section Quiet.

Variable h : Host.
Hypothesis no_question : question_active h = false.

Lemma activatePanel_quiet (auto : bool) (pl : Plugin) :
  requests (fst (activatePanel h auto pl)) = requests pl /\
  notices (fst (activatePanel h auto pl)) = notices pl.
Proof.
  unfold activatePanel. unfold question_active in no_question.
  assert (H : forall pl' : Plugin,
             pl' = (if (0 <? panel_leaves h)%nat then pl
                    else if right_leaf h then create_view pl else pl) ->
             requests pl' = requests pl /\ notices pl' = notices pl).
  { intros pl' ->. destruct (0 <? panel_leaves h)%nat; [split; reflexivity|].
    destruct (right_leaf h); split; reflexivity. }
  destruct auto; [|apply H; reflexivity].
  destruct (activeFile h) as [f|]; [|apply H; reflexivity].
  rewrite no_question. apply H. reflexivity.
Qed.

Lemma queryForCurrentNote_quiet (pl : Plugin) :
  queryForCurrentNote h pl = (pl, inl tt).
Proof.
  unfold queryForCurrentNote. unfold question_active in no_question.
  destruct (activeFile h) as [f|]; [|reflexivity].
  rewrite no_question. reflexivity.
Qed.

Lemma trigger_notices (name : EventName) (file : option TAbstractFile)
  (pl : Plugin) :
  notices (trigger name h file pl) = notices pl.
Proof.
  unfold trigger. generalize (eventRefs pl) as refs. intros refs.
  revert pl. induction refs as [|ref refs IH]; intros pl; [reflexivity|].
  simpl. rewrite IH. destruct (EventName_eqb (fst ref) name); [|reflexivity].
  destruct (snd ref), file as [f|]; simpl; try reflexivity.
  - destruct (autoQuery (settings pl) && isQuestionNote f); reflexivity.
  - destruct (instanceof_TFile f && autoQuery (settings pl)
              && isQuestionNote f
              && match activeFile h with
                 | Some a => jseqb (file_path a) (file_path f)
                 | None => false
                 end); reflexivity.
Qed.

End Quiet.

(** X27. Without a question note open in the workspace the plugin asks
    the server for nothing on its own: whatever event the host fires,
    when the debounced query runs, and when the panel is opened or the
    query command is run, no request is sent and no notice is shown. Only
    the re-index command and the connection test reach the server then. *)
Theorem no_query_without_question_note
  (h : Host) (pl : Plugin) (l : plugin_label) :
  question_active h = false ->
  asks_server_directly l = false ->
  requests (plugin_step h pl l) = requests pl /\
  notices (plugin_step h pl l) = notices pl.
Proof.
  intros Hq Hl. destruct l as [name file| |c| | |]; cbn [plugin_step].
  - split; [apply trigger_requests | apply trigger_notices].
  - destruct (queryTimer pl); [|split; reflexivity].
    rewrite (queryForCurrentNote_quiet h Hq). split; reflexivity.
  - destruct (existsb (Command_eqb c) (commands pl)); [|split; reflexivity].
    destruct c; cbn [run_command].
    + apply (activatePanel_quiet h Hq).
    + rewrite (queryForCurrentNote_quiet h Hq). split; reflexivity.
    + discriminate.
  - split; reflexivity.
  - discriminate.
  - split; reflexivity.
Qed.

Lemma no_query_without_question_note_witness :
  let h := {| activeFile := Some (TFile (lit "Insights/a.md"));
              panel_leaves := 0; right_leaf := true; base_path := lit "/v";
              host_read := fun _ => inl (lit "known");
              server_query := fun _ => inl [];
              server_generate := fun _ => inl [];
              server_reindex := fun _ => inr (lit "unused");
              server_health := inr (lit "unused") |} in
  let pl := onload None in
  question_active h = false /\
  requests (plugin_step h pl (RunCommand open_insight_panel)) = [].
Proof.
  intros h pl.
  assert (Hq : question_active h = false) by (vm_compute; reflexivity).
  split; [exact Hq|].
  exact (proj1 (no_query_without_question_note h pl
                  (RunCommand open_insight_panel) Hq eq_refl)).
Defined.

Section AutoQueryOff.

Lemma run_handler_off (hd : Handler) (h : Host)
  (file : option TAbstractFile) (pl : Plugin) :
  autoQuery (settings pl) = false -> run_handler hd h file pl = pl.
Proof.
  intros Hoff. destruct hd, file as [f|]; cbn [run_handler];
    try reflexivity; rewrite Hoff.
  - reflexivity.
  - rewrite andb_false_r. reflexivity.
Qed.

End AutoQueryOff.

(** X28. With the setting [autoQuery] off no event of the host changes
    the plugin: opening or modifying a note, a question note or not, arms
    no query. *)
Theorem auto_query_off_ignores_events
  (h : Host) (pl : Plugin) (name : EventName) (file : option TAbstractFile) :
  autoQuery (settings pl) = false ->
  plugin_step h pl (HostEvent name file) = pl.
Proof.
  intros Hoff. cbn [plugin_step]. unfold trigger.
  generalize (eventRefs pl) as refs.
  induction refs as [|ref refs IH]; [reflexivity|].
  cbn [fold_left]. destruct (EventName_eqb (fst ref) name); [|exact IH].
  rewrite (run_handler_off (snd ref) h file pl Hoff). exact IH.
Qed.

Lemma auto_query_off_ignores_events_witness :
  let h := {| activeFile := Some (TFile (lit "Questions/q.md"));
              panel_leaves := 1; right_leaf := true; base_path := lit "/v";
              host_read := fun _ => inl (lit "why");
              server_query := fun _ => inl [];
              server_generate := fun _ => inl [];
              server_reindex := fun _ => inr (lit "unused");
              server_health := inr (lit "unused") |} in
  let data := {| saved_serverUrl := None; saved_topK := None;
                 saved_minSimilarity := None; saved_autoQuery := Some false;
                 saved_autoSync := None;
                 saved_showSimilarityScores := None |} in
  let pl := onload (Some data) in
  plugin_step h pl (HostEvent file_open (Some (TFile (lit "Questions/q.md"))))
  = pl.
Proof.
  intros h data pl.
  exact (auto_query_off_ignores_events h pl file_open
           (Some (TFile (lit "Questions/q.md"))) eq_refl).
Defined.

(* ================================================================= *)
(** * Properties of the creation of an Insight note *)

Section Dates.

Lemma date_char_cases (c : code_unit) :
  date_char c = true ->
  (c = 43 \/ c = 45 \/ c = 48 \/ c = 49 \/ c = 50 \/ c = 51 \/ c = 52
   \/ c = 53 \/ c = 54 \/ c = 55 \/ c = 56 \/ c = 57)%N.
Proof.
  unfold date_char. intros H.
  apply orb_true_iff in H as [H|H]; [apply orb_true_iff in H as [H|H]|].
  - apply andb_true_iff in H as [H1 H2].
    apply N.leb_le in H1, H2. lia.
  - apply N.eqb_eq in H. lia.
  - apply N.eqb_eq in H. lia.
Qed.

Lemma date_char_plain (c : code_unit) :
  date_char c = true ->
  isWhiteSpace c = false /\ (c =? LF)%N = false /\ (c =? dquote)%N = false
  /\ (c =? squote)%N = false.
Proof.
  intros H. apply date_char_cases in H.
  repeat (destruct H as [H|H]; [subst c; repeat split; reflexivity|]).
  subst c. repeat split; reflexivity.
Qed.

Variable today : jsstring.
Hypothesis today_is_a_date : Forall (fun c => date_char c = true) today.

Lemma date_no_LF : ~ In LF today.
Proof.
  intros Hin. rewrite Forall_forall in today_is_a_date.
  specialize (today_is_a_date _ Hin). discriminate.
Qed.

Lemma trimStart_date (s : jsstring) :
  Forall (fun c => date_char c = true) s -> trimStart s = s.
Proof.
  intros H. destruct H as [|c s Hc _]; [reflexivity|].
  apply trimStart_fixed. apply date_char_plain. exact Hc.
Qed.

Lemma trim_date : trim (32%N :: today) = today.
Proof.
  unfold trim, trimEnd.
  replace (trimStart (32%N :: today)) with (trimStart today) by reflexivity.
  rewrite (trimStart_date today today_is_a_date).
  rewrite (trimStart_date (rev today)) by (apply Forall_rev; assumption).
  apply rev_involutive.
Qed.

Lemma unquote_date : unquote today = today.
Proof.
  unfold unquote. destruct today_is_a_date as [|c s Hc _]; [reflexivity|].
  destruct (date_char_plain c Hc) as (_ & _ & Hd & Hs).
  cbn [startsWith]. rewrite Hd, Hs. reflexivity.
Qed.

Lemma new_insight_lines_ok : header_lines (new_insight_lines today).
Proof.
  unfold header_lines, new_insight_lines. split; [discriminate|]. split.
  - assert (L : forall l : jsstring,
               existsb (N.eqb LF) l = false -> ~ In LF l).
    { intros l Hl Hin.
      assert (Ht : existsb (N.eqb LF) l = true).
      { apply existsb_exists. exists LF. split; [exact Hin | reflexivity]. }
      congruence. }
    repeat constructor.
    + apply L. reflexivity.
    + intros Hin. apply in_app_or in Hin as [Hin|Hin].
      * revert Hin. apply L. reflexivity.
      * exact (date_no_LF Hin).
    + apply L. reflexivity.
    + apply L. reflexivity.
  - cbn [tl]. repeat constructor.
Qed.

Lemma new_insight_text (written : jsstring) :
  new_insight_header today ++ written
  = note_text (new_insight_lines today) (LF :: LF :: written).
Proof.
  unfold new_insight_header, note_text, new_insight_lines, fm_open, fm_close.
  cbn [join].
  repeat (rewrite <- app_assoc || rewrite <- app_comm_cons).
  cbn [app]. reflexivity.
Qed.

Lemma created_line (fm : NoteFrontmatter) :
  parse_line fm (lit "created: " ++ today)
  = assign_field fm (lit "created") today.
Proof.
  rewrite parse_line_keyed.
  change (lit "created: " ++ today)
    with (lit "created" ++ colon :: 32%N :: today).
  assert (Hn : ~ In colon (lit "created")).
  { intros Hin.
    assert (Ht : existsb (N.eqb colon) (lit "created") = true).
    { apply existsb_exists. exists colon. split; [exact Hin | reflexivity]. }
    discriminate. }
  rewrite (line_key_colon _ _ Hn), (line_value_colon _ _ Hn).
  rewrite trim_date, unquote_date. reflexivity.
Qed.

Lemma new_insight_parsed (written : jsstring) :
  parseFrontmatter (new_insight_header today ++ written)
  = ({| type := Some (lit "insight"); created := Some today; status := None;
        triggered_by := None; related_insights := None;
        related_questions := None; source_questions := None;
        confidence := Some (lit "low"); evolved_from := None;
        tags := None |},
     LF :: written).
Proof.
  rewrite new_insight_text. unfold parseFrontmatter.
  rewrite (frontmatterRegex_note _ _ new_insight_lines_ok).
  destruct new_insight_lines_ok as (Hne & Hlf & _).
  rewrite (split_join _ Hne Hlf).
  unfold new_insight_lines. cbn [fold_left].
  replace (parse_line empty_frontmatter (lit "type: insight"))
    with (assign_field empty_frontmatter (lit "type") (lit "insight"))
    by (vm_compute; reflexivity).
  rewrite created_line.
  cbn [after_delimiter]. replace (LF =? LF)%N with true by reflexivity.
  reflexivity.
Qed.

End Dates.

(** X29. A created Insight note parses back: for a date of digits and
    hyphens, the text that [createInsight] writes has a header from which
    [parseFrontmatter] recovers the type [insight], the date and the
    confidence [low] and nothing else ([source_questions], a list, is not
    recovered), and the body is a line feed followed by the text entered,
    or by the quoted prompt question when nothing was entered. *)
Theorem created_insight_parses_back
  (today titleInput contentInput promptQuestion : jsstring)
  (fileName : path) (text : jsstring) :
  Forall (fun c => date_char c = true) today ->
  createInsight today titleInput contentInput promptQuestion
  = Some (fileName, text) ->
  let written := match contentInput with
                 | _ :: _ => contentInput
                 | [] => lit "> " ++ promptQuestion ++ [LF; LF]
                 end in
  let fm := fst (parseFrontmatter text) in
  type fm = Some (lit "insight") /\
  created fm = Some today /\
  confidence fm = Some (lit "low") /\
  (forall f, field_set fm f = true ->
             f = F_type \/ f = F_created \/ f = F_confidence) /\
  snd (parseFrontmatter text) = LF :: written.
Proof.
  intros Hd Hc written fm. unfold createInsight in Hc.
  destruct (trim titleInput) as [|c t]; [discriminate|].
  assert (Ht : new_insight_header today ++ written = text)
    by (unfold written; congruence).
  unfold fm. rewrite <- Ht, (new_insight_parsed today Hd written).
  cbn [fst snd type created confidence].
  split; [reflexivity|]. split; [reflexivity|]. split; [reflexivity|].
  split; [|reflexivity].
  intros f Hf. destruct f; cbn in Hf; try discriminate; auto.
Qed.

Lemma created_insight_parses_back_witness :
  let today := lit "2026-01-15" in
  let text := new_insight_header today ++ lit "I learn by doing." in
  createInsight today (lit " Learning ") (lit "I learn by doing.") (lit "How?")
  = Some (lit "Insights/Learning.md", text) /\
  created (fst (parseFrontmatter text)) = Some today /\
  snd (parseFrontmatter text) = LF :: lit "I learn by doing.".
Proof.
  intros today text.
  assert (Hd : Forall (fun c => date_char c = true) today).
  { apply Forall_forall. intros c Hin.
    assert (Hall : forallb date_char today = true) by (vm_compute; reflexivity).
    rewrite forallb_forall in Hall. exact (Hall c Hin). }
  assert (Hc : createInsight today (lit " Learning ") (lit "I learn by doing.")
                 (lit "How?")
               = Some (lit "Insights/Learning.md", text))
    by (vm_compute; reflexivity).
  destruct (created_insight_parses_back today (lit " Learning ")
              (lit "I learn by doing.") (lit "How?")
              (lit "Insights/Learning.md") text Hd Hc)
    as (_ & H2 & _ & _ & H5).
  split; [exact Hc|]. split; [exact H2 | exact H5].
Defined.

(** X30. A note is created only for a title that is not blank, and then
    under [Insights/] with the trimmed title as its name, so that the sync
    service, on the creation event, takes it for an insight and queues its
    path. *)
Theorem created_insight_is_queued
  (today titleInput contentInput promptQuestion : jsstring)
  (s : SyncState) :
  match createInsight today titleInput contentInput promptQuestion with
  | None => trim titleInput = []
  | Some (fileName, _) =>
      trim titleInput <> [] /\
      fileName = lit "Insights/" ++ trim titleInput ++ lit ".md" /\
      isInsightNote (TFile fileName) = true /\
      In fileName (syncQueue (onFileCreate s (TFile fileName))) /\
      drainTimer (onFileCreate s (TFile fileName)) = true
  end.
Proof.
  unfold createInsight. destruct (trim titleInput) as [|c t] eqn:E.
  - reflexivity.
  - set (fileName := lit "Insights/" ++ (c :: t) ++ lit ".md").
    assert (Hi : isInsightNote (TFile fileName) = true).
    { rewrite isInsightNote_prefix. apply startsWith_app. }
    split; [discriminate|]. split; [reflexivity|]. split; [exact Hi|].
    unfold onFileCreate. rewrite Hi. cbn [instanceof_TFile negb orb].
    unfold queueSync, processSyncQueueDebounced. split; [|reflexivity].
    cbn [syncQueue set_drainTimer set_syncQueue file_path].
    apply set_add_in. right. reflexivity.
Qed.
